(** * The structured log recorder of node-mini-framework

    A shallow embedding of [src/core/logger.core.js] (class [Logger]) and the
    properties its specification states about it, followed by further
    properties of the same code.

    Conventions of the embedding.
    - A JavaScript string is a Rocq [string] holding its UTF-8 bytes, so that
      the size of a file is the length of its content.  The string functions
      below ([toUpperCase], [trim], the regular expressions) act on ASCII
      letters, ASCII white space and ASCII digits; they agree with
      JavaScript's on every text whose other characters are neither white
      space, line separators nor cased letters.
    - A JavaScript number is an integer ([Z]).
    - The file system, the console, the clock and the static field
      [Logger.logStats] form the [World]; a method is a function from worlds
      to a completion (normal or thrown value) and a new world.  The clock
      is read, never advanced: what is proved of one call holds of a call
      that does not straddle a tick of the clock.
    - A failing file-system call is an entry [Some msg] of the oracle
      [faults] of the world; statements about what a file contains after a
      call are made for worlds whose oracle is empty.
    - Of a recursive [mkdirSync] the world records the directory asked for,
      not the missing parents that the call creates on the way.
    - [logStats[type]] and [colors[type]] are read as own properties, which
      is what they are for the six severity names.
    - [util.inspect], [JSON.stringify], [process.cwd()] and the call stack
      captured by [new Error] belong to Node, not to this repository: they
      are the fields of [Host].
    - The retention sweep ([startLogRotation], [cleanOldLogs]) and the static
      initializer run on a timer and at class load; they are outside the
      embedding. *)

From stdpp Require Import gmap strings list fin_maps pretty.
From Stdlib Require Import ZArith NArith Ascii String.

(* ===================================================================== *)
(** ** Strings *)
(* ===================================================================== *)

Module Str.

Definition LF : ascii := ascii_of_nat 10.
Definition ESC : ascii := ascii_of_nat 27.

(** [\s] on ASCII: TAB, LF, VT, FF, CR and SPACE. *)
Definition is_space (c : ascii) : bool :=
  let n := nat_of_ascii c in
  ((9 <=? n)%nat && (n <=? 13)%nat) || (n =? 32)%nat.

(** [\d] *)
Definition is_digit (c : ascii) : bool :=
  let n := nat_of_ascii c in (48 <=? n)%nat && (n <=? 57)%nat.

(** [.] : every character but the line terminators LF and CR. *)
Definition is_dot (c : ascii) : bool :=
  let n := nat_of_ascii c in negb ((n =? 10)%nat || (n =? 13)%nat).

Definition upper_char (c : ascii) : ascii :=
  let n := nat_of_ascii c in
  if ((97 <=? n)%nat && (n <=? 122)%nat) then ascii_of_nat (n - 32) else c.

(** [s.toUpperCase()] *)
Fixpoint toUpperCase (s : string) : string :=
  match s with
  | EmptyString => EmptyString
  | String c r => String (upper_char c) (toUpperCase r)
  end.

Definition is_empty (s : string) : bool :=
  match s with EmptyString => true | String _ _ => false end.

Fixpoint trimStart (s : string) : string :=
  match s with
  | EmptyString => EmptyString
  | String c r => if is_space c then trimStart r else s
  end.

Fixpoint trimEnd (s : string) : string :=
  match s with
  | EmptyString => EmptyString
  | String c r =>
      let r' := trimEnd r in
      if is_space c && is_empty r' then EmptyString else String c r'
  end.

(** [s.trim()] *)
Definition trim (s : string) : string := trimEnd (trimStart s).

Fixpoint replicate (n : nat) (c : ascii) : string :=
  match n with O => EmptyString | S k => String c (replicate k c) end.

(** [s.padStart(n, c)] for a one-character filler. *)
Definition padStart (n : nat) (c : ascii) (s : string) : string :=
  replicate (n - String.length s) c +:+ s.

(** [s.slice(0, n)] *)
Fixpoint take (n : nat) (s : string) : string :=
  match n, s with
  | S k, String c r => String c (take k r)
  | _, _ => EmptyString
  end.

(** [s.split(c)] for a one-character separator: never the empty list. *)
Fixpoint split (sep : ascii) (s : string) : list string :=
  match s with
  | EmptyString => [EmptyString]
  | String c r =>
      let rest := split sep r in
      if Ascii.eqb c sep then EmptyString :: rest
      else match rest with
           | h :: t => String c h :: t
           | [] => [String c EmptyString]
           end
  end.

(** [parts.join(sep)] *)
Fixpoint join (sep : string) (parts : list string) : string :=
  match parts with
  | [] => EmptyString
  | [p] => p
  | p :: rest => p +:+ sep +:+ join sep rest
  end.

Fixpoint starts_with (p s : string) : bool :=
  match p, s with
  | EmptyString, _ => true
  | String a p', String b s' => Ascii.eqb a b && starts_with p' s'
  | String _ _, EmptyString => false
  end.

(** [s.includes(p)] *)
Fixpoint includes (p s : string) : bool :=
  starts_with p s ||
  match s with
  | EmptyString => false
  | String _ r => includes p r
  end.

Fixpoint mem (c : ascii) (s : string) : bool :=
  match s with
  | EmptyString => false
  | String a r => Ascii.eqb a c || mem c r
  end.

(** Every character of [s] is in the class. *)
Fixpoint all (cls : ascii → bool) (s : string) : bool :=
  match s with
  | EmptyString => true
  | String c r => cls c && all cls r
  end.

(** The number of bytes of [s]. *)
Definition size (s : string) : N := N.of_nat (String.length s).

(** [n] copies of the byte [c], for files too large to write down. *)
Definition fill (n : N) (c : ascii) : string := N.iter n (String c) EmptyString.

End Str.

(* ===================================================================== *)
(** ** JavaScript values *)
(* ===================================================================== *)

(** An error object carries its [name], [message], [stack] (absent or a
    string) and [code]; [code] is undefined unless the thrower set it.
    The fields of an object are listed in the order in which the object
    enumerates them.  [VBigInt] is a BigInt such as [1n]. *)
#[local] Set Warnings "-register-all".
Inductive Value : Type :=
| VUndefined
| VNull
| VBool (b : bool)
| VNum (n : Z)
| VStr (s : string)
| VArr (items : list Value)
| VObj (fields : list (string * Value))
| VError (name message : string) (stack : option string) (code : Value)
| VBigInt (n : Z).

(** ToBoolean *)
Definition truthy (v : Value) : bool :=
  match v with
  | VUndefined | VNull => false
  | VBool b => b
  | VNum n => negb (n =? 0)%Z
  | VStr s => negb (Str.is_empty s)
  | VArr _ | VObj _ | VError _ _ _ _ => true
  | VBigInt n => negb (n =? 0)%Z
  end.

(** [typeof v === 'object'] *)
Definition is_object (v : Value) : bool :=
  match v with
  | VNull | VArr _ | VObj _ | VError _ _ _ _ => true
  | _ => false
  end.

(** [v instanceof Error] *)
Definition instanceof_Error (v : Value) : bool :=
  match v with VError _ _ _ _ => true | _ => false end.


(** [String(v)] and the conversion of [`${v}`]: objects have the default
    [toString], errors [Error.prototype.toString]. *)
Fixpoint to_String (v : Value) : string :=
  match v with
  | VUndefined => "undefined"
  | VNull => "null"
  | VBool true => "true"
  | VBool false => "false"
  | VNum n => pretty n
  | VStr s => s
  | VArr items =>
      (fix elems (l : list Value) : string :=
         match l with
         | [] => ""
         | x :: rest =>
             let sx := match x with
                       | VUndefined | VNull => ""
                       | _ => to_String x
                       end in
             match rest with
             | [] => sx
             | _ :: _ => sx +:+ "," +:+ elems rest
             end
         end) items
  | VObj _ => "[object Object]"
  | VError name message _ _ =>
      if Str.is_empty name then message
      else if Str.is_empty message then name
      else name +:+ ": " +:+ message
  | VBigInt n => pretty n
  end.

(* ===================================================================== *)
(** ** Regular expressions

    The two patterns of [parseStack] use literals, the classes [\s], [\d]
    and [.], greedy and lazy [+] on a class, and capture groups.  [exec]
    is the backtracking matcher of JavaScript for that fragment, in
    continuation-passing style: alternatives are tried in priority order
    and the first complete match wins. *)
(* ===================================================================== *)

Module Regex.

Inductive re : Type :=
| Lit (s : string)                      (* the characters of [s] *)
| PlusG (cls : ascii -> bool)           (* [c+], greedy *)
| PlusL (cls : ascii -> bool)           (* [c+?], lazy *)
| Group (r : re)                        (* [( r )], capturing *)
| Seq (r1 r2 : re).

(** The characters consumed between the input [s] and its suffix [s']. *)
Definition consumed (s s' : string) : string :=
  Str.take (String.length s - String.length s') s.

Fixpoint lit {X} (p s : string) (k : string -> option X) : option X :=
  match p, s with
  | EmptyString, _ => k s
  | String a p', String b s' => if Ascii.eqb a b then lit p' s' k else None
  | String _ _, EmptyString => None
  end.

Fixpoint plusG {X} (cls : ascii -> bool) (s : string) (k : string -> option X) : option X :=
  match s with
  | EmptyString => None
  | String c s' =>
      if cls c then
        match plusG cls s' k with
        | Some x => Some x
        | None => k s'
        end
      else None
  end.

Fixpoint plusL {X} (cls : ascii -> bool) (s : string) (k : string -> option X) : option X :=
  match s with
  | EmptyString => None
  | String c s' =>
      if cls c then
        match k s' with
        | Some x => Some x
        | None => plusL cls s' k
        end
      else None
  end.

(** [exec r s caps k]: match [r] at the start of [s]; [caps] are the
    groups closed so far, [k] matches the rest of the pattern. *)
Fixpoint exec {X} (r : re) (s : string) (caps : list string)
    (k : string -> list string -> option X) : option X :=
  match r with
  | Lit p => lit p s (fun s' => k s' caps)
  | PlusG cls => plusG cls s (fun s' => k s' caps)
  | PlusL cls => plusL cls s (fun s' => k s' caps)
  | Group r1 => exec r1 s caps (fun s' caps' => k s' (caps' ++ [consumed s s']))
  | Seq r1 r2 => exec r1 s caps (fun s' caps' => exec r2 s' caps' k)
  end.

Definition match_here (r : re) (s : string) : option (list string) :=
  exec r s [] (fun _ caps => Some caps).

(** [s.match(r)] for a pattern without the [g] flag: the leftmost match;
    the result lists the capture groups [match[1]], [match[2]], ... *)
Fixpoint search (r : re) (s : string) : option (list string) :=
  match match_here r s with
  | Some caps => Some caps
  | None =>
      match s with
      | EmptyString => None
      | String _ s' => search r s'
      end
  end.

End Regex.

(* ===================================================================== *)
(** ** The pure part of [Logger] *)
(* ===================================================================== *)

Definition RESET : string := String Str.ESC "[0m".

(** [Logger.colorize(type, text)] *)
Definition colors : list (string * string) :=
  [ ("info",    String Str.ESC "[36m");
    ("debug",   String Str.ESC "[35m");
    ("log",     String Str.ESC "[37m");
    ("warning", String Str.ESC "[33m");
    ("error",   String Str.ESC "[31m");
    ("all",     String Str.ESC "[34m") ].

Fixpoint assoc {A} (key : string) (l : list (string * A)) : option A :=
  match l with
  | [] => None
  | (k, v) :: rest => if String.eqb k key then Some v else assoc key rest
  end.

Definition colorize (type text : string) : string :=
  default "" (assoc type colors) +:+ text +:+ RESET.

(** [Logger.bold(text)] *)
Definition bold (text : string) : string :=
  String Str.ESC "[1m" +:+ text +:+ RESET.

(** [Logger.dim(text)] *)
Definition dim (text : string) : string :=
  String Str.ESC "[2m" +:+ text +:+ RESET.

(** The object built by [extractErrorInfo]; an absent field is
    [VUndefined] ([None] for the stack). *)
Record ErrorInfo : Type := mkErrorInfo {
  ei_message : string;
  ei_name : Value;
  ei_stack : option string;
  ei_code : Value
}.

(** [Logger.extractErrorInfo(err)].  The spread [...err] copies the own
    enumerable properties of [err]; those named message, name, stack or
    code are the values already read, so the four fields are unchanged. *)
Definition extractErrorInfo (err : Value) : ErrorInfo :=
  match err with
  | VError name message stack code =>
      {| ei_message := message; ei_name := VStr name;
         ei_stack := stack; ei_code := code |}
  | _ =>
      {| ei_message := to_String err; ei_name := VUndefined;
         ei_stack := None; ei_code := VUndefined |}
  end.

(** An element of the array returned by [parseStack]: either
    [{function, file, line, column}] or [{raw}]. *)
Inductive StackItem : Type :=
| Frame (function file line column : string)
| Raw (raw : string).

(** [/at\s+(.+?)\s+\((.+):(\d+):(\d+)\)/] *)
Definition named_frame_re : Regex.re :=
  let S := Regex.Seq in
  S (Regex.Lit "at") (S (Regex.PlusG Str.is_space)
  (S (Regex.Group (Regex.PlusL Str.is_dot)) (S (Regex.PlusG Str.is_space)
  (S (Regex.Lit "(") (S (Regex.Group (Regex.PlusG Str.is_dot))
  (S (Regex.Lit ":") (S (Regex.Group (Regex.PlusG Str.is_digit))
  (S (Regex.Lit ":") (S (Regex.Group (Regex.PlusG Str.is_digit))
  (Regex.Lit ")")))))))))).

(** [/at\s+(.+):(\d+):(\d+)/] *)
Definition bare_frame_re : Regex.re :=
  let S := Regex.Seq in
  S (Regex.Lit "at") (S (Regex.PlusG Str.is_space)
  (S (Regex.Group (Regex.PlusG Str.is_dot))
  (S (Regex.Lit ":") (S (Regex.Group (Regex.PlusG Str.is_digit))
  (S (Regex.Lit ":") (Regex.Group (Regex.PlusG Str.is_digit))))))).

(** The callback of [lines.map] in [parseStack]. *)
Definition parseLine (line : string) : StackItem :=
  match Regex.search named_frame_re line with
  | Some [f; file; l; c] => Frame (Str.trim f) file l c
  | _ =>
      match Regex.search bare_frame_re line with
      | Some [file; l; c] => Frame "anonymous" file l c
      | _ => Raw (Str.trim line)
      end
  end.

(** The predicate of [.filter]: [item.file || item.raw]. *)
Definition keep_item (item : StackItem) : bool :=
  match item with
  | Frame _ file _ _ => negb (Str.is_empty file)
  | Raw raw => negb (Str.is_empty raw)
  end.

(** [Logger.parseStack(stack)] *)
Definition parseStack (stack : option string) : list StackItem :=
  match stack with
  | None => []
  | Some s =>
      if Str.is_empty s then []
      else
        let lines := tail (Str.split Str.LF s) in
        List.filter keep_item (List.map parseLine lines)
  end.

(** [Logger.formatStack(stack, forConsole)].  After the filter of
    [parseStack] a raw item is never empty; the frame branch is written
    for it all the same, as the source reads [undefined] fields there. *)
Definition formatItem (forConsole : bool) (item : StackItem) : string :=
  let frame (function : option string) (location : string) :=
    let funcName :=
      match function with
      | Some f => if Str.is_empty f then "anonymous" else f
      | None => "anonymous"
      end in
    let prefix := if forConsole then dim "  →" else "  →" in
    let formattedFunc := if forConsole then bold funcName else funcName in
    let formattedLoc := if forConsole then dim location else location in
    prefix +:+ " " +:+ formattedFunc +:+ " (" +:+ formattedLoc +:+ ")" in
  match item with
  | Raw raw =>
      if Str.is_empty raw then frame None "undefined:undefined:undefined"
      else if forConsole then dim ("  " +:+ raw) else "  " +:+ raw
  | Frame function file line column =>
      frame (Some function) (file +:+ ":" +:+ line +:+ ":" +:+ column)
  end.

Definition formatStack (stack : option string) (forConsole : bool) : string :=
  let parsed := parseStack stack in
  match parsed with
  | [] => ""
  | _ :: _ =>
      let lines := List.map (formatItem forConsole) parsed in
      String Str.LF "" +:+ Str.join (String Str.LF "") lines
  end.

(* ===================================================================== *)
(** ** The world: files, console, clock, counters *)
(* ===================================================================== *)

Inductive Node : Type :=
| File (content : string)
| Dir.

Inductive ConsoleEvent : Type :=
| Stdout (text : string)      (* console.log *)
| Stderr (text : string)      (* console.error *)
| Table (data : Value).       (* console.table *)

(** What [new Date()] reads: the local calendar fields, the UTC text of
    [toISOString()] and the epoch milliseconds of [Date.now()]. *)
Record JsDate : Type := mkDate {
  getFullYear : N;
  getMonth : N;
  getDate : N;
  getHours : N;
  getMinutes : N;
  getSeconds : N;
  getMilliseconds : N;
  toISOString : string;
  epochMillis : N
}.

(** [faults] is the oracle of I/O failures: every call of [mkdirSync],
    [statSync], [renameSync] and [appendFileSync] takes the head of the
    list; [Some msg] makes that call throw an error with message [msg]
    and leave the file system as it is.  The clock is not advanced by the
    logger: a call is assumed not to straddle a change of [now]. *)
Record World : Type := mkWorld {
  fs : gmap string Node;
  console : list ConsoleEvent;
  logStats : gmap string N;
  now : JsDate;
  faults : list (option string)
}.

Definition set_fs (f : gmap string Node → gmap string Node) (w : World) : World :=
  {| fs := f (fs w); console := console w; logStats := logStats w;
     now := now w; faults := faults w |}.

Definition set_console (f : list ConsoleEvent → list ConsoleEvent) (w : World) : World :=
  {| fs := fs w; console := f (console w); logStats := logStats w;
     now := now w; faults := faults w |}.

Definition set_logStats (f : gmap string N → gmap string N) (w : World) : World :=
  {| fs := fs w; console := console w; logStats := f (logStats w);
     now := now w; faults := faults w |}.

Definition set_faults (f : list (option string) → list (option string)) (w : World) : World :=
  {| fs := fs w; console := console w; logStats := logStats w;
     now := now w; faults := f (faults w) |}.

Inductive Completion (A : Type) : Type :=
| Normal (a : A)
| Throw (v : Value).
Arguments Normal {A} a.
Arguments Throw {A} v.

(** A method body: it runs in a world and completes normally or by a
    throw, leaving a new world. *)
Definition Js (A : Type) : Type := World → Completion A * World.

#[global] Instance Js_ret : MRet Js := λ A a w, (Normal a, w).

#[global] Instance Js_bind : MBind Js := λ A B f m w,
  match m w with
  | (Normal a, w1) => f a w1
  | (Throw v, w1) => (Throw v, w1)
  end.

Definition throw {A} (v : Value) : Js A := λ w, (Throw v, w).

(** [try { body } catch (e) { handler(e) }] *)
Definition try_catch {A} (body : Js A) (handler : Value → Js A) : Js A := λ w,
  match body w with
  | (Normal a, w1) => (Normal a, w1)
  | (Throw v, w1) => handler v w1
  end.

(** [try { body } finally { cleanup }]: the completion of [body] stands
    unless [cleanup] throws. *)
Definition try_finally {A} (body : Js A) (cleanup : Js unit) : Js A := λ w,
  match body w with
  | (c, w1) =>
      match cleanup w1 with
      | (Normal _, w2) => (c, w2)
      | (Throw v, w2) => (Throw v, w2)
      end
  end.

Definition get {A} (proj : World → A) : Js A := λ w, (Normal (proj w), w).
Definition modify (f : World → World) : Js unit := λ w, (Normal tt, f w).

Definition console_log (text : string) : Js unit :=
  modify (set_console (λ c, c ++ [Stdout text])).
Definition console_error (text : string) : Js unit :=
  modify (set_console (λ c, c ++ [Stderr text])).
Definition console_table (data : Value) : Js unit :=
  modify (set_console (λ c, c ++ [Table data])).

(** *** The [fs] module *)

Definition io_error (msg : string) : Value := VError "Error" msg None VUndefined.

(** A call that can fail asks the oracle first. *)
Definition fallible {A} (op : Js A) : Js A := λ w,
  match faults w with
  | Some msg :: rest => (Throw (io_error msg), set_faults (λ _, rest) w)
  | None :: rest => op (set_faults (λ _, rest) w)
  | [] => op w
  end.

(** [path.join(a, b)] for two clean segments. *)
Definition path_join (a b : string) : string := a +:+ "/" +:+ b.

(** [fs.existsSync(p)] never throws. *)
Definition existsSync (p : string) : Js bool :=
  get (λ w, match fs w !! p with Some _ => true | None => false end).

(** [fs.mkdirSync(p, { recursive: true })]: no error when the directory
    is there already.  The world records the directory asked for; the
    parents that the call makes on the way when they are missing are not
    recorded, and nothing is stated of them. *)
Definition mkdirSync (p : string) : Js unit :=
  fallible (
    node ← get (λ w, fs w !! p);
    match node with
    | Some (File _) => throw (io_error ("EEXIST: file already exists, mkdir '" +:+ p +:+ "'"))
    | Some Dir => mret tt
    | None => modify (set_fs (insert p Dir))
    end).

(** [fs.statSync(p).size]; 4096 stands for the size a directory reports. *)
Definition statSync_size (p : string) : Js N :=
  fallible (
    node ← get (λ w, fs w !! p);
    match node with
    | Some (File content) => mret (Str.size content)
    | Some Dir => mret 4096%N
    | None => throw (io_error ("ENOENT: no such file or directory, stat '" +:+ p +:+ "'"))
    end).

(** [fs.renameSync(from, to)]: an existing file at [to] is replaced. *)
Definition renameSync (from to : string) : Js unit :=
  fallible (
    node ← get (λ w, fs w !! from);
    match node with
    | Some n => modify (set_fs (λ m, <[to := n]> (delete from m)))
    | None => throw (io_error ("ENOENT: no such file or directory, rename '" +:+ from +:+ "'"))
    end).

(** [fs.appendFileSync(p, data, { flag: 'a' })]: the file is created when
    it is missing. *)
Definition appendFileSync (p data : string) : Js unit :=
  fallible (
    node ← get (λ w, fs w !! p);
    match node with
    | Some (File content) => modify (set_fs (insert p (File (content +:+ data))))
    | Some Dir => throw (io_error ("EISDIR: illegal operation on a directory, open '" +:+ p +:+ "'"))
    | None => modify (set_fs (insert p (File data)))
    end).

(* ===================================================================== *)
(** ** The class [Logger] *)
(* ===================================================================== *)

(** What Node provides.  [util_inspect v] is [util.inspect(v, {depth: 4,
    colors: false, compact: false, breakLength: 80})], where [None]
    stands for a throw.  [JSON_stringify v] is the completion of
    [JSON.stringify(v, null, 2)]: the text, or the value that the call
    throws.  [callStack] is the text of the frames that [new Error]
    records. *)
Record Host : Type := mkHost {
  cwd : string;
  util_inspect : Value → option string;
  JSON_stringify : Value → Completion string;
  callStack : string
}.

(** [config.app], as far as the logger reads it. *)
Record Config : Type := mkConfig {
  production : bool;
  log_dir : string
}.

(** The [options] argument; a property that is not there is
    [VUndefined]. *)
Record Options : Type := mkOptions {
  context : Value;
  trace : Value;
  noThrow : Value
}.

Definition no_options : Options :=
  {| context := VUndefined; trace := VUndefined; noThrow := VUndefined |}.

(** [{ ...options, trace: true }] *)
Definition with_trace (options : Options) : Options :=
  {| context := context options; trace := VBool true; noThrow := noThrow options |}.

(** [static logStats = { info: 0, ... }] *)
Definition initial_logStats : gmap string N :=
  <["info" := 0%N]> (<["debug" := 0%N]> (<["log" := 0%N]>
  (<["warning" := 0%N]> (<["error" := 0%N]> (<["all" := 0%N]> ∅))))).

(** [err.message] in a [catch] clause, as text; every value thrown by
    the [fs] module is an error object. *)
Definition message_of (err : Value) : string :=
  match err with
  | VError _ message _ _ => message
  | _ => "undefined"
  end.

(** The text that [Logger.timestamp()] makes of the date it reads. *)
Definition timestamp_of (d : JsDate) : string :=
  let pad (n : N) := Str.padStart 2 "0" (pretty n) in
  let ms := Str.padStart 3 "0" (pretty (getMilliseconds d)) in
  pretty (getFullYear d) +:+ "-" +:+ pad (getMonth d + 1)%N +:+ "-" +:+
  pad (getDate d) +:+ " " +:+ pad (getHours d) +:+ ":" +:+
  pad (getMinutes d) +:+ ":" +:+ pad (getSeconds d) +:+ "." +:+ ms.

Section Logger.

Context (host : Host) (config : Config).

Definition LOG_DIR : string := path_join (cwd host) (log_dir config).
Definition MAX_LOG_SIZE : N := 10 * 1024 * 1024.

(** [new Error(v)] *)
Definition new_Error (v : Value) : Value :=
  let message := match v with VUndefined => "" | _ => to_String v end in
  let head := if Str.is_empty message then "Error" else "Error: " +:+ message in
  VError "Error" message (Some (head +:+ String Str.LF "" +:+ callStack host)) VUndefined.

(** [Logger.init()] *)
Definition init : Js unit :=
  e ← existsSync LOG_DIR;
  if (e : bool) then mret tt else mkdirSync LOG_DIR.

(** [Logger.timestamp()] *)
Definition timestamp : Js string :=
  d ← get now;
  mret (timestamp_of d).

(** [Logger.todayDir()] *)
Definition todayDir : Js string :=
  d ← get now;
  let dir := path_join LOG_DIR (Str.take 10 (toISOString d)) in
  e ← existsSync dir;
  (if (e : bool) then mret tt else mkdirSync dir);;
  mret dir.

(** The [try] block of [writeToFile]. *)
Definition writeToFile_body (type message : string) : Js unit :=
  today ← todayDir;
  let file := path_join today (type +:+ ".log") in
  e ← existsSync file;
  (if (e : bool) then
     size ← statSync_size file;
     if (MAX_LOG_SIZE <? size)%N then
       timestamp ← get (λ w, epochMillis (now w));
       today' ← todayDir;
       let rotatedFile := path_join today' (type +:+ "." +:+ pretty timestamp +:+ ".log") in
       renameSync file rotatedFile
     else mret tt
   else mret tt);;
  appendFileSync file (message +:+ String Str.LF "").

(** [Logger.writeToFile(type, message)] *)
Definition writeToFile (type message : string) : Js unit :=
  try_catch (writeToFile_body type message)
    (λ err, console_error ("Failed to write log: " +:+ message_of err)).

(** [Logger.formatValue(value)] *)
Definition formatValue (value : Value) : string :=
  match value with
  | VNull => "null"
  | VUndefined => "undefined"
  | _ =>
      if is_object value then
        match util_inspect host value with
        | Some text => text
        | None => "[Circular or Invalid Object]"
        end
      else to_String value
  end.

(** The two messages that [record] builds, from the time stamp read for
    the header: [(consoleMessage, fileMessage)]. *)
Definition messages (ts type layer : string) (err : Value) (options : Options)
    : string * string :=
  let errorInfo := extractErrorInfo err in
  let rawMessage := ei_message errorInfo in
  let header := ts +:+ " | " +:+ Str.toUpperCase type +:+ " | " +:+ Str.toUpperCase layer in
  let headerBold := bold header in
  let consoleMessage := headerBold +:+ " | " +:+ rawMessage in
  let fileMessage := header +:+ " | " +:+ rawMessage in
  let '(consoleMessage, fileMessage) :=
    if truthy (context options) then
      let contextStr := formatValue (context options) in
      (consoleMessage +:+ String Str.LF "" +:+ dim "Context:" +:+ " " +:+ contextStr,
       fileMessage +:+ String Str.LF "" +:+ "Context: " +:+ contextStr)
    else (consoleMessage, fileMessage) in
  let '(consoleMessage, fileMessage) :=
    if String.eqb type "error" && truthy (ei_name errorInfo) then
      let errorType := "[" +:+ to_String (ei_name errorInfo) +:+ "]" in
      let consoleMessage :=
        headerBold +:+ " " +:+ colorize "error" errorType +:+ " | " +:+ rawMessage in
      let fileMessage := header +:+ " " +:+ errorType +:+ " | " +:+ rawMessage in
      if truthy (ei_code errorInfo) then
        (consoleMessage +:+ String Str.LF "" +:+ dim "Code:" +:+ " " +:+ to_String (ei_code errorInfo),
         fileMessage +:+ String Str.LF "" +:+ "Code: " +:+ to_String (ei_code errorInfo))
      else (consoleMessage, fileMessage)
    else (consoleMessage, fileMessage) in
  match ei_stack errorInfo with
  | Some stack =>
      if negb (Str.is_empty stack) && (String.eqb type "error" || truthy (trace options)) then
        let stackForConsole := formatStack (Some stack) true in
        let stackForFile := formatStack (Some stack) false in
        if negb (Str.is_empty stackForConsole) then
          (consoleMessage +:+ colorize type stackForConsole, fileMessage +:+ stackForFile)
        else (consoleMessage, fileMessage)
      else (consoleMessage, fileMessage)
  | None => (consoleMessage, fileMessage)
  end.

(** [!config.app.production || !['error', 'warning'].includes(type)] *)
Definition shouldLog (type : string) : bool :=
  negb (production config) || negb (String.eqb type "error" || String.eqb type "warning").

(** [!config.app.production && type === 'error' && !options.noThrow] *)
Definition rethrows (type : string) (options : Options) : bool :=
  negb (production config) && String.eqb type "error" && negb (truthy (noThrow options)).

(** [Logger.record(type, layer, err, options)] *)
Definition record (type layer : string) (err : Value) (options : Options) : Js unit :=
  modify (set_logStats (λ stats, <[type := (default 0 (stats !! type) + 1)%N]> stats));;
  ts ← timestamp;
  let '(consoleMessage, fileMessage) := messages ts type layer err options in
  writeToFile type fileMessage;;
  writeToFile "all" fileMessage;;
  (if shouldLog type then console_log (colorize type consoleMessage) else mret tt);;
  if rethrows type options
  then throw (if instanceof_Error err then err else new_Error err)
  else mret tt.

(** [Logger.info], [debug], [log], [warning], [error], [set], [all]: the
    entry points; an [options] argument that is left out is [no_options]. *)
Definition info (layer : string) (message : Value) (options : Options) : Js unit :=
  record "info" layer message options.

Definition debug (layer : string) (message : Value) (options : Options) : Js unit :=
  record "debug" layer message options.

Definition log (layer : string) (message : Value) (options : Options) : Js unit :=
  record "log" layer message options.

Definition warning (layer : string) (message : Value) (options : Options) : Js unit :=
  record "warning" layer message options.

Definition error (layer : string) (err : Value) (options : Options) : Js unit :=
  record "error" layer err (with_trace options).

Definition set (err : Value) (layer : string) (options : Options) : Js unit :=
  error layer err options.

Definition all (layer : string) (message : Value) (options : Options) : Js unit :=
  record "all" layer message options.

(** [Logger.trace(layer, message)]; [trace] itself names the option. *)
Definition trace_ (layer : string) (message : Value) : Js unit :=
  let err := new_Error message in
  record "debug" layer err
    {| context := VUndefined; trace := VBool true; noThrow := VUndefined |}.

(** [Logger.group(layer, title, callback)] *)
Definition group (layer title : string) (callback : Js unit) : Js unit :=
  info layer (VStr ("──── " +:+ title +:+ " ────")) no_options;;
  try_finally callback
    (info layer (VStr ("──── End " +:+ title +:+ " ────")) no_options).

(** [Logger.table(layer, data)] *)
Definition table (layer : string) (data : Value) : Js unit :=
  match data with
  | VArr (_ :: _) =>
      console_table data;;
      ts ← timestamp;
      match JSON_stringify host data with
      | Normal json =>
          writeToFile "log"
            (ts +:+ " | TABLE | " +:+ Str.toUpperCase layer +:+ String Str.LF "" +:+ json)
      | Throw v => throw v
      end
  | _ => mret tt
  end.

(** [Logger.stats()] *)
Definition stats : Js (gmap string N) := get logStats.

(** [Logger.clearStats()] *)
Definition clearStats : Js unit :=
  modify (set_logStats (fmap (λ _, 0%N))).

End Logger.

(* ===================================================================== *)
(** ** Vocabulary of the statements *)
(* ===================================================================== *)

Section Paths.

Context (host : Host) (config : Config).

(** The directory of the current day, the canonical file of a severity
    and the name a rotation gives it, as [todayDir] and [writeToFile]
    compute them in the world [w]. *)
Definition today_dir (w : World) : string :=
  path_join (LOG_DIR host config) (Str.take 10 (toISOString (now w))).

Definition log_file (w : World) (type : string) : string :=
  path_join (today_dir w) (type +:+ ".log").

Definition rotated_file (w : World) (type : string) : string :=
  path_join (today_dir w) (type +:+ "." +:+ pretty (epochMillis (now w)) +:+ ".log").

End Paths.

(** The text of a regular file; empty when there is none. *)
Definition content_of (node : option Node) : string :=
  match node with
  | Some (File content) => content
  | _ => ""
  end.

(** What the size check of [writeToFile] leaves at the canonical name: a
    file above the maximum is moved away. *)
Definition keep (content : string) : string :=
  if (MAX_LOG_SIZE <? Str.size content)%N then "" else content.

(** The lines printed by [console.log]. *)
Definition stdout_of (events : list ConsoleEvent) : list string :=
  omap (λ e, match e with Stdout text => Some text | _ => None end) events.

(** A line as [appendFileSync] receives it. *)
Definition line_of (message : string) : string := message +:+ String Str.LF "".

(** The effect of [writeToFile] on the file system when no call fails:
    the directory of the day is made if it is missing, a file above the
    maximum is renamed, the line is appended. *)
Definition ensure_dir (d : string) (m : gmap string Node) : gmap string Node :=
  match m !! d with Some _ => m | None => <[d := Dir]> m end.

Definition node_size (node : Node) : N :=
  match node with File content => Str.size content | Dir => 4096%N end.

Definition rotate_full (f r : string) (m : gmap string Node) : gmap string Node :=
  match m !! f with
  | Some node => if (MAX_LOG_SIZE <? node_size node)%N then <[r := node]> (delete f m) else m
  | None => m
  end.

Definition append_text (f data : string) (m : gmap string Node) : gmap string Node :=
  <[f := File (content_of (m !! f) +:+ data)]> m.

Definition written (d f r data : string) (m : gmap string Node) : gmap string Node :=
  append_text f data (rotate_full f r (ensure_dir d m)).

(** A computation that leaves the counters, the clock and the console as
    they are: the file-system calls are such. *)
Definition quiet {A} (m : Js A) : Prop :=
  ∀ w, logStats (m w).2 = logStats w ∧ now (m w).2 = now w ∧ console (m w).2 = console w.

Section AfterRecord.

Context (host : Host) (config : Config).

(** The world that [record] leaves, step by step. *)
Definition after_record (type layer : string) (err : Value) (options : Options)
    (w : World) : World :=
  let w0 := set_logStats (λ stats, <[type := (default 0 (stats !! type) + 1)%N]> stats) w in
  let '(consoleMessage, fileMessage) :=
    messages host (timestamp_of (now w)) type layer err options in
  let w1 := (writeToFile host config type fileMessage w0).2 in
  let w2 := (writeToFile host config "all" fileMessage w1).2 in
  if shouldLog config type
  then set_console (λ c, c ++ [Stdout (colorize type consoleMessage)]) w2
  else w2.

(** The value that [record] throws for the payload [err]. *)
Definition raised (err : Value) : Value :=
  if instanceof_Error err then err else new_Error host err.

End AfterRecord.

(* ===================================================================== *)
(** ** Sequences of calls *)
(* ===================================================================== *)

(** The six entry points that record an entry under their own name. *)
Inductive Severity : Type := SInfo | SDebug | SLog | SWarning | SError | SAll.

#[global] Instance Severity_eq_dec : EqDecision Severity.
Proof. solve_decision. Defined.

Definition severity_name (s : Severity) : string :=
  match s with
  | SInfo => "info"
  | SDebug => "debug"
  | SLog => "log"
  | SWarning => "warning"
  | SError => "error"
  | SAll => "all"
  end.

Record Call : Type := mkCall {
  call_severity : Severity;
  call_layer : string;
  call_payload : Value;
  call_options : Options
}.

Section Calls.

Context (host : Host) (config : Config).

Definition invoke (c : Call) : Js unit :=
  match call_severity c with
  | SInfo => info host config (call_layer c) (call_payload c) (call_options c)
  | SDebug => debug host config (call_layer c) (call_payload c) (call_options c)
  | SLog => log host config (call_layer c) (call_payload c) (call_options c)
  | SWarning => warning host config (call_layer c) (call_payload c) (call_options c)
  | SError => error host config (call_layer c) (call_payload c) (call_options c)
  | SAll => all host config (call_layer c) (call_payload c) (call_options c)
  end.

(** A caller that makes the calls one after the other and goes on when
    one of them throws. *)
Fixpoint run_calls (calls : list Call) : Js unit :=
  match calls with
  | [] => mret tt
  | c :: rest => try_catch (invoke c) (λ _, mret tt);; run_calls rest
  end.

End Calls.

(** The number of calls made through the entry point [s]. *)
Definition count_calls (s : Severity) (calls : list Call) : N :=
  N.of_nat (List.length (List.filter (λ c, bool_decide (call_severity c = s)) calls)).

(* ===================================================================== *)
(** ** A host and a world for the examples *)
(* ===================================================================== *)

(** [JSON.stringify(v, null, 2)], as ECMAScript defines it.  A string is
    quoted with the escapes of QuoteJSONString; the bytes of a character
    outside ASCII pass as they are. *)
Definition DQUOTE : ascii := ascii_of_nat 34.
Definition BACKSLASH : ascii := ascii_of_nat 92.

Definition hex_digit (n : nat) : ascii :=
  match String.get n "0123456789abcdef" with
  | Some c => c
  | None => "0"%char
  end.

Definition JSON_escape (c : ascii) : string :=
  let n := nat_of_ascii c in
  let short (x : string) := String BACKSLASH x in
  if (n =? 8)%nat then short "b"
  else if (n =? 9)%nat then short "t"
  else if (n =? 10)%nat then short "n"
  else if (n =? 12)%nat then short "f"
  else if (n =? 13)%nat then short "r"
  else if (n =? 34)%nat then short (String DQUOTE "")
  else if (n =? 92)%nat then short (String BACKSLASH "")
  else if (n <? 32)%nat then
    String BACKSLASH
      ("u00" +:+ String (hex_digit (n / 16)) (String (hex_digit (n mod 16)) ""))
  else String c "".

Fixpoint JSON_chars (s : string) : string :=
  match s with
  | EmptyString => EmptyString
  | String c r => JSON_escape c +:+ JSON_chars r
  end.

Definition JSON_quote (s : string) : string :=
  String DQUOTE (JSON_chars s +:+ String DQUOTE "").

(** The frames of the caller in the examples. *)
Definition sample_callStack : string := "    at main (/app/src/index.js:3:1)".

(** What [JSON.stringify] throws when it meets a BigInt. *)
Definition BigInt_TypeError : Value :=
  VError "TypeError" "Do not know how to serialize a BigInt"
    (Some ("TypeError: Do not know how to serialize a BigInt" +:+
           String Str.LF "    at JSON.stringify (<anonymous>)" +:+
           String Str.LF sample_callStack))
    VUndefined.

(** SerializeJSONProperty with the gap of two blanks: [None] is the
    result [undefined], which an array renders as null and an object
    leaves out.  Of an error object only [code] is enumerable, when it
    is there: [message] and [stack] are not, and [name] is inherited. *)
Fixpoint JSON_property (indent : string) (v : Value) : Completion (option string) :=
  let inner := indent +:+ "  " in
  let wrap (open close : string) (parts : list string) : string :=
    match parts with
    | [] => open +:+ close
    | _ :: _ =>
        open +:+ String Str.LF inner +:+
        Str.join ("," +:+ String Str.LF inner) parts +:+
        String Str.LF indent +:+ close
    end in
  match v with
  | VUndefined => Normal None
  | VNull => Normal (Some "null")
  | VBool true => Normal (Some "true")
  | VBool false => Normal (Some "false")
  | VNum n => Normal (Some (pretty n))
  | VStr s => Normal (Some (JSON_quote s))
  | VBigInt _ => Throw BigInt_TypeError
  | VArr items =>
      match
        (fix elems (l : list Value) : Completion (list string) :=
           match l with
           | [] => Normal []
           | x :: rest =>
               match JSON_property inner x with
               | Throw e => Throw e
               | Normal text =>
                   match elems rest with
                   | Throw e => Throw e
                   | Normal texts => Normal (default "null" text :: texts)
                   end
               end
           end) items
      with
      | Throw e => Throw e
      | Normal parts => Normal (Some (wrap "[" "]" parts))
      end
  | VObj fields =>
      match
        (fix members (l : list (string * Value)) : Completion (list string) :=
           match l with
           | [] => Normal []
           | (key, x) :: rest =>
               match JSON_property inner x with
               | Throw e => Throw e
               | Normal text =>
                   match members rest with
                   | Throw e => Throw e
                   | Normal texts =>
                       Normal (match text with
                               | Some t => (JSON_quote key +:+ ": " +:+ t) :: texts
                               | None => texts
                               end)
                   end
               end
           end) fields
      with
      | Throw e => Throw e
      | Normal parts => Normal (Some (wrap "{" "}" parts))
      end
  | VError _ _ _ code =>
      match JSON_property inner code with
      | Throw e => Throw e
      | Normal (Some t) => Normal (Some (wrap "{" "}" [JSON_quote "code" +:+ ": " +:+ t]))
      | Normal None => Normal (Some "{}")
      end
  end.

(** The text that a template literal makes of [JSON.stringify(v, null, 2)],
    whose result is [undefined] for [undefined]. *)
Definition node_JSON_stringify (v : Value) : Completion string :=
  match JSON_property "" v with
  | Throw e => Throw e
  | Normal text => Normal (default "undefined" text)
  end.

(** The contexts of the examples are strings; of [util.inspect] they need
    no more than the empty object and the empty array. *)
Definition sample_host : Host :=
  {| cwd := "/app";
     util_inspect := λ v, match v with
                          | VObj [] => Some "{}"
                          | VArr [] => Some "[]"
                          | _ => None
                          end;
     JSON_stringify := node_JSON_stringify;
     callStack := sample_callStack |}.

Definition development : Config := {| production := false; log_dir := "logs" |}.
Definition production_mode : Config := {| production := true; log_dir := "logs" |}.

Definition sample_date : JsDate :=
  {| getFullYear := 2025; getMonth := 0; getDate := 5;
     getHours := 7; getMinutes := 8; getSeconds := 9; getMilliseconds := 42;
     toISOString := "2025-01-05T07:08:09.042Z";
     epochMillis := 1736060889042 |}.

(** Counters at zero, an empty disk, no I/O failure ahead. *)
Definition fresh_world : World :=
  {| fs := ∅; console := []; logStats := initial_logStats;
     now := sample_date; faults := [] |}.

(** A disk on which today's [info.log] holds exactly [MAX_LOG_SIZE]
    bytes. *)
Definition full_world : World :=
  {| fs := {[ "/app/logs/2025-01-05" := Dir;
              "/app/logs/2025-01-05/info.log" := File (Str.fill MAX_LOG_SIZE "x") ]};
     console := []; logStats := initial_logStats;
     now := sample_date; faults := [] |}.

(* ===================================================================== *)
(** ** The shapes of stack lines *)
(* ===================================================================== *)

(** A non-empty text made of characters of one class. *)
Definition run_of (cls : ascii → bool) (s : string) : Prop :=
  s ≠ "" ∧ Str.all cls s = true.

(** [Matches r u caps]: the pattern [r] matches the whole of the text [u]
    and closes the groups [caps], in this order. *)
Inductive Matches : Regex.re → string → list string → Prop :=
| M_Lit p : Matches (Regex.Lit p) p []
| M_PlusG cls u : run_of cls u → Matches (Regex.PlusG cls) u []
| M_PlusL cls u : run_of cls u → Matches (Regex.PlusL cls) u []
| M_Group r u caps : Matches r u caps → Matches (Regex.Group r) u (caps ++ [u])
| M_Seq r1 r2 u1 u2 c1 c2 :
    Matches r1 u1 c1 → Matches r2 u2 c2 →
    Matches (Regex.Seq r1 r2) (u1 +:+ u2) (c1 ++ c2).

(** The text of a frame "at <function> (<file>:<line>:<col>)". *)
Definition named_frame (u function file line column : string) : Prop :=
  ∃ ws1 ws2,
    u = "at" +:+ ws1 +:+ function +:+ ws2 +:+ "(" +:+ file +:+ ":" +:+ line +:+ ":" +:+
        column +:+ ")" ∧
    run_of Str.is_space ws1 ∧ run_of Str.is_dot function ∧ run_of Str.is_space ws2 ∧
    run_of Str.is_dot file ∧ run_of Str.is_digit line ∧ run_of Str.is_digit column.

(** The text of a frame "at <file>:<line>:<col>". *)
Definition bare_frame (u file line column : string) : Prop :=
  ∃ ws1,
    u = "at" +:+ ws1 +:+ file +:+ ":" +:+ line +:+ ":" +:+ column ∧
    run_of Str.is_space ws1 ∧ run_of Str.is_dot file ∧
    run_of Str.is_digit line ∧ run_of Str.is_digit column.

(** A line has a shape when a frame of that shape occurs in it. *)
Definition has_named_shape (line : string) : Prop :=
  ∃ pre u post function file l c,
    line = pre +:+ u +:+ post ∧ named_frame u function file l c.

Definition has_bare_shape (line : string) : Prop :=
  ∃ pre u post file l c,
    line = pre +:+ u +:+ post ∧ bare_frame u file l c.

(** What a line of the stack becomes: an entry of the result, or nothing. *)
Inductive parses_as (line : string) : option StackItem → Prop :=
| as_named pre u post function file l c :
    line = pre +:+ u +:+ post → named_frame u function file l c →
    parses_as line (Some (Frame (Str.trim function) file l c))
| as_bare pre u post file l c :
    ¬ has_named_shape line →
    line = pre +:+ u +:+ post → bare_frame u file l c →
    parses_as line (Some (Frame "anonymous" file l c))
| as_raw :
    ¬ has_named_shape line → ¬ has_bare_shape line → Str.trim line ≠ "" →
    parses_as line (Some (Raw (Str.trim line)))
| as_blank :
    ¬ has_named_shape line → ¬ has_bare_shape line → Str.trim line = "" →
    parses_as line None.

(** One of the two patterns of [parseStack] finds a match in the line. *)
Definition matches_frame (line : string) : bool :=
  match Regex.search named_frame_re line, Regex.search bare_frame_re line with
  | None, None => false
  | _, _ => true
  end.

Definition is_frame (item : StackItem) : bool :=
  match item with Frame _ _ _ _ => true | Raw _ => false end.

Definition is_raw (item : StackItem) : bool :=
  match item with Frame _ _ _ _ => false | Raw _ => true end.

(** A continuation whose success does not depend on the groups closed so
    far: there are no back-references. *)
Definition blind {X} (k : string → list string → option X) : Prop :=
  ∀ s c1 c2, is_Some (k s c1) → is_Some (k s c2).

(** The entry that the filter of [parseStack] lets through. *)
Definition kept (item : StackItem) : option StackItem :=
  if keep_item item then Some item else None.

(* ===================================================================== *)
(** ** Vocabulary of the further properties *)
(* ===================================================================== *)

(** The text holds no escape character: no ANSI styling. *)
Definition plain (s : string) : Prop := Str.mem Str.ESC s = false.

(** The character [c] occurs in no field of the entry. *)
Definition item_free (c : ascii) (item : StackItem) : Prop :=
  match item with
  | Frame function file line column =>
      Str.mem c function = false ∧ Str.mem c file = false ∧
      Str.mem c line = false ∧ Str.mem c column = false
  | Raw raw => Str.mem c raw = false
  end.

(** What every entry of [parseStack] satisfies. *)
Definition well_formed (item : StackItem) : Prop :=
  match item with
  | Frame function file line column =>
      run_of Str.is_dot file ∧ run_of Str.is_digit line ∧ run_of Str.is_digit column ∧
      Str.trim function = function
  | Raw raw => raw ≠ "" ∧ Str.trim raw = raw
  end.

(** The text does not begin with white space. *)
Definition starts_clean (s : string) : Prop :=
  match s with EmptyString => True | String a _ => Str.is_space a = false end.

(** No white space anywhere in the text. *)
Definition no_space (s : string) : Prop :=
  Str.all (λ c, negb (Str.is_space c)) s = true.

(** The text after a greedy run of [cls] cannot extend the run. *)
Definition stops (cls : ascii → bool) (rest : string) : Prop :=
  match rest with
  | EmptyString => True
  | String c _ => cls c = false
  end.

(** The number of times the character [c] occurs in [s]. *)
Fixpoint occurrences (c : ascii) (s : string) : nat :=
  match s with
  | EmptyString => 0
  | String a r => (if Ascii.eqb a c then 1 else 0) + occurrences c r
  end.

(** Digits and the punctuation of a time stamp. *)
Definition is_stamp_char (c : ascii) : bool :=
  Str.is_digit c || Ascii.eqb c "-" || Ascii.eqb c " " || Ascii.eqb c ":" || Ascii.eqb c ".".

(** The calendar fields are in the ranges that [Date] gives them, for a
    year of four digits. *)
Definition in_range (d : JsDate) : Prop :=
  (1000 ≤ getFullYear d ≤ 9999)%N ∧ (getMonth d ≤ 11)%N ∧ (1 ≤ getDate d ≤ 31)%N ∧
  (getHours d ≤ 23)%N ∧ (getMinutes d ≤ 59)%N ∧ (getSeconds d ≤ 59)%N ∧
  (getMilliseconds d ≤ 999)%N.

(** The line that the call [c] writes, with the time stamp that the
    clock of [w] gives. *)
Definition entry_line (host : Host) (w : World) (c : Call) : string :=
  line_of (messages host (timestamp_of (now w)) (severity_name (call_severity c))
             (call_layer c) (call_payload c)
             (match call_severity c with
              | SError => with_trace (call_options c)
              | _ => call_options c
              end)).2.

(** How often the call [c] writes its line to the file of [s]: once to
    the file of its own severity and once to [all.log]. *)
Definition copies (s : Severity) (c : Call) : nat :=
  (if bool_decide (call_severity c = s) then 1 else 0) +
  (if bool_decide (s = SAll) then 1 else 0).

(** The lines that a sequence of calls writes to the file of [s], in the
    order of the calls. *)
Definition lines_for (host : Host) (w : World) (s : Severity) (calls : list Call)
    : list string :=
  flat_map (λ c, replicate (copies s c) (entry_line host w c)) calls.

(** No failure ahead and no directory where a log file goes. *)
Definition writable (host : Host) (config : Config) (w : World) : Prop :=
  faults w = [] ∧
  ∀ s, fs w !! log_file host config w (severity_name s) ≠ Some Dir.

(** Today's [info.log] holds one byte more than [MAX_LOG_SIZE]; the disk
    answers [statSync] and [renameSync] and refuses the call after them. *)
Definition overfull_world : World :=
  {| fs := {[ "/app/logs/2025-01-05" := Dir;
              "/app/logs/2025-01-05/info.log" := File (Str.fill (MAX_LOG_SIZE + 1) "x") ]};
     console := []; logStats := initial_logStats; now := sample_date;
     faults := [None; None; Some "ENOSPC: no space left on device"] |}.

(* ===================================================================== *)
(** ** Facts about strings, the monad and the file system *)
(* ===================================================================== *)

Module StrFacts.

Lemma app_cons (c : ascii) (a b : string) : String c a +:+ b = String c (a +:+ b).
Proof. reflexivity. Qed.

Lemma app_nil_l (s : string) : "" +:+ s = s.
Proof. reflexivity. Qed.

Lemma app_nil_r (s : string) : s +:+ "" = s.
Proof. induction s as [|c s IH]; [done|]. by rewrite app_cons, IH. Qed.

Lemma app_assoc (a b c : string) : (a +:+ b) +:+ c = a +:+ (b +:+ c).
Proof. induction a as [|x a IH]; [done|]. by rewrite !app_cons, IH. Qed.

Lemma length_app (a b : string) :
  String.length (a +:+ b) = String.length a + String.length b.
Proof. induction a as [|x a IH]; [done|]. rewrite app_cons. cbn. by rewrite IH. Qed.

Lemma size_app (a b : string) : Str.size (a +:+ b) = (Str.size a + Str.size b)%N.
Proof. unfold Str.size. rewrite length_app. lia. Qed.

Lemma app_inv_head (a b c : string) : a +:+ b = a +:+ c → b = c.
Proof. induction a as [|x a IH]; [done|]. rewrite !app_cons. intros [= H]. auto. Qed.

Lemma app_inv_tail (a b c : string) : a +:+ c = b +:+ c → a = b.
Proof.
  revert b. induction a as [|x a IH]; intros [|y b] H.
  - done.
  - apply (f_equal String.length) in H. rewrite app_cons, app_nil_l in H.
    cbn in H. rewrite length_app in H. lia.
  - apply (f_equal String.length) in H. rewrite app_cons, app_nil_l in H.
    cbn in H. rewrite length_app in H. lia.
  - rewrite !app_cons in H. injection H as -> H. f_equal. by apply IH.
Qed.

Lemma app_ne_self (a b : string) : b ≠ "" → a +:+ b ≠ a.
Proof.
  intros Hb H. apply (f_equal String.length) in H. rewrite length_app in H.
  destruct b; [done|]. cbn in H. lia.
Qed.

Lemma length_fill (n : N) (c : ascii) : String.length (Str.fill n c) = N.to_nat n.
Proof.
  unfold Str.fill. induction n as [|n IH] using N.peano_ind; [done|].
  rewrite N.iter_succ. cbn. rewrite IH. lia.
Qed.

Lemma size_fill (n : N) (c : ascii) : Str.size (Str.fill n c) = n.
Proof. unfold Str.size. rewrite length_fill. lia. Qed.

End StrFacts.

Lemma path_join_ne (a b : string) : path_join a b ≠ a.
Proof. unfold path_join. by apply StrFacts.app_ne_self. Qed.

Lemma path_join_inj (a b c : string) : path_join a b = path_join a c → b = c.
Proof. unfold path_join. intros H. by apply StrFacts.app_inv_head in H as [= ?]. Qed.

Section PathFacts.
Context (host : Host) (config : Config).

Lemma log_file_ne_dir w type : log_file host config w type ≠ today_dir host config w.
Proof. apply path_join_ne. Qed.

Lemma rotated_file_ne_dir w type : rotated_file host config w type ≠ today_dir host config w.
Proof. apply path_join_ne. Qed.

Lemma rotated_file_ne_log w type : rotated_file host config w type ≠ log_file host config w type.
Proof.
  unfold rotated_file, log_file. intros H%path_join_inj.
  apply StrFacts.app_inv_head in H.
  apply (f_equal String.length) in H. rewrite !StrFacts.length_app in H. cbn in H. lia.
Qed.

End PathFacts.

Lemma bind_run {A B} (m : Js A) (f : A → Js B) (w : World) :
  (m ≫= f) w =
    match m w with
    | (Normal a, w1) => f a w1
    | (Throw v, w1) => (Throw v, w1)
    end.
Proof. reflexivity. Qed.



Lemma set_fs_same (f : gmap string Node → gmap string Node) (w : World) :
  f (fs w) = fs w → set_fs f w = w.
Proof. destruct w as [m ? ? ? ?]. unfold set_fs. simpl. by intros ->. Qed.

Lemma fallible_ok {A} (op : Js A) (w : World) : faults w = [] → fallible op w = op w.
Proof. unfold fallible. by intros ->. Qed.

Lemma fallible_fault {A} (op : Js A) (w : World) msg rest :
  faults w = Some msg :: rest →
  fallible op w = (Throw (io_error msg), set_faults (λ _, rest) w).
Proof. unfold fallible. by intros ->. Qed.

Lemma existsSync_run (p : string) (w : World) :
  existsSync p w = (Normal (match fs w !! p with Some _ => true | None => false end), w).
Proof. reflexivity. Qed.

Lemma mkdirSync_ok (p : string) (w : World) :
  faults w = [] → fs w !! p = None →
  mkdirSync p w = (Normal tt, set_fs (insert p Dir) w).
Proof.
  intros Hf Hp. unfold mkdirSync. rewrite fallible_ok by done.
  rewrite bind_run. unfold get. by rewrite Hp.
Qed.

Lemma statSync_ok (p : string) (w : World) (node : Node) :
  faults w = [] → fs w !! p = Some node →
  statSync_size p w = (Normal (node_size node), w).
Proof.
  intros Hf Hp. unfold statSync_size. rewrite fallible_ok by done.
  rewrite bind_run. unfold get. rewrite Hp. by destruct node.
Qed.

Lemma renameSync_ok (from to : string) (w : World) (node : Node) :
  faults w = [] → fs w !! from = Some node →
  renameSync from to w = (Normal tt, set_fs (λ m, <[to := node]> (delete from m)) w).
Proof.
  intros Hf Hp. unfold renameSync. rewrite fallible_ok by done.
  rewrite bind_run. unfold get. by rewrite Hp.
Qed.

Lemma appendFileSync_ok (p data : string) (w : World) :
  faults w = [] → fs w !! p ≠ Some Dir →
  appendFileSync p data w = (Normal tt, set_fs (append_text p data) w).
Proof.
  intros Hf Hp. unfold appendFileSync. rewrite fallible_ok by done.
  rewrite bind_run. unfold get, append_text.
  destruct (fs w !! p) as [[content|]|] eqn:E; try done.
  - unfold modify, set_fs. by rewrite E.
  - unfold modify, set_fs. by rewrite E.
Qed.

Section WriteFacts.
Context (host : Host) (config : Config).

Lemma log_file_inj w t1 t2 :
  log_file host config w t1 = log_file host config w t2 → t1 = t2.
Proof.
  unfold log_file. intros H%path_join_inj. by apply StrFacts.app_inv_tail in H.
Qed.

Lemma todayDir_ok w :
  faults w = [] →
  todayDir host config w =
    (Normal (today_dir host config w), set_fs (ensure_dir (today_dir host config w)) w).
Proof.
  intros Hf. unfold todayDir. rewrite bind_run. unfold get.
  change (path_join (LOG_DIR host config) (Str.take 10 (toISOString (now w))))
    with (today_dir host config w).
  set (dir := today_dir host config w).
  rewrite bind_run, existsSync_run. unfold ensure_dir.
  destruct (fs w !! dir) eqn:E.
  - rewrite bind_run. unfold mret, Js_ret. rewrite set_fs_same; [done|]. by rewrite E.
  - rewrite bind_run, mkdirSync_ok by done. unfold mret, Js_ret, set_fs. by rewrite E.
Qed.

Lemma writeToFile_ok type msg w :
  faults w = [] →
  fs w !! log_file host config w type ≠ Some Dir →
  writeToFile host config type msg w =
    (Normal tt,
     set_fs (written (today_dir host config w) (log_file host config w type)
               (rotated_file host config w type) (line_of msg)) w).
Proof.
  intros Hf Hnd.
  pose proof (log_file_ne_dir host config w type) as Hfd.
  pose proof (rotated_file_ne_dir host config w type) as Hrd.
  pose proof (rotated_file_ne_log host config w type) as Hrf.
  unfold writeToFile, try_catch, writeToFile_body.
  rewrite bind_run, todayDir_ok by done. cbv beta iota.
  change (path_join (today_dir host config w) (type +:+ ".log"))
    with (log_file host config w type).
  set (dir := today_dir host config w) in *.
  set (file := log_file host config w type) in *.
  set (rot := rotated_file host config w type) in *.
  set (w1 := set_fs (ensure_dir dir) w).
  assert (Hf1 : faults w1 = []) by done.
  assert (Hl1 : fs w1 !! file = fs w !! file).
  { unfold w1, ensure_dir. simpl. destruct (fs w !! dir) eqn:E; [done|].
    by rewrite lookup_insert_ne. }
  assert (Hd1 : is_Some (fs w1 !! dir)).
  { unfold w1, ensure_dir. simpl. destruct (fs w !! dir) eqn:E; [by rewrite E|].
    rewrite lookup_insert_eq. eauto. }
  assert (He1 : ensure_dir dir (fs w1) = fs w1).
  { unfold ensure_dir. by destruct Hd1 as [? ->]. }
  rewrite bind_run, existsSync_run. cbv beta iota. rewrite Hl1.
  destruct (fs w !! file) as [node|] eqn:Efile.
  - rewrite bind_run, bind_run, (statSync_ok _ _ node) by (done || by rewrite Hl1).
    cbv beta iota.
    destruct (MAX_LOG_SIZE <? node_size node)%N eqn:Esize.
    + rewrite bind_run. unfold get at 1. cbv beta iota.
      rewrite bind_run, todayDir_ok by done. cbv beta iota.
      change (today_dir host config w1) with dir.
      change (path_join dir (type +:+ "." +:+ pretty (epochMillis (now w1)) +:+ ".log"))
        with rot.
      rewrite (set_fs_same _ w1) by done.
      rewrite (renameSync_ok _ _ _ node) by done.
      rewrite appendFileSync_ok; [|done|simpl; by rewrite lookup_insert_ne, lookup_delete_eq].
      unfold set_fs, written, rotate_full. simpl. unfold w1 in Hl1; simpl in Hl1. by rewrite Hl1, Esize.
    + unfold mret at 1, Js_ret at 1.
      rewrite appendFileSync_ok; [|done|by rewrite Hl1].
      unfold set_fs, written, rotate_full. simpl. unfold w1 in Hl1; simpl in Hl1. by rewrite Hl1, Esize.
  - rewrite bind_run. unfold mret at 1, Js_ret at 1.
    rewrite appendFileSync_ok; [|done|by rewrite Hl1].
    unfold set_fs, written, rotate_full. simpl. unfold w1 in Hl1; simpl in Hl1. by rewrite Hl1.
Qed.
End WriteFacts.

(** *** What a file-system computation leaves alone *)

Lemma quiet_ret {A} (a : A) : quiet (mret a).
Proof. by intros w. Qed.

Lemma quiet_throw {A} (v : Value) : quiet (@throw A v).
Proof. by intros w. Qed.

Lemma quiet_get {A} (proj : World → A) : quiet (get proj).
Proof. by intros w. Qed.

Lemma quiet_set_fs f : quiet (modify (set_fs f)).
Proof. by intros w. Qed.

Lemma quiet_bind {A B} (m : Js A) (f : A → Js B) :
  quiet m → (∀ a, quiet (f a)) → quiet (m ≫= f).
Proof.
  intros Hm Hf w. rewrite bind_run. specialize (Hm w).
  destruct (m w) as [[a|v] w1]; simpl in *.
  - destruct (Hf a w1) as (-> & -> & ->). tauto.
  - tauto.
Qed.

Lemma quiet_fallible {A} (op : Js A) : quiet op → quiet (fallible op).
Proof.
  intros Hop w. unfold fallible.
  destruct (faults w) as [|[msg|] rest]; [apply Hop|done|].
  destruct (Hop (set_faults (λ _, rest) w)) as (-> & -> & ->). done.
Qed.

Lemma quiet_if {A} (b : bool) (m1 m2 : Js A) :
  quiet m1 → quiet m2 → quiet (if b then m1 else m2).
Proof. by destruct b. Qed.

Ltac quiet_tac :=
  repeat first
    [ apply quiet_bind; [|intros ?]
    | apply quiet_fallible
    | apply quiet_if
    | apply quiet_ret | apply quiet_throw | apply quiet_get | apply quiet_set_fs
    | match goal with |- quiet (match ?x with _ => _ end) => destruct x end ].

Lemma quiet_existsSync p : quiet (existsSync p).
Proof. apply quiet_get. Qed.

Lemma quiet_mkdirSync p : quiet (mkdirSync p).
Proof. unfold mkdirSync. quiet_tac. Qed.

Lemma quiet_statSync p : quiet (statSync_size p).
Proof. unfold statSync_size. quiet_tac. Qed.

Lemma quiet_renameSync a b : quiet (renameSync a b).
Proof. unfold renameSync. quiet_tac. Qed.

Lemma quiet_appendFileSync p data : quiet (appendFileSync p data).
Proof. unfold appendFileSync. quiet_tac. Qed.

Section RecordFacts.
Context (host : Host) (config : Config).

Lemma quiet_todayDir : quiet (todayDir host config).
Proof.
  unfold todayDir. quiet_tac.
Qed.

Lemma quiet_writeToFile_body type msg : quiet (writeToFile_body host config type msg).
Proof.
  unfold writeToFile_body.
  apply quiet_bind; [apply quiet_todayDir|intros today].
  apply quiet_bind; [apply quiet_existsSync|intros e].
  apply quiet_bind; [|intros _; apply quiet_appendFileSync].
  apply quiet_if; [|apply quiet_ret].
  apply quiet_bind; [apply quiet_statSync|intros size].
  apply quiet_if; [|apply quiet_ret].
  apply quiet_bind; [apply quiet_get|intros ts].
  apply quiet_bind; [apply quiet_todayDir|intros today'].
  apply quiet_renameSync.
Qed.

(** [writeToFile] returns normally in every world; it touches neither
    the counters nor the clock, and prints nothing on standard output. *)
Lemma writeToFile_any type msg w :
  ∃ w', writeToFile host config type msg w = (Normal tt, w') ∧
        logStats w' = logStats w ∧ now w' = now w ∧
        stdout_of (console w') = stdout_of (console w).
Proof.
  unfold writeToFile, try_catch.
  destruct (quiet_writeToFile_body type msg w) as (Hs & Hn & Hc).
  destruct (writeToFile_body host config type msg w) as [[[]|v] w1]; simpl in *.
  - exists w1. by rewrite Hc.
  - eexists. split; [reflexivity|]. simpl. rewrite Hc.
    unfold stdout_of. rewrite omap_app. simpl. by rewrite app_nil_r.
Qed.


Lemma record_run type layer err options w :
  record host config type layer err options w =
    (if rethrows config type options
     then Throw (raised host err)
     else Normal tt,
     after_record host config type layer err options w).
Proof.
  unfold record, after_record, raised.
  rewrite bind_run. unfold modify at 1. cbv beta iota.
  set (w0 := set_logStats _ w).
  rewrite bind_run. unfold timestamp. rewrite bind_run. unfold get at 1. cbv beta iota.
  unfold mret at 1, Js_ret at 1. cbv beta iota.
  change (now w0) with (now w).
  destruct (messages host (timestamp_of (now w)) type layer err options) as [cm fm].
  rewrite bind_run.
  destruct (writeToFile_any type fm w0) as (w1 & E1 & _). rewrite E1. cbv beta iota. simpl.
  rewrite bind_run.
  destruct (writeToFile_any "all" fm w1) as (w2 & E2 & _). rewrite E2. cbv beta iota. simpl.
  rewrite bind_run.
  destruct (shouldLog config type); destruct (rethrows config type options); reflexivity.
Qed.

Lemma logStats_after_record type layer err options w :
  logStats (after_record host config type layer err options w) =
    <[type := (default 0 (logStats w !! type) + 1)%N]> (logStats w).
Proof.
  unfold after_record.
  destruct (messages host (timestamp_of (now w)) type layer err options) as [cm fm].
  set (w0 := set_logStats _ w).
  destruct (writeToFile_any type fm w0) as (w1 & E1 & S1 & _). rewrite E1. simpl.
  destruct (writeToFile_any "all" fm w1) as (w2 & E2 & S2 & _). rewrite E2. simpl.
  assert (logStats w2 = logStats w0) as Hs by congruence.
  destruct (shouldLog config type); simpl; by rewrite Hs.
Qed.

Lemma severity_name_inj s1 s2 : severity_name s1 = severity_name s2 → s1 = s2.
Proof. by destruct s1, s2. Qed.

Lemma invoke_run c w :
  ∃ completion,
    invoke host config c w =
      (completion,
       after_record host config (severity_name (call_severity c)) (call_layer c)
         (call_payload c)
         (match call_severity c with
          | SError => with_trace (call_options c)
          | _ => call_options c
          end) w).
Proof.
  unfold invoke, info, debug, log, warning, error, all.
  destruct (call_severity c); rewrite record_run; eauto.
Qed.

Lemma logStats_invoke c w s x :
  logStats w !! severity_name s = Some x →
  logStats (try_catch (invoke host config c) (λ _, mret tt) w).2 !! severity_name s =
    Some (x + (if bool_decide (call_severity c = s) then 1 else 0))%N.
Proof.
  intros Hx. unfold try_catch. destruct (invoke_run c w) as (completion & ->).
  assert (∀ w', logStats (match completion with
                          | Normal a => (Normal a, w')
                          | Throw _ => (mret tt : Js unit) w'
                          end).2 = logStats w') as ->.
  { intros w'. by destruct completion. }
  rewrite logStats_after_record.
  case_bool_decide as Hs.
  - subst s. by rewrite lookup_insert_eq, Hx.
  - rewrite lookup_insert_ne; [by rewrite Hx, N.add_0_r|]. intros H%severity_name_inj. done.
Qed.

Lemma run_calls_normal calls w : (run_calls host config calls w).1 = Normal tt.
Proof.
  revert w. induction calls as [|c calls IH]; intros w; [done|].
  simpl. rewrite bind_run. unfold try_catch.
  destruct (invoke_run c w) as (completion & ->).
  destruct completion; simpl; apply IH.
Qed.

Lemma logStats_run_calls calls w s x :
  logStats w !! severity_name s = Some x →
  logStats (run_calls host config calls w).2 !! severity_name s =
    Some (x + count_calls s calls)%N.
Proof.
  revert w x. induction calls as [|c calls IH]; intros w x Hx.
  - unfold count_calls. simpl. by rewrite N.add_0_r.
  - simpl. rewrite bind_run.
    pose proof (logStats_invoke c w s x Hx) as Hc.
    destruct (try_catch (invoke host config c) (λ _, mret tt) w) as [completion w1] eqn:E.
    assert (completion = Normal tt) as ->.
    { unfold try_catch in E. destruct (invoke_run c w) as (k & Hk). rewrite Hk in E.
      destruct k as [[]|]; by inversion E. }
    simpl in Hc. rewrite (IH _ _ Hc). f_equal.
    unfold count_calls. simpl. case_bool_decide; simpl; lia.
Qed.

End RecordFacts.

(** *** The file system after a write *)

Lemma keep_cases (content : string) :
  ((MAX_LOG_SIZE < Str.size content)%N ∧ keep content = "") ∨
  ((Str.size content ≤ MAX_LOG_SIZE)%N ∧ keep content = content).
Proof.
  unfold keep. destruct (N.ltb_spec MAX_LOG_SIZE (Str.size content)); [left|right]; done.
Qed.

Lemma keep_size (content : string) : (Str.size (keep content) ≤ MAX_LOG_SIZE)%N.
Proof.
  destruct (keep_cases content) as [[_ ->]|[? ->]]; [|done].
  unfold Str.size, MAX_LOG_SIZE. simpl. lia.
Qed.

Section WrittenFs.

Context (d f r : string) (m : gmap string Node) (data : string).
Hypothesis (Hfd : f ≠ d) (Hrd : r ≠ d) (Hrf : r ≠ f).
Hypothesis (Hnd : m !! f ≠ Some Dir).

Lemma ensure_dir_lookup_ne p : p ≠ d → ensure_dir d m !! p = m !! p.
Proof.
  intros Hp. unfold ensure_dir. destruct (m !! d); [done|]. by rewrite lookup_insert_ne.
Qed.

Lemma rotated_lookup_canonical :
  rotate_full f r (ensure_dir d m) !! f =
    if (MAX_LOG_SIZE <? Str.size (content_of (m !! f)))%N then None else m !! f.
Proof.
  unfold rotate_full. rewrite ensure_dir_lookup_ne by done.
  destruct (m !! f) as [[content|]|] eqn:E; simpl; try done.
  - destruct (MAX_LOG_SIZE <? Str.size content)%N.
    + by rewrite lookup_insert_ne, lookup_delete_eq.
    + by rewrite ensure_dir_lookup_ne.
  - by rewrite ensure_dir_lookup_ne.
Qed.

Lemma written_canonical :
  written d f r data m !! f = Some (File (keep (content_of (m !! f)) +:+ data)).
Proof.
  unfold written, append_text. rewrite lookup_insert_eq, rotated_lookup_canonical.
  unfold keep. destruct (m !! f) as [[content|]|] eqn:E; simpl; try done.
  by destruct (MAX_LOG_SIZE <? Str.size content)%N.
Qed.

Lemma written_rotated :
  (MAX_LOG_SIZE < Str.size (content_of (m !! f)))%N →
  written d f r data m !! r = Some (File (content_of (m !! f))).
Proof.
  intros Hbig. unfold written, append_text. rewrite lookup_insert_ne by done.
  unfold rotate_full. rewrite ensure_dir_lookup_ne by done.
  destruct (m !! f) as [[content|]|] eqn:E; simpl in *; try done.
  apply N.ltb_lt in Hbig. rewrite Hbig. by rewrite lookup_insert_eq.
Qed.

Lemma written_not_rotated :
  (Str.size (content_of (m !! f)) ≤ MAX_LOG_SIZE)%N →
  written d f r data m !! r = m !! r.
Proof.
  intros Hsmall. unfold written, append_text. rewrite lookup_insert_ne by done.
  unfold rotate_full. rewrite ensure_dir_lookup_ne by done.
  destruct (m !! f) as [[content|]|] eqn:E; simpl in *;
    try (by rewrite ensure_dir_lookup_ne).
  apply N.ltb_ge in Hsmall. rewrite Hsmall. by rewrite ensure_dir_lookup_ne.
Qed.

Lemma written_elsewhere p :
  p ≠ f → p ≠ r → p ≠ d → written d f r data m !! p = m !! p.
Proof.
  intros Hpf Hpr Hpd. unfold written, append_text. rewrite lookup_insert_ne by done.
  unfold rotate_full. rewrite ensure_dir_lookup_ne by done.
  destruct (m !! f) as [node|] eqn:E; [|by rewrite ensure_dir_lookup_ne].
  destruct (MAX_LOG_SIZE <? node_size node)%N; [|by rewrite ensure_dir_lookup_ne].
  rewrite lookup_insert_ne, lookup_delete_ne by done. by rewrite ensure_dir_lookup_ne.
Qed.

End WrittenFs.

Ltac path_ne :=
  first [ apply log_file_ne_dir | apply rotated_file_ne_dir
        | apply rotated_file_ne_log | done ].

Section WriteLookups.

Context (host : Host) (config : Config).

(** The canonical file after a write that met no failure. *)
Lemma writeToFile_canonical type msg w :
  faults w = [] →
  fs w !! log_file host config w type ≠ Some Dir →
  fs (writeToFile host config type msg w).2 !! log_file host config w type =
    Some (File (keep (content_of (fs w !! log_file host config w type)) +:+ line_of msg)).
Proof.
  intros Hf Hnd. rewrite writeToFile_ok by done. simpl.
  apply written_canonical; path_ne.
Qed.

Lemma writeToFile_rotated type msg w :
  faults w = [] →
  fs w !! log_file host config w type ≠ Some Dir →
  (MAX_LOG_SIZE < Str.size (content_of (fs w !! log_file host config w type)))%N →
  fs (writeToFile host config type msg w).2 !! rotated_file host config w type =
    Some (File (content_of (fs w !! log_file host config w type))).
Proof.
  intros Hf Hnd Hbig. rewrite writeToFile_ok by done. simpl.
  apply written_rotated; path_ne.
Qed.

Lemma writeToFile_not_rotated type msg w :
  faults w = [] →
  fs w !! log_file host config w type ≠ Some Dir →
  (Str.size (content_of (fs w !! log_file host config w type)) ≤ MAX_LOG_SIZE)%N →
  fs (writeToFile host config type msg w).2 !! rotated_file host config w type =
    fs w !! rotated_file host config w type.
Proof.
  intros Hf Hnd Hsmall. rewrite writeToFile_ok by done. simpl.
  apply written_not_rotated; path_ne.
Qed.

Lemma writeToFile_elsewhere type msg w p :
  faults w = [] →
  fs w !! log_file host config w type ≠ Some Dir →
  p ≠ log_file host config w type →
  p ≠ rotated_file host config w type →
  p ≠ today_dir host config w →
  fs (writeToFile host config type msg w).2 !! p = fs w !! p.
Proof.
  intros Hf Hnd H1 H2 H3. rewrite writeToFile_ok by done. simpl.
  apply written_elsewhere; path_ne.
Qed.

End WriteLookups.

(** *** The files of the named severities are distinct *)

Lemma mem_app (c : ascii) (a b : string) : Str.mem c (a +:+ b) = Str.mem c a || Str.mem c b.
Proof.
  induction a as [|x a IH]; [done|]. rewrite StrFacts.app_cons. simpl.
  rewrite IH. by rewrite orb_assoc.
Qed.

Section SeverityPaths.

Context (host : Host) (config : Config) (w : World).

Lemma rotated_name_has_dot type :
  Str.mem "." (type +:+ "." +:+ pretty (epochMillis (now w))) = true.
Proof. rewrite mem_app, StrFacts.app_cons. simpl. by rewrite orb_true_r. Qed.

(** A name without a dot is never the name of a rotated file. *)
Lemma log_file_ne_rotated other type :
  Str.mem "." other = false →
  log_file host config w other ≠ rotated_file host config w type.
Proof.
  intros Hdot. unfold log_file, rotated_file. intros H%path_join_inj.
  change (type +:+ "." +:+ pretty (epochMillis (now w)) +:+ ".log")
    with (type +:+ ("." +:+ (pretty (epochMillis (now w)) +:+ ".log"))) in H.
  rewrite <- (StrFacts.app_assoc "." _ ".log") in H.
  rewrite <- (StrFacts.app_assoc type _ ".log") in H.
  apply StrFacts.app_inv_tail in H. subst other.
  by rewrite rotated_name_has_dot in Hdot.
Qed.

Lemma severity_name_no_dot s : Str.mem "." (severity_name s) = false.
Proof. by destruct s. Qed.


End SeverityPaths.

(** *** The files after [record] *)

Section RecordFiles.

Context (host : Host) (config : Config).

Lemma fs_after_record type layer err options w :
  fs (after_record host config type layer err options w) =
    let w0 := set_logStats (λ stats, <[type := (default 0 (stats !! type) + 1)%N]> stats) w in
    let fileMessage := (messages host (timestamp_of (now w)) type layer err options).2 in
    fs (writeToFile host config "all" fileMessage
          (writeToFile host config type fileMessage w0).2).2.
Proof.
  unfold after_record.
  destruct (messages host (timestamp_of (now w)) type layer err options) as [cm fm].
  by destruct (shouldLog config type).
Qed.

Lemma stdout_after_record type layer err options w :
  stdout_of (console (after_record host config type layer err options w)) =
    stdout_of (console w) ++
    (if shouldLog config type
     then [colorize type (messages host (timestamp_of (now w)) type layer err options).1]
     else []).
Proof.
  unfold after_record.
  destruct (messages host (timestamp_of (now w)) type layer err options) as [cm fm].
  set (w0 := set_logStats _ w).
  destruct (writeToFile_any host config type fm w0) as (w1 & E1 & _ & _ & C1).
  rewrite E1. cbn [snd].
  destruct (writeToFile_any host config "all" fm w1) as (w2 & E2 & _ & _ & C2).
  rewrite E2. cbn [snd].
  destruct (shouldLog config type); simpl.
  - unfold stdout_of in *. rewrite omap_app. simpl. by rewrite C2, C1.
  - rewrite app_nil_r. by rewrite C2, C1.
Qed.

(** Two writes to two different files: each gets the line once. *)
Lemma record_files type layer err options w :
  faults w = [] →
  Str.mem "." type = false →
  type ≠ "all" →
  fs w !! log_file host config w type ≠ Some Dir →
  fs w !! log_file host config w "all" ≠ Some Dir →
  let fileMessage := (messages host (timestamp_of (now w)) type layer err options).2 in
  let w' := after_record host config type layer err options w in
  fs w' !! log_file host config w type =
    Some (File (keep (content_of (fs w !! log_file host config w type)) +:+ line_of fileMessage)) ∧
  fs w' !! log_file host config w "all" =
    Some (File (keep (content_of (fs w !! log_file host config w "all")) +:+ line_of fileMessage)).
Proof.
  intros Hf Hdot Hne Hd1 Hd2 fm w'. unfold w'. rewrite fs_after_record. cbv zeta. fold fm.
  set (w0 := set_logStats _ w).
  assert (Hall_ne : log_file host config w "all" ≠ log_file host config w type).
  { intros H%log_file_inj. done. }
  assert (Hw1 : fs (writeToFile host config type fm w0).2 !! log_file host config w "all"
                = fs w !! log_file host config w "all").
  { apply (writeToFile_elsewhere host config type fm w0); try done.
    - by apply (log_file_ne_rotated host config w0).
    - apply (log_file_ne_dir host config w0). }
  pose proof (writeToFile_ok host config type fm w0 Hf Hd1) as E1.
  set (w1 := (writeToFile host config type fm w0).2) in *.
  assert (Hf1 : faults w1 = []) by (unfold w1; by rewrite E1).
  assert (Hn1 : now w1 = now w) by (unfold w1; by rewrite E1).
  assert (Hp : ∀ t, log_file host config w1 t = log_file host config w t).
  { intros t. unfold log_file, today_dir. by rewrite Hn1. }
  assert (Hr : ∀ t, rotated_file host config w1 t = rotated_file host config w t).
  { intros t. unfold rotated_file, today_dir. by rewrite Hn1. }
  assert (Hd : today_dir host config w1 = today_dir host config w).
  { unfold today_dir. by rewrite Hn1. }
  assert (Hd2' : fs w1 !! log_file host config w1 "all" ≠ Some Dir).
  { rewrite Hp, Hw1. done. }
  split.
  - rewrite (writeToFile_elsewhere host config "all" fm w1); try done.
    + apply (writeToFile_canonical host config type fm w0 Hf Hd1).
    + rewrite Hp. by intros H%log_file_inj.
    + rewrite Hr. by apply log_file_ne_rotated.
    + rewrite Hd. apply log_file_ne_dir.
  - rewrite <- (Hp "all"), (writeToFile_canonical host config "all" fm w1 Hf1 Hd2').
    by rewrite Hp, Hw1.
Qed.

Lemma record_console_ok type layer err options w :
  faults w = [] →
  Str.mem "." type = false →
  type ≠ "all" →
  fs w !! log_file host config w type ≠ Some Dir →
  fs w !! log_file host config w "all" ≠ Some Dir →
  console (after_record host config type layer err options w) =
    console w ++
    (if shouldLog config type
     then [Stdout (colorize type (messages host (timestamp_of (now w)) type layer err options).1)]
     else []).
Proof.
  intros Hf Hdot Hne Hd1 Hd2. unfold after_record.
  destruct (messages host (timestamp_of (now w)) type layer err options) as [cm fm].
  set (w0 := set_logStats _ w).
  assert (Hw1 : fs (writeToFile host config type fm w0).2 !! log_file host config w "all"
                = fs w !! log_file host config w "all").
  { assert (Hall_ne : log_file host config w "all" ≠ log_file host config w type).
    { intros H%log_file_inj. done. }
    apply (writeToFile_elsewhere host config type fm w0); try done.
    - by apply (log_file_ne_rotated host config w0).
    - apply (log_file_ne_dir host config w0). }
  pose proof (writeToFile_ok host config type fm w0 Hf Hd1) as E1.
  set (w1 := (writeToFile host config type fm w0).2) in *.
  assert (Hf1 : faults w1 = []) by (unfold w1; by rewrite E1).
  assert (Hn1 : now w1 = now w) by (unfold w1; by rewrite E1).
  assert (Hc1 : console w1 = console w) by (unfold w1; by rewrite E1).
  assert (Hd2' : fs w1 !! log_file host config w1 "all" ≠ Some Dir).
  { unfold log_file, today_dir. rewrite Hn1. fold (today_dir host config w).
    fold (log_file host config w "all"). by rewrite Hw1. }
  rewrite (writeToFile_ok host config "all" fm w1 Hf1 Hd2'). cbn [snd].
  destruct (shouldLog config type); simpl; rewrite Hc1; [done|by rewrite app_nil_r].
Qed.

(** Two writes to the same file: each appends to what the size check
    left. *)
Lemma record_all_file layer err options w :
  faults w = [] →
  fs w !! log_file host config w "all" ≠ Some Dir →
  let fileMessage := (messages host (timestamp_of (now w)) "all" layer err options).2 in
  let w' := after_record host config "all" layer err options w in
  fs w' !! log_file host config w "all" =
    Some (File (keep (keep (content_of (fs w !! log_file host config w "all"))
                        +:+ line_of fileMessage) +:+ line_of fileMessage)).
Proof.
  intros Hf Hd fm w'. unfold w'. rewrite fs_after_record. cbv zeta. fold fm.
  set (w0 := set_logStats _ w).
  pose proof (writeToFile_ok host config "all" fm w0 Hf Hd) as E1.
  pose proof (writeToFile_canonical host config "all" fm w0 Hf Hd) as C1.
  set (w1 := (writeToFile host config "all" fm w0).2) in *.
  assert (Hf1 : faults w1 = []) by (unfold w1; by rewrite E1).
  assert (Hn1 : now w1 = now w) by (unfold w1; by rewrite E1).
  assert (Hp : log_file host config w1 "all" = log_file host config w "all").
  { unfold log_file, today_dir. by rewrite Hn1. }
  assert (Hd' : fs w1 !! log_file host config w1 "all" ≠ Some Dir).
  { rewrite Hp. change (log_file host config w "all") with (log_file host config w0 "all").
    by rewrite C1. }
  rewrite <- Hp, (writeToFile_canonical host config "all" fm w1 Hf1 Hd'), Hp.
  change (log_file host config w "all") with (log_file host config w0 "all").
  by rewrite C1.
Qed.

End RecordFiles.

(** *** Options and entry points *)

Section EntryPoints.

Context (host : Host) (config : Config).

Lemma messages_options ts type layer err o1 o2 :
  context o1 = context o2 → trace o1 = trace o2 →
  messages host ts type layer err o1 = messages host ts type layer err o2.
Proof. intros Hc Ht. unfold messages. by rewrite Hc, Ht. Qed.

Lemma after_record_options type layer err o1 o2 w :
  context o1 = context o2 → trace o1 = trace o2 →
  after_record host config type layer err o1 w =
  after_record host config type layer err o2 w.
Proof.
  intros Hc Ht. unfold after_record.
  by rewrite (messages_options _ type layer err o1 o2 Hc Ht).
Qed.

Lemma rethrows_not_error type options :
  type ≠ "error" → rethrows config type options = false.
Proof.
  intros Hne. unfold rethrows. apply String.eqb_neq in Hne. rewrite Hne.
  by rewrite andb_false_r.
Qed.

Lemma info_run layer message options w :
  info host config layer message options w =
    (Normal tt, after_record host config "info" layer message options w).
Proof. unfold info. by rewrite record_run, rethrows_not_error. Qed.

Lemma error_run layer err options w :
  error host config layer err options w =
    (if negb (production config) && negb (truthy (noThrow options))
     then Throw (raised host err) else Normal tt,
     after_record host config "error" layer err (with_trace options) w).
Proof.
  unfold error. rewrite record_run. unfold rethrows, with_trace. simpl.
  by rewrite andb_true_r.
Qed.

(** The first file-system call that [writeToFile] makes is one that can
    fail; when the oracle fails it, the body throws and nothing has been
    written. *)
Lemma writeToFile_body_first_fault type msg w fault rest :
  faults w = Some fault :: rest →
  writeToFile_body host config type msg w =
    (Throw (io_error fault), set_faults (λ _, rest) w).
Proof.
  intros Hf. unfold writeToFile_body, todayDir.
  rewrite bind_run, bind_run. unfold get at 1. cbv beta iota.
  rewrite bind_run, existsSync_run. cbv beta iota.
  change (path_join (LOG_DIR host config) (Str.take 10 (toISOString (now w))))
    with (today_dir host config w).
  destruct (fs w !! today_dir host config w) eqn:Edir.
  - rewrite bind_run. unfold mret at 1, Js_ret at 1. cbv beta iota.
    unfold mret at 1, Js_ret at 1. cbv beta iota.
    rewrite bind_run, existsSync_run. cbv beta iota.
    destruct (fs w !! path_join (today_dir host config w) (type +:+ ".log")) eqn:Efile.
    + rewrite bind_run, bind_run. unfold statSync_size.
      by rewrite (fallible_fault _ _ _ _ Hf).
    + rewrite bind_run. unfold mret at 1, Js_ret at 1. cbv beta iota.
      unfold appendFileSync. by rewrite (fallible_fault _ _ _ _ Hf).
  - rewrite bind_run. unfold mkdirSync. by rewrite (fallible_fault _ _ _ _ Hf).
Qed.

Lemma writeToFile_reports type msg w v w1 :
  writeToFile_body host config type msg w = (Throw v, w1) →
  writeToFile host config type msg w =
    (Normal tt,
     set_console (λ c, c ++ [Stderr ("Failed to write log: " +:+ message_of v)]) w1).
Proof. intros H. unfold writeToFile, try_catch. by rewrite H. Qed.

End EntryPoints.

Section MoreFacts.

Context (host : Host) (config : Config).


Lemma keep_small (content : string) :
  (Str.size content ≤ MAX_LOG_SIZE)%N → keep content = content.
Proof. intros H. destruct (keep_cases content) as [[? _]|[_ ->]]; [lia|done]. Qed.

(** The rename is the call that fails: the file has been inspected, it
    is above the maximum, and stays where it is. *)
Lemma writeToFile_body_rename_fault type msg w node fault rest :
  faults w = None :: Some fault :: rest →
  is_Some (fs w !! today_dir host config w) →
  fs w !! log_file host config w type = Some node →
  (MAX_LOG_SIZE < node_size node)%N →
  writeToFile_body host config type msg w =
    (Throw (io_error fault), set_faults (λ _, rest) w).
Proof.
  intros Hf [dnode Hdir] Hfile Hbig. unfold writeToFile_body, todayDir.
  rewrite bind_run, bind_run. unfold get at 1. cbv beta iota.
  rewrite bind_run, existsSync_run. cbv beta iota.
  change (path_join (LOG_DIR host config) (Str.take 10 (toISOString (now w))))
    with (today_dir host config w).
  rewrite Hdir.
  rewrite bind_run. unfold mret at 1, Js_ret at 1. cbv beta iota.
  unfold mret at 1, Js_ret at 1. cbv beta iota.
  rewrite bind_run, existsSync_run. cbv beta iota.
  change (path_join (today_dir host config w) (type +:+ ".log"))
    with (log_file host config w type).
  rewrite Hfile.
  rewrite bind_run, bind_run. unfold statSync_size at 1, fallible at 1. rewrite Hf.
  rewrite bind_run. unfold get at 1. cbv beta iota. cbn [fs set_faults]. rewrite Hfile.
  assert ((match node with
           | File content => mret (Str.size content)
           | Dir => mret 4096%N
           end : Js N) = mret (node_size node)) as -> by (by destruct node).
  unfold mret at 1, Js_ret at 1. cbv beta iota.
  apply N.ltb_lt in Hbig. rewrite Hbig.
  rewrite bind_run. unfold get at 1. cbv beta iota.
  rewrite bind_run, bind_run. unfold get at 1. cbv beta iota.
  rewrite bind_run, existsSync_run. cbv beta iota. cbn [fs set_faults now].
  change (path_join (LOG_DIR host config) (Str.take 10 (toISOString (now w))))
    with (today_dir host config w).
  rewrite Hdir.
  rewrite bind_run. unfold mret at 1, Js_ret at 1. cbv beta iota.
  unfold mret at 1, Js_ret at 1. cbv beta iota.
  unfold renameSync, fallible. cbn [faults set_faults]. reflexivity.
Qed.

(** Both writes of [record] fail: two reports, no file touched, and the
    echo follows. *)
Lemma after_record_two_faults type layer err options w f1 f2 rest :
  faults w = Some f1 :: Some f2 :: rest →
  fs (after_record host config type layer err options w) = fs w ∧
  console (after_record host config type layer err options w) =
    console w ++
    [Stderr ("Failed to write log: " +:+ f1); Stderr ("Failed to write log: " +:+ f2)] ++
    (if shouldLog config type
     then [Stdout (colorize type (messages host (timestamp_of (now w)) type layer err options).1)]
     else []).
Proof.
  intros Hf. unfold after_record.
  destruct (messages host (timestamp_of (now w)) type layer err options) as [cm fm].
  set (w0 := set_logStats _ w).
  assert (Hf0 : faults w0 = Some f1 :: Some f2 :: rest) by exact Hf.
  rewrite (writeToFile_reports host config type fm w0 _ _
             (writeToFile_body_first_fault host config type fm w0 f1 _ Hf0)).
  cbn [snd]. set (w1 := set_console _ (set_faults _ w0)).
  assert (Hf1 : faults w1 = Some f2 :: rest) by reflexivity.
  rewrite (writeToFile_reports host config "all" fm w1 _ _
             (writeToFile_body_first_fault host config "all" fm w1 f2 _ Hf1)).
  cbn [snd]. destruct (shouldLog config type); simpl.
  - split; [done|]. by rewrite <- !app_assoc.
  - split; [done|]. by rewrite <- !app_assoc.
Qed.

End MoreFacts.

(* ===================================================================== *)
(** ** The regular expressions and their shapes *)
(* ===================================================================== *)

Lemma lit_sound {X} p s (k : string → option X) x :
  Regex.lit p s k = Some x → ∃ s', s = p +:+ s' ∧ k s' = Some x.
Proof.
  revert s. induction p as [|a p IH]; intros s H; simpl in H.
  - by exists s.
  - destruct s as [|b s]; [done|].
    destruct (Ascii.eqb_spec a b) as [->|]; [|done].
    destruct (IH _ H) as (s' & -> & Hk). by exists s'.
Qed.

Lemma lit_complete {X} p s' (k : string → option X) :
  Regex.lit p (p +:+ s') k = k s'.
Proof.
  induction p as [|a p IH]; [done|].
  rewrite StrFacts.app_cons. simpl. by rewrite Ascii.eqb_refl.
Qed.

Lemma plusG_sound {X} cls s (k : string → option X) x :
  Regex.plusG cls s k = Some x →
  ∃ u s', s = u +:+ s' ∧ run_of cls u ∧ k s' = Some x.
Proof.
  revert x. induction s as [|c s IH]; intros x H; simpl in H; [done|].
  destruct (cls c) eqn:Hc; [|done].
  destruct (Regex.plusG cls s k) as [y|] eqn:E.
  - destruct (IH _ eq_refl) as (u & s' & -> & [Hu Ha] & Hk).
    exists (String c u), s'. repeat split; try done.
    + simpl. by rewrite Hc.
    + congruence.
  - exists (String c ""), s. repeat split; try done. simpl. by rewrite Hc.
Qed.

Lemma plusL_sound {X} cls s (k : string → option X) x :
  Regex.plusL cls s k = Some x →
  ∃ u s', s = u +:+ s' ∧ run_of cls u ∧ k s' = Some x.
Proof.
  revert x. induction s as [|c s IH]; intros x H; simpl in H; [done|].
  destruct (cls c) eqn:Hc; [|done].
  destruct (k s) as [y|] eqn:E.
  - exists (String c ""), s. repeat split; try done; [simpl; by rewrite Hc|congruence].
  - destruct (IH _ H) as (u & s' & -> & [Hu Ha] & Hk).
    exists (String c u), s'. repeat split; try done. simpl. by rewrite Hc.
Qed.

Lemma plusG_complete {X} cls u s' (k : string → option X) :
  run_of cls u → is_Some (k s') → is_Some (Regex.plusG cls (u +:+ s') k).
Proof.
  intros [Hu Ha] Hk. induction u as [|c u IH]; [done|].
  rewrite StrFacts.app_cons. simpl in *. apply andb_true_iff in Ha as [Hc Ha]. rewrite Hc.
  destruct u as [|d u].
  - rewrite StrFacts.app_nil_l. destruct (Regex.plusG cls s' k); [eauto|done].
  - destruct IH as [y ->]; [done|done|]. eauto.
Qed.

Lemma plusL_complete {X} cls u s' (k : string → option X) :
  run_of cls u → is_Some (k s') → is_Some (Regex.plusL cls (u +:+ s') k).
Proof.
  intros [Hu Ha] Hk. induction u as [|c u IH]; [done|].
  rewrite StrFacts.app_cons. simpl in *. apply andb_true_iff in Ha as [Hc Ha]. rewrite Hc.
  destruct u as [|d u].
  - rewrite StrFacts.app_nil_l. by destruct Hk as [y ->]; eauto.
  - destruct (k (String d u +:+ s')); [eauto|]. by apply IH.
Qed.


Lemma take_app u s' : Str.take (String.length u) (u +:+ s') = u.
Proof.
  induction u as [|c u IH]; [by destruct s'|].
  rewrite StrFacts.app_cons. simpl. by rewrite IH.
Qed.

Lemma consumed_app u s' : Regex.consumed (u +:+ s') s' = u.
Proof.
  unfold Regex.consumed. rewrite StrFacts.length_app.
  replace (String.length u + String.length s' - String.length s') with (String.length u) by lia.
  apply take_app.
Qed.

Lemma exec_sound {X} r s caps (k : string → list string → option X) x :
  Regex.exec r s caps k = Some x →
  ∃ u s' c, s = u +:+ s' ∧ Matches r u c ∧ k s' (caps ++ c) = Some x.
Proof.
  revert s caps k x. induction r as [p|cls|cls|r IH|r1 IH1 r2 IH2]; intros s caps k x H; simpl in H.
  - apply lit_sound in H as (s' & -> & Hk).
    exists p, s', []. rewrite app_nil_r. repeat split; [constructor|done].
  - apply plusG_sound in H as (u & s' & -> & Hu & Hk).
    exists u, s', []. rewrite app_nil_r. repeat split; [by constructor|done].
  - apply plusL_sound in H as (u & s' & -> & Hu & Hk).
    exists u, s', []. rewrite app_nil_r. repeat split; [by constructor|done].
  - apply IH in H as (u & s' & c & -> & Hm & Hk).
    rewrite consumed_app in Hk.
    exists u, s', (c ++ [u]). repeat split; [by constructor|by rewrite app_assoc].
  - apply IH1 in H as (u1 & s1 & c1 & -> & Hm1 & H).
    apply IH2 in H as (u2 & s2 & c2 & -> & Hm2 & Hk).
    exists (u1 +:+ u2), s2, (c1 ++ c2).
    repeat split; [by rewrite StrFacts.app_assoc|by constructor|by rewrite app_assoc].
Qed.

Lemma exec_complete {X} r :
  ∀ u c s' caps (k : string → list string → option X),
    Matches r u c → blind k → is_Some (k s' (caps ++ c)) →
    is_Some (Regex.exec r (u +:+ s') caps k).
Proof.
  induction r as [p|cls|cls|r IH|r1 IH1 r2 IH2]; intros u c s' caps k Hm Hb Hk;
    inversion Hm; subst; simpl.
  - rewrite lit_complete. eapply Hb, Hk.
  - apply plusG_complete; [done|]. eapply Hb, Hk.
  - apply plusL_complete; [done|]. eapply Hb, Hk.
  - eapply (IH u caps0); [done| |].
    + intros s c1 c2. apply Hb.
    + rewrite consumed_app. eapply Hb, Hk.
  - rewrite StrFacts.app_assoc. eapply (IH1 u1 c1); [done| |].
    + intros s d1 d2 [y Hy]. apply exec_sound in Hy as (v & t & c & -> & Hv & Hy).
      eapply IH2; [done|done|]. eapply Hb. by rewrite Hy.
    + eapply IH2; [done|done|]. eapply Hb, Hk.
Qed.

Lemma match_here_sound r s caps :
  Regex.match_here r s = Some caps → ∃ u post, s = u +:+ post ∧ Matches r u caps.
Proof.
  unfold Regex.match_here. intros H.
  apply exec_sound in H as (u & s' & c & -> & Hm & [= <-]). eauto.
Qed.

Lemma match_here_complete r u c post :
  Matches r u c → is_Some (Regex.match_here r (u +:+ post)).
Proof.
  intros Hm. unfold Regex.match_here. eapply exec_complete; [done| |].
  - intros s c1 c2 _. eauto.
  - simpl. eauto.
Qed.

Lemma search_sound r s caps :
  Regex.search r s = Some caps →
  ∃ pre u post, s = pre +:+ u +:+ post ∧ Matches r u caps.
Proof.
  induction s as [|a s IH]; simpl.
  - destruct (Regex.match_here r "") eqn:E; [|done]. intros [= ->].
    apply match_here_sound in E as (u & post & -> & Hm). by exists "", u, post.
  - destruct (Regex.match_here r (String a s)) eqn:E.
    + intros [= ->]. apply match_here_sound in E as (u & post & -> & Hm).
      by exists "", u, post.
    + intros H. destruct (IH H) as (pre & u & post & -> & Hm).
      by exists (String a pre), u, post.
Qed.

Lemma search_complete r pre u post c :
  Matches r u c → is_Some (Regex.search r (pre +:+ u +:+ post)).
Proof.
  intros Hm. induction pre as [|a pre IH].
  - rewrite StrFacts.app_nil_l.
    destruct (match_here_complete r u c post Hm) as [y Hy].
    destruct (u +:+ post); simpl; rewrite Hy; eauto.
  - rewrite StrFacts.app_cons. simpl.
    destruct (Regex.match_here r (String a (pre +:+ u +:+ post))); [eauto|done].
Qed.


Ltac invert_matches :=
  repeat match goal with
         | H : Matches (Regex.Seq _ _) _ _ |- _ => inversion H; clear H; subst
         | H : Matches (Regex.Group _) _ _ |- _ => inversion H; clear H; subst
         | H : Matches (Regex.Lit _) _ _ |- _ => inversion H; clear H; subst
         | H : Matches (Regex.PlusG _) _ _ |- _ => inversion H; clear H; subst
         | H : Matches (Regex.PlusL _) _ _ |- _ => inversion H; clear H; subst
         end.

Lemma M_Seq' r1 r2 u u1 u2 c c1 c2 :
  u = u1 +:+ u2 → Matches r1 u1 c1 → Matches r2 u2 c2 → c = c1 ++ c2 →
  Matches (Regex.Seq r1 r2) u c.
Proof. intros -> H1 H2 ->. by constructor. Qed.

Lemma M_Group' r u c c0 :
  Matches r u c0 → c = c0 ++ [u] → Matches (Regex.Group r) u c.
Proof. intros H ->. by constructor. Qed.

Ltac build_matches :=
  lazymatch goal with
  | |- Matches (Regex.Seq _ _) _ _ =>
      eapply M_Seq'; [reflexivity | build_matches | build_matches | reflexivity]
  | |- Matches (Regex.Group _) _ _ => eapply M_Group'; [build_matches | reflexivity]
  | |- Matches (Regex.Lit _) _ _ => apply M_Lit
  | |- Matches (Regex.PlusG _) _ _ => apply M_PlusG; assumption
  | |- Matches (Regex.PlusL _) _ _ => apply M_PlusL; assumption
  end.

Lemma named_frame_re_matches u caps :
  Matches named_frame_re u caps ↔
  ∃ function file l c, caps = [function; file; l; c] ∧ named_frame u function file l c.
Proof.
  unfold named_frame_re. split.
  - intros H. invert_matches.
    eexists _, _, _, _. split; [reflexivity|]. eexists _, _. split; [reflexivity|]. done.
  - intros (f & file & l & c & -> & ws1 & ws2 & -> & H1 & H2 & H3 & H4 & H5 & H6).
    cbv zeta. build_matches.
Qed.

Lemma bare_frame_re_matches u caps :
  Matches bare_frame_re u caps ↔
  ∃ file l c, caps = [file; l; c] ∧ bare_frame u file l c.
Proof.
  unfold bare_frame_re. split.
  - intros H. invert_matches.
    eexists _, _, _. split; [reflexivity|]. eexists _. split; [reflexivity|]. done.
  - intros (file & l & c & -> & ws1 & -> & H1 & H2 & H3 & H4).
    cbv zeta. build_matches.
Qed.

Lemma search_named line :
  match Regex.search named_frame_re line with
  | Some caps =>
      ∃ pre u post function file l c,
        caps = [function; file; l; c] ∧ line = pre +:+ u +:+ post ∧
        named_frame u function file l c
  | None => ¬ has_named_shape line
  end.
Proof.
  destruct (Regex.search named_frame_re line) as [caps|] eqn:E.
  - apply search_sound in E as (pre & u & post & -> & Hm).
    apply named_frame_re_matches in Hm as (f & file & l & c & -> & Hf).
    by exists pre, u, post, f, file, l, c.
  - intros (pre & u & post & f & file & l & c & -> & Hf).
    assert (Hm : Matches named_frame_re u [f; file; l; c]).
    { apply named_frame_re_matches. by exists f, file, l, c. }
    destruct (search_complete named_frame_re pre u post _ Hm) as [y Hy]. congruence.
Qed.

Lemma search_bare line :
  match Regex.search bare_frame_re line with
  | Some caps =>
      ∃ pre u post file l c,
        caps = [file; l; c] ∧ line = pre +:+ u +:+ post ∧ bare_frame u file l c
  | None => ¬ has_bare_shape line
  end.
Proof.
  destruct (Regex.search bare_frame_re line) as [caps|] eqn:E.
  - apply search_sound in E as (pre & u & post & -> & Hm).
    apply bare_frame_re_matches in Hm as (file & l & c & -> & Hf).
    by exists pre, u, post, file, l, c.
  - intros (pre & u & post & file & l & c & -> & Hf).
    assert (Hm : Matches bare_frame_re u [file; l; c]).
    { apply bare_frame_re_matches. by exists file, l, c. }
    destruct (search_complete bare_frame_re pre u post _ Hm) as [y Hy]. congruence.
Qed.

Lemma matches_frame_iff line :
  matches_frame line = true ↔ has_named_shape line ∨ has_bare_shape line.
Proof.
  unfold matches_frame.
  pose proof (search_named line) as Hn. pose proof (search_bare line) as Hb.
  destruct (Regex.search named_frame_re line) as [c1|].
  - split; [intros _|done]. left.
    destruct Hn as (pre & u & post & f & file & l & c & _ & -> & Hf).
    by exists pre, u, post, f, file, l, c.
  - destruct (Regex.search bare_frame_re line) as [c2|].
    + split; [intros _|done]. right.
      destruct Hb as (pre & u & post & file & l & c & _ & -> & Hf).
      by exists pre, u, post, file, l, c.
    + split; [done|]. intros [H|H]; tauto.
Qed.

Lemma run_of_nonempty cls s : run_of cls s → Str.is_empty s = false.
Proof. intros [H _]. by destruct s. Qed.

Lemma parseLine_parses_as line : parses_as line (kept (parseLine line)).
Proof.
  unfold parseLine, kept.
  pose proof (search_named line) as Hn. pose proof (search_bare line) as Hb.
  destruct (Regex.search named_frame_re line) as [c1|].
  - destruct Hn as (pre & u & post & f & file & l & c & -> & -> & Hf).
    simpl. destruct Hf as (ws1 & ws2 & Hu & ? & ? & ? & Hfile & ? & ?).
    rewrite (run_of_nonempty _ _ Hfile). simpl.
    eapply as_named; [done|]. by exists ws1, ws2.
  - destruct (Regex.search bare_frame_re line) as [c2|].
    + destruct Hb as (pre & u & post & file & l & c & -> & -> & Hf).
      simpl. destruct Hf as (ws1 & Hu & ? & Hfile & ? & ?).
      rewrite (run_of_nonempty _ _ Hfile). simpl.
      eapply as_bare; [done|done|]. by exists ws1.
    + simpl. destruct (Str.trim line) eqn:E; simpl.
      * by apply as_blank.
      * rewrite <- E. apply as_raw; try done. by rewrite E.
Qed.

Lemma split_no_sep s : Str.mem Str.LF s = false → Str.split Str.LF s = [s].
Proof.
  induction s as [|c s IH]; [done|]. simpl. intros H.
  apply orb_false_iff in H as [Hc Hs]. rewrite Hc, (IH Hs). done.
Qed.

Lemma split_app_sep a b :
  Str.mem Str.LF a = false →
  Str.split Str.LF (a +:+ String Str.LF b) = a :: Str.split Str.LF b.
Proof.
  induction a as [|c a IH]; intros H.
  - reflexivity.
  - rewrite StrFacts.app_cons. simpl in *.
    apply orb_false_iff in H as [Hc Ha]. rewrite Hc, (IH Ha). done.
Qed.

Lemma split_join first rest :
  Forall (λ line, Str.mem Str.LF line = false) (first :: rest) →
  Str.split Str.LF (Str.join (String Str.LF "") (first :: rest)) = first :: rest.
Proof.
  revert first. induction rest as [|second rest IH]; intros first H.
  - simpl. apply split_no_sep. by inversion H.
  - inversion H as [|? ? Hfirst Hrest]; subst.
    change (Str.join (String Str.LF "") (first :: second :: rest))
      with (first +:+ String Str.LF "" +:+ Str.join (String Str.LF "") (second :: rest)).
    change (String Str.LF "" +:+ Str.join (String Str.LF "") (second :: rest))
      with (String Str.LF (Str.join (String Str.LF "") (second :: rest))).
    rewrite split_app_sep by done. by rewrite IH.
Qed.

Lemma join_empty first rest :
  Str.is_empty (Str.join (String Str.LF "") (first :: rest)) = true → rest = [].
Proof.
  destruct rest as [|second rest]; [done|].
  change (Str.join (String Str.LF "") (first :: second :: rest))
    with (first +:+ String Str.LF (Str.join (String Str.LF "") (second :: rest))).
  by destruct first.
Qed.

Lemma filter_map_kept (lines : list string) :
  List.filter keep_item (List.map parseLine lines) = omap (λ line, kept (parseLine line)) lines.
Proof.
  induction lines as [|line lines IH]; [done|]. simpl. unfold kept at 1.
  destruct (keep_item (parseLine line)); simpl; by rewrite IH.
Qed.

Lemma parseStack_lines first rest :
  Forall (λ line, Str.mem Str.LF line = false) (first :: rest) →
  parseStack (Some (Str.join (String Str.LF "") (first :: rest))) =
    omap (λ line, kept (parseLine line)) rest.
Proof.
  intros H. unfold parseStack.
  destruct (Str.is_empty (Str.join (String Str.LF "") (first :: rest))) eqn:E.
  - by rewrite (join_empty _ _ E).
  - rewrite split_join by done. simpl. apply filter_map_kept.
Qed.

Lemma kept_parseLine_cases line :
  (matches_frame line = true ∧
   ∃ function file l c, kept (parseLine line) = Some (Frame function file l c)) ∨
  (matches_frame line = false ∧
   kept (parseLine line) =
     if Str.is_empty (Str.trim line) then None else Some (Raw (Str.trim line))).
Proof.
  pose proof (parseLine_parses_as line) as Hp.
  pose proof (matches_frame_iff line) as Hm.
  inversion Hp as [pre u post f file l c Hl Hf Hk|pre u post file l c Hn Hl Hf Hk|Hn Hb Ht Hk|Hn Hb Ht Hk].
  - left. split; [|by eauto]. apply Hm. left. by exists pre, u, post, f, file, l, c.
  - left. split; [|by eauto]. apply Hm. right. by exists pre, u, post, file, l, c.
  - right. split.
    + destruct (matches_frame line); [|done]. destruct Hm as [Hm _]. destruct (Hm eq_refl); tauto.
    + by destruct (Str.trim line).
  - right. split.
    + destruct (matches_frame line); [|done]. destruct Hm as [Hm _]. destruct (Hm eq_refl); tauto.
    + by rewrite Ht.
Qed.

Lemma count_frames (lines : list string) :
  List.length (List.filter is_frame (omap (λ line, kept (parseLine line)) lines)) =
  List.length (List.filter matches_frame lines).
Proof.
  induction lines as [|line lines IH]; [done|]. simpl.
  destruct (kept_parseLine_cases line) as [[-> (f & file & l & c & ->)]|[-> ->]]; simpl.
  - f_equal. apply IH.
  - destruct (Str.is_empty (Str.trim line)); simpl; apply IH.
Qed.

Lemma count_raws (lines : list string) :
  List.length (List.filter is_raw (omap (λ line, kept (parseLine line)) lines)) =
  List.length (List.filter (λ line, negb (matches_frame line) && negb (Str.is_empty (Str.trim line)))
            lines).
Proof.
  induction lines as [|line lines IH]; [done|]. simpl.
  destruct (kept_parseLine_cases line) as [[-> (f & file & l & c & ->)]|[-> ->]]; simpl.
  - apply IH.
  - destruct (Str.is_empty (Str.trim line)); simpl; [|f_equal]; apply IH.
Qed.

(** *** Where the context is kept *)

Lemma starts_with_app p t : Str.starts_with p (p +:+ t) = true.
Proof.
  induction p as [|c p IH]; [done|]. rewrite StrFacts.app_cons. simpl.
  by rewrite Ascii.eqb_refl.
Qed.

Lemma starts_with_app_r p s t :
  Str.starts_with p s = true → Str.starts_with p (s +:+ t) = true.
Proof.
  revert s. induction p as [|c p IH]; intros s H; [done|].
  destruct s as [|d s]; [done|]. rewrite StrFacts.app_cons. simpl in *.
  apply andb_true_iff in H as [-> H]. by rewrite IH.
Qed.

Lemma includes_starts p s : Str.starts_with p s = true → Str.includes p s = true.
Proof. intros H. destruct s; simpl; by rewrite H. Qed.

Lemma includes_app_l p s t : Str.includes p t = true → Str.includes p (s +:+ t) = true.
Proof.
  intros H. induction s as [|c s IH]; [done|].
  rewrite StrFacts.app_cons. simpl. rewrite IH. by rewrite orb_true_r.
Qed.

Lemma includes_app_r p s t : Str.includes p s = true → Str.includes p (s +:+ t) = true.
Proof.
  induction s as [|c s IH]; intros H.
  - simpl in H. rewrite orb_false_r in H. rewrite StrFacts.app_nil_l.
    destruct p; [by destruct t|done].
  - rewrite StrFacts.app_cons. simpl in *.
    apply orb_true_iff in H as [H|H].
    + change (String c (s +:+ t)) with (String c s +:+ t).
      by rewrite (starts_with_app_r _ _ t H).
    + rewrite (IH H). by rewrite orb_true_r.
Qed.

Lemma includes_self_app p t : Str.includes p (p +:+ t) = true.
Proof. apply includes_starts, starts_with_app. Qed.

Lemma includes_suffix p s : Str.includes p (s +:+ p) = true.
Proof.
  apply includes_app_l. rewrite <- (StrFacts.app_nil_r p) at 2. apply includes_self_app.
Qed.

Section ContextFacts.

Context (host : Host).

(** Unless the entry is an error with a name, a truthy context is
    rendered into both messages. *)
Lemma context_rendered ts type layer err options :
  truthy (context options) = true →
  type ≠ "error" ∨ truthy (ei_name (extractErrorInfo err)) = false →
  Str.includes (formatValue host (context options))
    (messages host ts type layer err options).1 = true ∧
  Str.includes ("Context: " +:+ formatValue host (context options))
    (messages host ts type layer err options).2 = true.
Proof.
  intros Hctx Hplain. unfold messages. rewrite Hctx.
  assert (String.eqb type "error" && truthy (ei_name (extractErrorInfo err)) = false) as ->.
  { destruct Hplain as [Hne| ->]; [|by rewrite andb_false_r].
    apply String.eqb_neq in Hne. by rewrite Hne. }
  set (ctx := formatValue host (context options)).
  assert (∀ a b, Str.includes ctx (a +:+ String Str.LF "" +:+ dim "Context:" +:+ " " +:+ ctx) = true
                 ∧ Str.includes ("Context: " +:+ ctx) (b +:+ String Str.LF "" +:+ "Context: " +:+ ctx) = true)
    as Hin.
  { intros a b. split.
    - rewrite <- !StrFacts.app_assoc. apply includes_suffix.
    - apply includes_app_l, includes_app_l. by apply includes_suffix with (s := ""). }
  cbv beta iota zeta.
  destruct (ei_stack (extractErrorInfo err)) as [stack|]; [|apply (Hin _ _)].
  destruct (negb (Str.is_empty stack) && (String.eqb type "error" || truthy (trace options)));
    [|apply (Hin _ _)].
  destruct (negb (Str.is_empty (formatStack (Some stack) true))); [|apply (Hin _ _)].
  cbn [fst snd].
  split; [apply includes_app_r, (Hin _ "")|apply includes_app_r, (Hin "" _)].
Qed.

(** An error with a name: the messages are those of the same entry
    without a context. *)
Lemma context_dropped ts layer name message stack code options :
  Str.is_empty name = false →
  messages host ts "error" layer (VError name message stack code) options =
  messages host ts "error" layer (VError name message stack code)
    {| context := VUndefined; trace := trace options; noThrow := noThrow options |}.
Proof.
  intros Hname. unfold messages.
  change (truthy (ei_name (extractErrorInfo (VError name message stack code))))
    with (negb (Str.is_empty name)).
  rewrite Hname. cbn [String.eqb Ascii.eqb Bool.eqb andb negb truthy context].
  by destruct (truthy (context options)).
Qed.

End ContextFacts.

(* ===================================================================== *)
(** ** The clauses of the specification *)
(* ===================================================================== *)

Section StatsFacts.

Context (host : Host) (config : Config).

Lemma logStats_after_clear (calls : list Call) (w : World) (s : Severity) :
  is_Some (logStats w !! severity_name s) →
  logStats ((clearStats;; run_calls host config calls) w).2 !! severity_name s =
    Some (count_calls s calls).
Proof.
  intros [x Hx].
  rewrite bind_run. unfold clearStats, modify. cbv beta iota.
  set (w0 := set_logStats _ w).
  assert (logStats w0 !! severity_name s = Some 0%N) as H0.
  { unfold w0. simpl. by rewrite lookup_fmap, Hx. }
  pose proof (logStats_run_calls host config calls w0 s 0%N H0) as H.
  by rewrite N.add_0_l in H.
Qed.

Lemma clear_and_calls_normal (calls : list Call) (w : World) :
  ((clearStats;; run_calls host config calls) w).1 = Normal tt.
Proof.
  rewrite bind_run. unfold clearStats, modify. cbv beta iota. apply run_calls_normal.
Qed.

End StatsFacts.

Lemma fresh_world_keys s : is_Some (logStats fresh_world !! severity_name s).
Proof. destruct s; vm_compute; eauto. Qed.

(** C1 (as amended): after [clearStats()] and any sequence of calls made
    through info, debug, log, warning, error and all, [stats()[sev]] is the
    number of calls made through the entry point [sev], for every one of
    the six names; the counter of "all" counts the calls of [all()] and no
    others. *)
Theorem stats_count_per_entry_point host config (calls : list Call) (w : World) :
  (∀ s, is_Some (logStats w !! severity_name s)) →
  ∃ m w',
    (clearStats;; run_calls host config calls;; stats) w = (Normal m, w') ∧
    ∀ s, m !! severity_name s = Some (count_calls s calls).
Proof.
  intros Hkeys.
  change ((clearStats;; run_calls host config calls;; stats) w)
    with (((clearStats;; run_calls host config calls) ≫= λ _, stats) w).
  rewrite bind_run.
  pose proof (clear_and_calls_normal host config calls w) as Hn.
  pose proof (λ s, logStats_after_clear host config calls w s (Hkeys s)) as Hs.
  destruct ((clearStats;; run_calls host config calls) w) as [c w1].
  simpl in Hn, Hs. subst c.
  exists (logStats w1), w1. split; [reflexivity|exact Hs].
Qed.

Lemma stats_count_per_entry_point_witness :
  ∃ m w',
    (clearStats;;
     run_calls sample_host development
       [mkCall SInfo "db" (VStr "up") no_options;
        mkCall SError "db" (VStr "down") no_options;
        mkCall SAll "db" (VStr "note") no_options];;
     stats) fresh_world = (Normal m, w') ∧
    ∀ s, m !! severity_name s =
         Some (count_calls s
                 [mkCall SInfo "db" (VStr "up") no_options;
                  mkCall SError "db" (VStr "down") no_options;
                  mkCall SAll "db" (VStr "note") no_options]).
Proof.
  apply (stats_count_per_entry_point sample_host development).
  intros []; vm_compute; eauto.
Defined.

(** C1 (as stated) fails: one call of [info] on cleared counters leaves
    [stats()['all']] at 0, while N = 1. *)
Lemma stats_all_is_not_the_total :
  let calls := [mkCall SInfo "db" (VStr "up") no_options] in
  let w' := ((clearStats;; run_calls sample_host development calls) fresh_world).2 in
  (stats w').1 = Normal (logStats w') ∧
  logStats w' !! "info" = Some 1%N ∧
  logStats w' !! "all" = Some 0%N ∧
  logStats w' !! "all" ≠ Some (N.of_nat (List.length calls)).
Proof.
  intros calls w'.
  pose proof (logStats_after_clear sample_host development calls fresh_world SInfo
                (fresh_world_keys SInfo)) as Hinfo.
  pose proof (logStats_after_clear sample_host development calls fresh_world SAll
                (fresh_world_keys SAll)) as Hall.
  fold w' in Hinfo, Hall.
  change (severity_name SInfo) with "info" in Hinfo.
  change (severity_name SAll) with "all" in Hall.
  split; [reflexivity|]. split; [exact Hinfo|]. split; [exact Hall|].
  rewrite Hall. discriminate.
Qed.

(** C2 (as amended): rotation looks at the size the canonical file has
    before the write.  When no file-system call fails, a write to
    [<severity>.log] of the current day renames a file that is already
    above 10 MiB to [<severity>.<epochMillis>.log] and starts a fresh file
    with the new line; a file of at most 10 MiB gets the line appended in
    place.  Right after the write the canonical file is therefore at most
    10 MiB plus that one line. *)
Theorem rotation_checks_size_before_write host config (type message : string) (w : World) :
  faults w = [] →
  fs w !! log_file host config w type ≠ Some Dir →
  let old := content_of (fs w !! log_file host config w type) in
  let w' := (writeToFile host config type message w).2 in
  ((MAX_LOG_SIZE < Str.size old)%N →
     fs w' !! rotated_file host config w type = Some (File old) ∧
     fs w' !! log_file host config w type = Some (File (line_of message))) ∧
  ((Str.size old ≤ MAX_LOG_SIZE)%N →
     fs w' !! log_file host config w type = Some (File (old +:+ line_of message)) ∧
     fs w' !! rotated_file host config w type = fs w !! rotated_file host config w type) ∧
  ∃ content,
    fs w' !! log_file host config w type = Some (File content) ∧
    (Str.size content ≤ MAX_LOG_SIZE + Str.size (line_of message))%N.
Proof.
  intros Hf Hnd old w'.
  pose proof (writeToFile_canonical host config type message w Hf Hnd) as Hc.
  fold old in Hc. fold w' in Hc.
  repeat split.
  - by apply writeToFile_rotated.
  - rewrite Hc. destruct (keep_cases old) as [[_ ->]|[? _]]; [done|lia].
  - rewrite Hc. destruct (keep_cases old) as [[? _]|[_ ->]]; [lia|done].
  - by apply writeToFile_not_rotated.
  - eexists. split; [exact Hc|]. rewrite StrFacts.size_app.
    pose proof (keep_size old). lia.
Qed.

Lemma rotation_checks_size_before_write_witness :
  let w' := (writeToFile sample_host development "info" "first line" fresh_world).2 in
  fs w' !! "/app/logs/2025-01-05/info.log" = Some (File (line_of "first line")).
Proof.
  intros w'.
  assert (Hf : faults fresh_world = []) by reflexivity.
  assert (Hnd : fs fresh_world !! log_file sample_host development fresh_world "info"
                ≠ Some Dir) by (vm_compute; discriminate).
  destruct (rotation_checks_size_before_write sample_host development "info"
              "first line" fresh_world Hf Hnd) as (_ & Hsmall & _).
  apply Hsmall. vm_compute. discriminate.
Defined.

Lemma full_world_log_file :
  log_file sample_host development full_world "info" = "/app/logs/2025-01-05/info.log".
Proof. reflexivity. Qed.

Lemma full_world_rotated_file :
  rotated_file sample_host development full_world "info" =
    "/app/logs/2025-01-05/info.1736060889042.log".
Proof. reflexivity. Qed.

Lemma full_world_content :
  fs full_world !! "/app/logs/2025-01-05/info.log" = Some (File (Str.fill MAX_LOG_SIZE "x")).
Proof.
  unfold full_world, fs.
  rewrite lookup_insert_ne by discriminate. apply lookup_singleton_eq.
Qed.

(** C2 (as stated) fails: [info.log] holds exactly 10 MiB, so the size
    check lets it be; the next line is appended to it, no file is renamed,
    and the canonical file is larger than the maximum. *)
Lemma canonical_file_exceeds_maximum :
  let w' := (writeToFile sample_host development "info" "one more line" full_world).2 in
  Str.size (content_of (fs full_world !! "/app/logs/2025-01-05/info.log")) = MAX_LOG_SIZE ∧
  fs w' !! "/app/logs/2025-01-05/info.1736060889042.log" = None ∧
  ∃ content,
    fs w' !! "/app/logs/2025-01-05/info.log" = Some (File content) ∧
    (MAX_LOG_SIZE < Str.size content)%N.
Proof.
  intros w'.
  assert (Hf : faults full_world = []) by reflexivity.
  assert (Hold : content_of (fs full_world !! "/app/logs/2025-01-05/info.log")
                 = Str.fill MAX_LOG_SIZE "x") by (by rewrite full_world_content).
  assert (Hnd : fs full_world !! log_file sample_host development full_world "info" ≠ Some Dir).
  { rewrite full_world_log_file, full_world_content. discriminate. }
  split; [by rewrite Hold, StrFacts.size_fill|]. split.
  - unfold w'. rewrite <- full_world_rotated_file.
    rewrite writeToFile_not_rotated; [| done | done |].
    + rewrite full_world_rotated_file. unfold full_world, fs.
      rewrite lookup_insert_ne by discriminate. by rewrite lookup_singleton_ne by discriminate.
    + rewrite full_world_log_file, Hold, StrFacts.size_fill. lia.
  - eexists. split.
    + unfold w'. rewrite <- full_world_log_file. by apply writeToFile_canonical.
    + rewrite full_world_log_file, Hold.
      destruct (keep_cases (Str.fill MAX_LOG_SIZE "x")) as [[Hbig _]|[_ ->]].
      * rewrite StrFacts.size_fill in Hbig. lia.
      * rewrite StrFacts.size_app, StrFacts.size_fill.
        change (Str.size (line_of "one more line")) with 14%N. lia.
Qed.

(** C3, at the input on which the code departs from it: an error object
    logged through [error] with a context (and the throw suppressed).
    [record] appends the rendered context and then, because the payload
    has a name, assigns both messages anew from the header: the entry
    written to [error.log] and echoed on the console has no context.  The
    same payload and options logged through [warning] keep it. *)
Lemma error_entry_drops_context :
  let err := VError "Error" "conn refused"
               (Some ("Error: conn refused" +:+ String Str.LF "    at connect (/app/src/db.js:10:5)"))
               VUndefined in
  let options := {| context := VStr "request 42"; trace := VUndefined; noThrow := VBool true |} in
  let logged := error sample_host development "db" err options fresh_world in
  let warned := warning sample_host development "db" err options fresh_world in
  truthy (context options) = true ∧
  formatValue sample_host (context options) = "request 42" ∧
  logged.1 = Normal tt ∧
  (∃ text line,
     fs logged.2 !! "/app/logs/2025-01-05/error.log" = Some (File text) ∧
     stdout_of (console logged.2) = [line] ∧
     Str.includes "ERROR | DB [Error] | conn refused" text = true ∧
     Str.includes "request 42" text = false ∧
     Str.includes "request 42" line = false) ∧
  (∃ text line,
     fs warned.2 !! "/app/logs/2025-01-05/warning.log" = Some (File text) ∧
     stdout_of (console warned.2) = [line] ∧
     Str.includes "Context: request 42" text = true ∧
     Str.includes "request 42" line = true).
Proof.
  cbv zeta. split; [reflexivity|]. split; [reflexivity|]. split; [by vm_compute|].
  split; eexists _, _; (split; [vm_compute; reflexivity|]);
    (split; [vm_compute; reflexivity|]); repeat split; vm_compute; reflexivity.
Qed.

(** C4: outside production mode, [error(layer, err, options)] without
    [noThrow] throws: [err] itself when it is an error object, a new error
    made from it otherwise; with [noThrow] set it returns.  Both calls
    leave the same world, so the same files; and when no file-system call
    fails the entry stands in [error.log] and in [all.log] when the throw
    happens. *)
Theorem error_rethrows_unless_suppressed host config (layer : string) (err : Value)
    (options suppressed : Options) (w : World) :
  production config = false →
  truthy (noThrow options) = false →
  truthy (noThrow suppressed) = true →
  context suppressed = context options →
  let loud := error host config layer err options w in
  let silent := error host config layer err suppressed w in
  let fileMessage :=
    (messages host (timestamp_of (now w)) "error" layer err (with_trace options)).2 in
  loud.1 = Throw (if instanceof_Error err then err else new_Error host err) ∧
  silent.1 = Normal tt ∧
  loud.2 = silent.2 ∧
  (faults w = [] →
   fs w !! log_file host config w "error" ≠ Some Dir →
   fs w !! log_file host config w "all" ≠ Some Dir →
   fs loud.2 !! log_file host config w "error" =
     Some (File (keep (content_of (fs w !! log_file host config w "error"))
                 +:+ line_of fileMessage)) ∧
   fs loud.2 !! log_file host config w "all" =
     Some (File (keep (content_of (fs w !! log_file host config w "all"))
                 +:+ line_of fileMessage))).
Proof.
  intros Hdev Hloud Hsilent Hctx loud silent fm. unfold loud, silent.
  rewrite !error_run, Hdev, Hloud, Hsilent. cbn [fst snd negb andb].
  repeat split.
  - by apply after_record_options.
  - by apply (record_files host config "error").
  - by apply (record_files host config "error").
Qed.

Lemma error_rethrows_unless_suppressed_witness :
  let suppressed := {| context := VUndefined; trace := VUndefined; noThrow := VBool true |} in
  let loud := error sample_host development "db" (VStr "disk full") no_options fresh_world in
  let silent := error sample_host development "db" (VStr "disk full") suppressed fresh_world in
  loud.1 = Throw (new_Error sample_host (VStr "disk full")) ∧
  silent.1 = Normal tt ∧
  loud.2 = silent.2.
Proof.
  intros suppressed loud silent.
  destruct (error_rethrows_unless_suppressed sample_host development "db" (VStr "disk full")
              no_options suppressed fresh_world eq_refl eq_refl eq_refl eq_refl)
    as (H1 & H2 & H3 & _).
  exact (conj H1 (conj H2 H3)).
Defined.

(** C5: in production mode an entry of severity error or warning is not
    printed by [console.log], and its two file writes are made (when no
    file-system call fails, nothing at all reaches the console); an entry
    of severity info, debug or log is printed, colorized.  Outside
    production mode every severity is printed. *)
Theorem production_console_suppression host config (s : Severity) (layer : string)
    (err : Value) (options : Options) (w : World) :
  let type := severity_name s in
  let w' := (record host config type layer err options w).2 in
  let consoleMessage := (messages host (timestamp_of (now w)) type layer err options).1 in
  let fileMessage := (messages host (timestamp_of (now w)) type layer err options).2 in
  (production config = true → s = SError ∨ s = SWarning →
     stdout_of (console w') = stdout_of (console w) ∧
     (faults w = [] →
      fs w !! log_file host config w type ≠ Some Dir →
      fs w !! log_file host config w "all" ≠ Some Dir →
      console w' = console w ∧
      fs w' !! log_file host config w type =
        Some (File (keep (content_of (fs w !! log_file host config w type))
                    +:+ line_of fileMessage)) ∧
      fs w' !! log_file host config w "all" =
        Some (File (keep (content_of (fs w !! log_file host config w "all"))
                    +:+ line_of fileMessage)))) ∧
  (production config = true → s = SInfo ∨ s = SDebug ∨ s = SLog →
     stdout_of (console w') = stdout_of (console w) ++ [colorize type consoleMessage]) ∧
  (production config = false →
     stdout_of (console w') = stdout_of (console w) ++ [colorize type consoleMessage]).
Proof.
  intros type w' cm fm. unfold w'. rewrite record_run. cbn [snd].
  split; [|split].
  - intros Hprod Hs.
    assert (Hlog : shouldLog config type = false).
    { unfold shouldLog, type. rewrite Hprod. by destruct Hs as [-> | ->]. }
    assert (Hne : type ≠ "all") by (unfold type; by destruct Hs as [-> | ->]).
    split.
    + rewrite stdout_after_record, Hlog. by rewrite app_nil_r.
    + intros Hf Hd1 Hd2. split; [|by apply record_files; try apply severity_name_no_dot].
      rewrite record_console_ok, Hlog; try done; [by rewrite app_nil_r|].
      apply severity_name_no_dot.
  - intros Hprod Hs. rewrite stdout_after_record.
    assert (Hlog : shouldLog config type = true).
    { unfold shouldLog, type. rewrite Hprod. by destruct Hs as [-> | [-> | ->]]. }
    by rewrite Hlog.
  - intros Hdev. rewrite stdout_after_record.
    assert (Hlog : shouldLog config type = true) by (unfold shouldLog; by rewrite Hdev).
    by rewrite Hlog.
Qed.

Lemma production_console_suppression_witness :
  stdout_of (console (record sample_host production_mode "error" "db" (VStr "disk full")
                        no_options fresh_world).2) = [] ∧
  stdout_of (console (record sample_host production_mode "info" "db" (VStr "started")
                        no_options fresh_world).2) =
    [colorize "info" (messages sample_host (timestamp_of sample_date) "info" "db"
                        (VStr "started") no_options).1].
Proof.
  split.
  - exact (proj1 (proj1 (production_console_suppression sample_host production_mode SError
                           "db" (VStr "disk full") no_options fresh_world)
                    eq_refl (or_introl eq_refl))).
  - exact (proj1 (proj2 (production_console_suppression sample_host production_mode SInfo
                           "db" (VStr "started") no_options fresh_world))
             eq_refl (or_introl eq_refl)).
Defined.

(** C6 (as amended): [parseStack] discards the first line and turns the
    lines after it, in their order, into entries.  A line in which a frame
    "at <function> (<file>:<line>:<col>)" occurs gives an entry with the
    four fields of one such frame, the function trimmed; otherwise a line
    in which "at <file>:<line>:<col>" occurs gives an entry with function
    "anonymous"; any other line gives a raw entry holding the line without
    its leading and trailing white space, and no entry at all when nothing
    is left of it.  So K lines with a frame give K frame entries, and J
    lines without one give as many raw entries as are not blank. *)
Theorem parseStack_classifies_lines (first : string) (rest : list string) :
  Forall (λ line, Str.mem Str.LF line = false) (first :: rest) →
  let parsed := parseStack (Some (Str.join (String Str.LF "") (first :: rest))) in
  (∃ items, Forall2 parses_as rest items ∧ parsed = omap id items) ∧
  (∀ line, matches_frame line = true ↔ has_named_shape line ∨ has_bare_shape line) ∧
  List.length (List.filter is_frame parsed) = List.length (List.filter matches_frame rest) ∧
  List.length (List.filter is_raw parsed) =
    List.length (List.filter
              (λ line, negb (matches_frame line) && negb (Str.is_empty (Str.trim line))) rest).
Proof.
  intros Hlines parsed. unfold parsed. rewrite parseStack_lines by done.
  split; [|split; [|split]].
  - exists (List.map (λ line, kept (parseLine line)) rest). split.
    + clear. induction rest as [|line rest IH]; constructor; [apply parseLine_parses_as|done].
    + clear. induction rest as [|line rest IH]; [done|]. simpl.
      destruct (kept (parseLine line)); simpl; [f_equal|]; apply IH.
  - apply matches_frame_iff.
  - apply count_frames.
  - apply count_raws.
Qed.

Lemma parseStack_classifies_lines_witness :
  let parsed :=
    parseStack (Some (Str.join (String Str.LF "")
                        ["Error: boom";
                         "    at connect (/app/src/db.js:10:5)";
                         "    at /app/src/index.js:3:1";
                         "    at async Promise.all (index 0)";
                         "   "])) in
  List.length (List.filter is_frame parsed) = 2 ∧
  List.length (List.filter is_raw parsed) = 1.
Proof.
  intros parsed.
  destruct (parseStack_classifies_lines "Error: boom"
              ["    at connect (/app/src/db.js:10:5)";
               "    at /app/src/index.js:3:1";
               "    at async Promise.all (index 0)";
               "   "]) as (_ & _ & Hframes & Hraws).
  - repeat constructor.
  - exact (conj Hframes Hraws).
Defined.

(** C6 (as stated) fails: after the first line come one line of the first
    shape and one line of neither shape (K = 1, J = 1); the raw entry is
    not the line as it stands but the line without its indentation. *)
Lemma raw_entries_are_trimmed :
  let stack := Str.join (String Str.LF "")
                 ["Error: boom";
                  "    at connect (/app/src/db.js:10:5)";
                  "    at async Promise.all (index 0)"] in
  matches_frame "    at connect (/app/src/db.js:10:5)" = true ∧
  matches_frame "    at async Promise.all (index 0)" = false ∧
  parseStack (Some stack) =
    [Frame "connect" "/app/src/db.js" "10" "5"; Raw "at async Promise.all (index 0)"] ∧
  parseStack (Some stack) ≠
    [Frame "connect" "/app/src/db.js" "10" "5"; Raw "    at async Promise.all (index 0)"].
Proof.
  cbv zeta. split; [reflexivity|]. split; [reflexivity|]. split; [reflexivity|].
  vm_compute. discriminate.
Qed.

(** A frame entry can have an empty function: the lazy group takes one
    blank when nothing else stands between "at" and the parenthesis. *)
Lemma function_may_be_empty : parseLine "at   (f:1:2)" = Frame "" "f" "1" "2".
Proof. reflexivity. Qed.

(** C7: [group(layer, title, callback)] records the start marker at info
    level, runs the callback in the world that leaves, and records the end
    marker at info level in the world the callback leaves, whether the
    callback returned or threw; the group completes as the callback did.
    Both markers are printed and counted. *)
Theorem group_emits_end_marker host config (layer title : string) (callback : Js unit)
    (w : World) :
  let start := VStr ("──── " +:+ title +:+ " ────") in
  let finish := VStr ("──── End " +:+ title +:+ " ────") in
  let w1 := after_record host config "info" layer start no_options w in
  let w2 := (callback w1).2 in
  let w3 := after_record host config "info" layer finish no_options w2 in
  group host config layer title callback w = ((callback w1).1, w3) ∧
  stdout_of (console w1) =
    stdout_of (console w) ++
    [colorize "info" (messages host (timestamp_of (now w)) "info" layer start no_options).1] ∧
  stdout_of (console w3) =
    stdout_of (console w2) ++
    [colorize "info" (messages host (timestamp_of (now w2)) "info" layer finish no_options).1] ∧
  logStats w1 !! "info" = Some (default 0 (logStats w !! "info") + 1)%N ∧
  logStats w3 !! "info" = Some (default 0 (logStats w2 !! "info") + 1)%N.
Proof.
  intros start finish w1 w2 w3.
  assert (Hlog : shouldLog config "info" = true).
  { unfold shouldLog. simpl. by rewrite orb_true_r. }
  repeat split.
  - unfold group. rewrite bind_run, info_run. fold start w1.
    unfold try_finally. fold finish. unfold w3, w2.
    destruct (callback w1) as [outcome w2']. by rewrite info_run.
  - unfold w1. by rewrite stdout_after_record, Hlog.
  - unfold w3. by rewrite stdout_after_record, Hlog.
  - unfold w1. by rewrite logStats_after_record, lookup_insert_eq.
  - unfold w3. by rewrite logStats_after_record, lookup_insert_eq.
Qed.

(** C8: [writeToFile] returns normally in every world, whatever calls the
    oracle fails.  A throw of its body is reported on standard error as
    "Failed to write log: <message>"; such a throw happens when the first
    file-system call fails (the [mkdirSync], [statSync] or [appendFileSync]
    that the state calls for) and when [renameSync] fails after a
    successful [statSync], and nothing has then been written.  [record]
    goes on: in every world it echoes the entry when the mode and the
    severity ask for it, and it throws exactly when they and the options
    ask for it; when both of its writes fail, the two reports precede the
    echo and no file has changed. *)
Theorem write_failures_stay_inside host config :
  (∀ type message w, ∃ w', writeToFile host config type message w = (Normal tt, w')) ∧
  (∀ type message w v w1,
     writeToFile_body host config type message w = (Throw v, w1) →
     writeToFile host config type message w =
       (Normal tt,
        set_console (λ c, c ++ [Stderr ("Failed to write log: " +:+ message_of v)]) w1)) ∧
  (∀ type message w fault rest,
     faults w = Some fault :: rest →
     writeToFile host config type message w =
       (Normal tt,
        set_console (λ c, c ++ [Stderr ("Failed to write log: " +:+ fault)])
          (set_faults (λ _, rest) w))) ∧
  (∀ type message w node fault rest,
     faults w = None :: Some fault :: rest →
     is_Some (fs w !! today_dir host config w) →
     fs w !! log_file host config w type = Some node →
     (MAX_LOG_SIZE < node_size node)%N →
     writeToFile host config type message w =
       (Normal tt,
        set_console (λ c, c ++ [Stderr ("Failed to write log: " +:+ fault)])
          (set_faults (λ _, rest) w))) ∧
  (∀ s layer err options w,
     let type := severity_name s in
     let echo :=
       if shouldLog config type
       then [colorize type (messages host (timestamp_of (now w)) type layer err options).1]
       else [] in
     let done := record host config type layer err options w in
     done.1 =
       (if rethrows config type options
        then Throw (if instanceof_Error err then err else new_Error host err)
        else Normal tt) ∧
     stdout_of (console done.2) = stdout_of (console w) ++ echo ∧
     ∀ f1 f2 rest,
       faults w = Some f1 :: Some f2 :: rest →
       fs done.2 = fs w ∧
       console done.2 =
         console w ++
         [Stderr ("Failed to write log: " +:+ f1); Stderr ("Failed to write log: " +:+ f2)] ++
         List.map Stdout echo).
Proof.
  repeat split.
  - intros type message w.
    destruct (writeToFile_any host config type message w) as (w' & E & _). eauto.
  - intros type message w v w1. apply writeToFile_reports.
  - intros type message w fault rest Hf.
    by rewrite (writeToFile_reports host config type message w _ _
                  (writeToFile_body_first_fault host config type message w fault rest Hf)).
  - intros type message w node fault rest Hf Hdir Hfile Hbig.
    by rewrite (writeToFile_reports host config type message w _ _
                  (writeToFile_body_rename_fault host config type message w node fault rest
                     Hf Hdir Hfile Hbig)).
  - by rewrite record_run.
  - rewrite record_run. cbn [snd]. apply stdout_after_record.
  - rewrite record_run. cbn [snd].
    by destruct (after_record_two_faults host config (severity_name s) layer err options w
                   f1 f2 rest H) as [-> _].
  - rewrite record_run. cbn [snd].
    destruct (after_record_two_faults host config (severity_name s) layer err options w
                f1 f2 rest H) as [_ ->].
    by destruct (shouldLog config (severity_name s)).
Qed.

(** A disk without space: the next two calls fail, the warning is echoed
    all the same and no file appears. *)
Lemma write_failures_stay_inside_witness :
  let w := set_faults (λ _, [Some "ENOSPC: no space left on device";
                             Some "ENOSPC: no space left on device"]) fresh_world in
  let done := record sample_host development "warning" "db" (VStr "slow query") no_options w in
  writeToFile sample_host development "warning" "a line" w =
    (Normal tt,
     set_console (λ c, c ++ [Stderr "Failed to write log: ENOSPC: no space left on device"])
       (set_faults (λ _, [Some "ENOSPC: no space left on device"]) w)) ∧
  done.1 = Normal tt ∧
  fs done.2 = ∅ ∧
  console done.2 =
    [Stderr "Failed to write log: ENOSPC: no space left on device";
     Stderr "Failed to write log: ENOSPC: no space left on device";
     Stdout (colorize "warning"
               (messages sample_host (timestamp_of sample_date) "warning" "db"
                  (VStr "slow query") no_options).1)].
Proof.
  intros w done.
  destruct (write_failures_stay_inside sample_host development)
    as (_ & _ & Hfirst & _ & Hrec).
  destruct (Hrec SWarning "db" (VStr "slow query") no_options w) as (Hc & _ & Hboth).
  destruct (Hboth _ _ _ eq_refl) as [Hfs Hconsole].
  split; [exact (Hfirst "warning" "a line" w _ _ eq_refl)|].
  split; [exact Hc|]. split; [exact Hfs|exact Hconsole].
Defined.




(** C10: when no file-system call fails, [all(layer, message)] returns
    normally and has appended its line to [all.log] twice, each time to
    what the size check left of the file (so [all.log] ends with the line
    twice when the first copy did not take it over the maximum), while an
    entry of any other severity is appended once to the file of its
    severity and once to [all.log]. *)
Theorem all_is_written_twice host config (layer : string) (message : Value)
    (options : Options) (w : World) :
  faults w = [] →
  fs w !! log_file host config w "all" ≠ Some Dir →
  let old := content_of (fs w !! log_file host config w "all") in
  let line := line_of (messages host (timestamp_of (now w)) "all" layer message options).2 in
  let done := all host config layer message options w in
  done.1 = Normal tt ∧
  fs done.2 !! log_file host config w "all" =
    Some (File (keep (keep old +:+ line) +:+ line)) ∧
  ((Str.size (old +:+ line) ≤ MAX_LOG_SIZE)%N →
     fs done.2 !! log_file host config w "all" = Some (File (old +:+ line +:+ line))) ∧
  ∀ s, s ≠ SAll →
    fs w !! log_file host config w (severity_name s) ≠ Some Dir →
    let line_s :=
      line_of (messages host (timestamp_of (now w)) (severity_name s) layer message options).2 in
    let w_s := (record host config (severity_name s) layer message options w).2 in
    fs w_s !! log_file host config w (severity_name s) =
      Some (File (keep (content_of (fs w !! log_file host config w (severity_name s)))
                  +:+ line_s)) ∧
    fs w_s !! log_file host config w "all" = Some (File (keep old +:+ line_s)).
Proof.
  intros Hf Hd old line done. unfold done, all.
  rewrite record_run, rethrows_not_error by done. cbn [fst snd].
  pose proof (record_all_file host config layer message options w Hf Hd) as Hall.
  cbv zeta in Hall. fold old line in Hall.
  repeat split.
  - exact Hall.
  - intros Hsmall. rewrite Hall.
    rewrite StrFacts.size_app in Hsmall.
    rewrite (keep_small old) by lia.
    rewrite keep_small by (rewrite StrFacts.size_app; lia).
    by rewrite StrFacts.app_assoc.
  - rewrite record_run. cbn [snd].
    apply record_files; try done; [apply severity_name_no_dot|by destruct s].
  - rewrite record_run. cbn [snd].
    apply record_files; try done; [apply severity_name_no_dot|by destruct s].
Qed.

Lemma all_is_written_twice_witness :
  let line := line_of "2025-01-05 07:08:09.042 | ALL | DB | note" in
  fs (all sample_host development "db" (VStr "note") no_options fresh_world).2
    !! "/app/logs/2025-01-05/all.log" = Some (File (line +:+ line)) ∧
  fs (record sample_host development "info" "db" (VStr "note") no_options fresh_world).2
    !! "/app/logs/2025-01-05/all.log" =
    Some (File (line_of "2025-01-05 07:08:09.042 | INFO | DB | note")).
Proof.
  intros line.
  assert (Hd : fs fresh_world !! log_file sample_host development fresh_world "all" ≠ Some Dir)
    by (vm_compute; discriminate).
  destruct (all_is_written_twice sample_host development "db" (VStr "note") no_options
              fresh_world eq_refl Hd) as (_ & _ & Htwice & Hothers).
  split.
  - apply Htwice. vm_compute. discriminate.
  - apply (Hothers SInfo); [discriminate|vm_compute; discriminate].
Defined.

(* ===================================================================== *)
(** ** Further properties of the code *)
(* ===================================================================== *)

(** *** The time stamp *)

Lemma all_app cls a b : Str.all cls (a +:+ b) = Str.all cls a && Str.all cls b.
Proof.
  induction a as [|c a IH]; [done|]. rewrite StrFacts.app_cons. simpl.
  rewrite IH. by rewrite andb_assoc.
Qed.

Lemma pretty_N_char_digit x : Str.is_digit (pretty_N_char x) = true.
Proof. unfold pretty_N_char. by repeat case_match. Qed.

Lemma pretty_N_go_digits x s :
  Str.all Str.is_digit s = true → Str.all Str.is_digit (pretty_N_go x s) = true.
Proof.
  revert s. induction (N.lt_wf_0 x) as [x _ IH]; intros s Hs.
  destruct (decide (x = 0)%N) as [->|Hx]; [by rewrite pretty_N_go_0|].
  rewrite pretty_N_go_step by lia. apply IH.
  - apply N.div_lt; lia.
  - simpl. by rewrite pretty_N_char_digit.
Qed.

Lemma pretty_N_digits (n : N) : Str.all Str.is_digit (pretty n) = true.
Proof.
  unfold pretty, pretty_N. destruct (decide (n = 0)%N); [done|].
  by apply pretty_N_go_digits.
Qed.

Lemma pretty_N_go_length (k : nat) x s :
  (10 ^ N.of_nat k ≤ x < 10 ^ N.of_nat (S k))%N →
  String.length (pretty_N_go x s) = (S k + String.length s)%nat.
Proof.
  revert x s. induction k as [|k IH]; intros x s [Hlo Hhi].
  - change (10 ^ N.of_nat 0)%N with 1%N in Hlo. change (10 ^ N.of_nat 1)%N with 10%N in Hhi.
    rewrite pretty_N_go_step by lia.
    rewrite (N.div_small x 10) by lia. by rewrite pretty_N_go_0.
  - rewrite pretty_N_go_step.
    2:{ assert (0 < 10 ^ N.of_nat (S k))%N by (apply N.neq_0_lt_0, N.pow_nonzero; lia). lia. }
    rewrite IH; [simpl; lia|].
    rewrite !Nat2N.inj_succ, !N.pow_succ_r' in *. split.
    + apply N.div_le_lower_bound; lia.
    + apply N.Div0.div_lt_upper_bound; lia.
Qed.

Lemma pretty_N_length (k : nat) (n : N) :
  (10 ^ N.of_nat k ≤ n < 10 ^ N.of_nat (S k))%N → String.length (pretty n) = S k.
Proof.
  intros H. unfold pretty, pretty_N.
  assert (0 < 10 ^ N.of_nat k)%N by (apply N.neq_0_lt_0, N.pow_nonzero; lia).
  destruct (decide (n = 0)%N); [lia|].
  rewrite (pretty_N_go_length k) by done. simpl. lia.
Qed.

Lemma pretty_N_length_le (k : nat) (n : N) :
  (n < 10 ^ N.of_nat (S k))%N → (1 ≤ String.length (pretty n) ≤ S k)%nat.
Proof.
  induction k as [|k IH]; intros H.
  - change (10 ^ N.of_nat 1)%N with 10%N in H.
    destruct (decide (n = 0)%N) as [->|]; [by compute|].
    rewrite (pretty_N_length 0); [lia|]. change (10 ^ N.of_nat 0)%N with 1%N.
    change (10 ^ N.of_nat 1)%N with 10%N. lia.
  - destruct (decide (n < 10 ^ N.of_nat (S k))%N) as [Hlt|Hge].
    + specialize (IH Hlt). lia.
    + rewrite (pretty_N_length (S k)); lia.
Qed.

Lemma length_replicate n c : String.length (Str.replicate n c) = n.
Proof. induction n; simpl; congruence. Qed.

Lemma length_padStart n c s :
  String.length (Str.padStart n c s) = Nat.max n (String.length s).
Proof. unfold Str.padStart. rewrite StrFacts.length_app, length_replicate. lia. Qed.

Lemma all_replicate cls n c : cls c = true → Str.all cls (Str.replicate n c) = true.
Proof. intros H. induction n; simpl; [done|]. by rewrite H. Qed.

Lemma all_impl (p q : ascii → bool) s :
  (∀ c, p c = true → q c = true) → Str.all p s = true → Str.all q s = true.
Proof.
  intros H. induction s as [|c s IH]; [done|]. simpl.
  intros [Hc Hs]%andb_true_iff. by rewrite (H c Hc), IH.
Qed.

Lemma pretty_N_stamp (x : N) : Str.all is_stamp_char (pretty x) = true.
Proof.
  apply (all_impl Str.is_digit); [|apply pretty_N_digits].
  intros c Hc. unfold is_stamp_char. by rewrite Hc.
Qed.

Lemma all_padStart_digits n (x : N) :
  Str.all is_stamp_char (Str.padStart n "0" (pretty x)) = true.
Proof.
  unfold Str.padStart. rewrite all_app, all_replicate by done. apply pretty_N_stamp.
Qed.

Lemma all_not_mem cls c s : cls c = false → Str.all cls s = true → Str.mem c s = false.
Proof.
  intros Hc. induction s as [|x s IH]; [done|]. simpl.
  intros [Hx Hs]%andb_true_iff. rewrite (IH Hs), orb_false_r.
  apply Ascii.eqb_neq. intros ->. congruence.
Qed.

Lemma timestamp_of_chars (d : JsDate) : Str.all is_stamp_char (timestamp_of d) = true.
Proof.
  unfold timestamp_of. cbv zeta.
  by rewrite !all_app, !all_padStart_digits, pretty_N_stamp.
Qed.

(** X1: the text of [Logger.timestamp()] is made of digits and of the
    characters "-", " ", ":" and "." only, so it holds no escape character
    and no line break; when the calendar fields are in the ranges that
    [Date] gives them and the year has four digits, it is 23 characters
    long. *)
Theorem timestamp_has_fixed_width (d : JsDate) :
  Str.all is_stamp_char (timestamp_of d) = true ∧
  plain (timestamp_of d) ∧
  Str.mem Str.LF (timestamp_of d) = false ∧
  (in_range d → String.length (timestamp_of d) = 23%nat).
Proof.
  pose proof (timestamp_of_chars d) as Hall.
  split; [done|]. split; [by apply (all_not_mem is_stamp_char)|].
  split; [by apply (all_not_mem is_stamp_char)|].
  intros (Hy & Hmo & Hd & Hh & Hmi & Hs & Hms).
  unfold timestamp_of. cbv zeta.
  rewrite !StrFacts.length_app, !length_padStart.
  rewrite (pretty_N_length 3 (getFullYear d)) by (change (10 ^ N.of_nat 3)%N with 1000%N;
    change (10 ^ N.of_nat 4)%N with 10000%N; lia).
  pose proof (pretty_N_length_le 1 (getMonth d + 1)) as H1.
  pose proof (pretty_N_length_le 1 (getDate d)) as H2.
  pose proof (pretty_N_length_le 1 (getHours d)) as H3.
  pose proof (pretty_N_length_le 1 (getMinutes d)) as H4.
  pose proof (pretty_N_length_le 1 (getSeconds d)) as H5.
  pose proof (pretty_N_length_le 2 (getMilliseconds d)) as H6.
  change (10 ^ N.of_nat 2)%N with 100%N in *. change (10 ^ N.of_nat 3)%N with 1000%N in *.
  specialize (H1 ltac:(lia)). specialize (H2 ltac:(lia)). specialize (H3 ltac:(lia)).
  specialize (H4 ltac:(lia)). specialize (H5 ltac:(lia)). specialize (H6 ltac:(lia)).
  simpl String.length. lia.
Qed.

Lemma timestamp_has_fixed_width_witness :
  String.length (timestamp_of sample_date) = 23%nat.
Proof.
  apply (timestamp_has_fixed_width sample_date).
  unfold in_range, sample_date. simpl. lia.
Defined.

(** *** The directories *)

Section DirFacts.
Context (host : Host) (config : Config).

Lemma todayDir_run w :
  todayDir host config w =
    match fs w !! today_dir host config w with
    | Some _ => (Normal (today_dir host config w), w)
    | None =>
        match mkdirSync (today_dir host config w) w with
        | (Normal _, w1) => (Normal (today_dir host config w), w1)
        | (Throw v, w1) => (Throw v, w1)
        end
    end.
Proof.
  unfold todayDir. rewrite bind_run. unfold get. cbv beta iota.
  change (path_join (LOG_DIR host config) (Str.take 10 (toISOString (now w))))
    with (today_dir host config w).
  rewrite bind_run, existsSync_run. cbv beta iota.
  destruct (fs w !! today_dir host config w); [done|].
  rewrite bind_run. by destruct (mkdirSync (today_dir host config w) w) as [[[]|v] w1].
Qed.

Lemma mkdirSync_missing p w :
  fs w !! p = None →
  mkdirSync p w =
    match faults w with
    | Some msg :: rest => (Throw (io_error msg), set_faults (λ _, rest) w)
    | None :: rest => (Normal tt, set_fs (insert p Dir) (set_faults (λ _, rest) w))
    | [] => (Normal tt, set_fs (insert p Dir) w)
    end.
Proof.
  intros Hp. unfold mkdirSync, fallible.
  destruct (faults w) as [|[msg|] rest]; [|done|].
  - rewrite bind_run. unfold get. by rewrite Hp.
  - rewrite bind_run. unfold get. cbn [fs set_faults]. by rewrite Hp.
Qed.

Lemma init_run w :
  init host config w =
    match fs w !! LOG_DIR host config with
    | Some _ => (Normal tt, w)
    | None => mkdirSync (LOG_DIR host config) w
    end.
Proof.
  unfold init. rewrite bind_run, existsSync_run. cbv beta iota.
  by destruct (fs w !! LOG_DIR host config).
Qed.

End DirFacts.

(** X2: [Logger.todayDir()] leaves every node of the file system that
    exists as it is, and it neither creates nor changes the log file of
    a severity.  When something exists at the path of the directory of the
    day the call returns the path and the world is unchanged: no call is
    made that can fail.  When nothing is there, the directory is there
    after a normal return; when [mkdirSync] fails, its error leaves
    [todayDir].  After a normal return a second call changes nothing. *)
Theorem todayDir_creates_only_what_is_missing host config (w : World) :
  let dir := today_dir host config w in
  let done := todayDir host config w in
  (∀ p node, fs w !! p = Some node → fs done.2 !! p = Some node) ∧
  (∀ s, fs done.2 !! log_file host config w (severity_name s) =
        fs w !! log_file host config w (severity_name s)) ∧
  (is_Some (fs w !! dir) → done = (Normal dir, w)) ∧
  (fs w !! dir = None →
     match faults w with
     | Some msg :: rest => done.1 = Throw (io_error msg) ∧ faults done.2 = rest
     | _ => done.1 = Normal dir ∧ fs done.2 !! dir = Some Dir
     end) ∧
  (done.1 = Normal dir → todayDir host config done.2 = (Normal dir, done.2)).
Proof.
  intros dir done. unfold done. rewrite todayDir_run. fold dir.
  assert (Hlog : ∀ s, log_file host config w (severity_name s) ≠ dir)
    by (intros s; apply log_file_ne_dir).
  destruct (fs w !! dir) as [node|] eqn:Edir.
  - cbn [fst snd]. repeat split; try done.
    rewrite todayDir_run. fold dir. change (today_dir host config w) with dir. by rewrite Edir.
  - rewrite mkdirSync_missing by done.
    destruct (faults w) as [|[msg|] rest] eqn:Ef; cbn [fst snd fs faults set_fs set_faults];
      (split; [|split; [|split; [|split]]]); try done;
      try (by intros [? ?]);
      try (intros p node Hp; rewrite lookup_insert_ne; [done|]; intros <-; congruence);
      try (intros s; by rewrite lookup_insert_ne);
      try (intros _; split; [done|by rewrite lookup_insert_eq]).
    + intros _. rewrite todayDir_run. cbn [fs set_fs now].
      change (today_dir host config (set_fs (insert dir Dir) w)) with dir.
      by rewrite lookup_insert_eq.
    + intros _. rewrite todayDir_run. cbn [fs set_fs now].
      change (today_dir host config (set_fs (insert dir Dir) (set_faults (λ _, rest) w)))
        with dir.
      by rewrite lookup_insert_eq.
Qed.

Lemma todayDir_creates_only_what_is_missing_witness :
  let done := todayDir sample_host development fresh_world in
  done.1 = Normal "/app/logs/2025-01-05" ∧
  fs done.2 !! "/app/logs/2025-01-05" = Some Dir ∧
  todayDir sample_host development done.2 = (Normal "/app/logs/2025-01-05", done.2).
Proof.
  intros done.
  destruct (todayDir_creates_only_what_is_missing sample_host development fresh_world)
    as (_ & _ & _ & Hnew & Hagain).
  specialize (Hnew eq_refl). cbn [faults fresh_world] in Hnew. destruct Hnew as [H1 H2].
  split; [exact H1|]. split; [exact H2|]. exact (Hagain H1).
Defined.

(** X3: [Logger.init()] does nothing when something exists at the log
    directory; when nothing is there, a failure of [mkdirSync] is thrown
    to the caller ([init] has no [try] around it), and without a failure
    the directory is created.  No node that exists is touched. *)
Theorem init_failure_is_not_caught host config (w : World) :
  let dir := LOG_DIR host config in
  (is_Some (fs w !! dir) → init host config w = (Normal tt, w)) ∧
  (fs w !! dir = None →
     (∀ msg rest, faults w = Some msg :: rest →
        init host config w = (Throw (io_error msg), set_faults (λ _, rest) w)) ∧
     (faults w = [] → init host config w = (Normal tt, set_fs (insert dir Dir) w))) ∧
  (∀ p node, fs w !! p = Some node → fs (init host config w).2 !! p = Some node).
Proof.
  intros dir. rewrite init_run. fold dir.
  destruct (fs w !! dir) as [node|] eqn:Edir.
  - repeat split; try done.
  - rewrite mkdirSync_missing by done. split; [by intros [? ?]|]. split.
    + intros _. split; [by intros msg rest ->|by intros ->].
    + intros p node Hp.
      destruct (faults w) as [|[msg|] rest]; cbn [snd fs set_fs set_faults]; try done;
        (rewrite lookup_insert_ne; [done|]; intros <-; congruence).
Qed.

Lemma init_failure_is_not_caught_witness :
  init sample_host development
    (set_faults (λ _, [Some "EACCES: permission denied, mkdir '/app/logs'"]) fresh_world) =
    (Throw (io_error "EACCES: permission denied, mkdir '/app/logs'"), fresh_world).
Proof.
  exact (proj1 (proj1 (proj2 (init_failure_is_not_caught sample_host development
           (set_faults (λ _, [Some "EACCES: permission denied, mkdir '/app/logs'"]) fresh_world)))
           eq_refl) _ _ eq_refl).
Defined.

(** *** A failure after the rotation *)

Section AppendFault.
Context (host : Host) (config : Config).

Lemma writeToFile_body_append_fault type msg w node fault rest :
  faults w = None :: None :: Some fault :: rest →
  is_Some (fs w !! today_dir host config w) →
  fs w !! log_file host config w type = Some node →
  (MAX_LOG_SIZE < node_size node)%N →
  writeToFile_body host config type msg w =
    (Throw (io_error fault),
     set_faults (λ _, rest)
       (set_fs (λ m, <[rotated_file host config w type := node]>
                       (delete (log_file host config w type) m)) w)).
Proof.
  intros Hf [dnode Hdir] Hfile Hbig. unfold writeToFile_body, todayDir.
  rewrite bind_run, bind_run. unfold get at 1. cbv beta iota.
  rewrite bind_run, existsSync_run. cbv beta iota.
  change (path_join (LOG_DIR host config) (Str.take 10 (toISOString (now w))))
    with (today_dir host config w).
  rewrite Hdir.
  rewrite bind_run. unfold mret at 1, Js_ret at 1. cbv beta iota.
  unfold mret at 1, Js_ret at 1. cbv beta iota.
  rewrite bind_run, existsSync_run. cbv beta iota.
  change (path_join (today_dir host config w) (type +:+ ".log"))
    with (log_file host config w type).
  rewrite Hfile.
  rewrite bind_run, bind_run. unfold statSync_size at 1, fallible at 1. rewrite Hf.
  rewrite bind_run. unfold get at 1. cbv beta iota. cbn [fs set_faults]. rewrite Hfile.
  assert ((match node with
           | File content => mret (Str.size content)
           | Dir => mret 4096%N
           end : Js N) = mret (node_size node)) as -> by (by destruct node).
  unfold mret at 1, Js_ret at 1. cbv beta iota.
  apply N.ltb_lt in Hbig. rewrite Hbig.
  rewrite bind_run. unfold get at 1. cbv beta iota.
  rewrite bind_run, bind_run. unfold get at 1. cbv beta iota.
  rewrite bind_run, existsSync_run. cbv beta iota. cbn [fs set_faults now].
  change (path_join (LOG_DIR host config) (Str.take 10 (toISOString (now w))))
    with (today_dir host config w).
  rewrite Hdir.
  rewrite bind_run. unfold mret at 1, Js_ret at 1. cbv beta iota.
  unfold mret at 1, Js_ret at 1. cbv beta iota.
  unfold renameSync at 1, fallible at 1. cbn [faults set_faults].
  rewrite bind_run. unfold get at 1. cbv beta iota. cbn [fs set_faults]. rewrite Hfile.
  unfold modify at 1. cbv beta iota.
  unfold appendFileSync, fallible. cbn [faults set_faults set_fs].
  unfold rotated_file, set_faults, set_fs. destruct w. reflexivity.
Qed.

End AppendFault.

(** X4: the canonical file is above the maximum, [statSync] and
    [renameSync] succeed and the [appendFileSync] after them fails.
    [writeToFile] returns normally and reports the failure on standard
    error; the old content is under the rotated name, nothing is left at
    the canonical name, the line is lost, and no other path has changed. *)
Theorem failed_append_after_rotation_loses_the_file host config (type message : string)
    (w : World) (node : Node) (fault : string) (rest : list (option string)) :
  faults w = None :: None :: Some fault :: rest →
  is_Some (fs w !! today_dir host config w) →
  fs w !! log_file host config w type = Some node →
  (MAX_LOG_SIZE < node_size node)%N →
  let done := writeToFile host config type message w in
  done.1 = Normal tt ∧
  console done.2 = console w ++ [Stderr ("Failed to write log: " +:+ fault)] ∧
  fs done.2 !! log_file host config w type = None ∧
  fs done.2 !! rotated_file host config w type = Some node ∧
  (∀ p, p ≠ log_file host config w type → p ≠ rotated_file host config w type →
        fs done.2 !! p = fs w !! p) ∧
  faults done.2 = rest.
Proof.
  intros Hf Hdir Hfile Hbig done. unfold done.
  rewrite (writeToFile_reports host config type message w _ _
             (writeToFile_body_append_fault host config type message w node fault rest
                Hf Hdir Hfile Hbig)).
  cbn [fst snd console fs faults set_console set_faults set_fs message_of io_error].
  repeat split.
  - rewrite lookup_insert_ne by apply rotated_file_ne_log. by rewrite lookup_delete_eq.
  - by rewrite lookup_insert_eq.
  - intros p H1 H2. by rewrite lookup_insert_ne, lookup_delete_ne.
Qed.

Lemma failed_append_after_rotation_loses_the_file_witness :
  let done := writeToFile sample_host development "info" "one more line" overfull_world in
  done.1 = Normal tt ∧
  console done.2 = [Stderr "Failed to write log: ENOSPC: no space left on device"] ∧
  fs done.2 !! "/app/logs/2025-01-05/info.log" = None ∧
  fs done.2 !! "/app/logs/2025-01-05/info.1736060889042.log" =
    Some (File (Str.fill (MAX_LOG_SIZE + 1) "x")).
Proof.
  intros done.
  assert (Hdir : is_Some (fs overfull_world !! today_dir sample_host development overfull_world)).
  { change (today_dir sample_host development overfull_world) with "/app/logs/2025-01-05".
    unfold overfull_world, fs. rewrite lookup_insert_eq. eauto. }
  assert (Hfile : fs overfull_world !! log_file sample_host development overfull_world "info" =
                  Some (File (Str.fill (MAX_LOG_SIZE + 1) "x"))).
  { change (log_file sample_host development overfull_world "info")
      with "/app/logs/2025-01-05/info.log".
    unfold overfull_world, fs. rewrite lookup_insert_ne by discriminate.
    apply lookup_singleton_eq. }
  assert (Hbig : (MAX_LOG_SIZE < node_size (File (Str.fill (MAX_LOG_SIZE + 1) "x")))%N).
  { unfold node_size. rewrite StrFacts.size_fill. lia. }
  destruct (failed_append_after_rotation_loses_the_file sample_host development "info"
              "one more line" overfull_world _ "ENOSPC: no space left on device" []
              eq_refl Hdir Hfile Hbig) as (H1 & H2 & H3 & H4 & _).
  split; [exact H1|]. split; [exact H2|]. split; [exact H3|exact H4].
Defined.

(** *** Frames that parse to their fields *)

Lemma occurrences_app c a b :
  occurrences c (a +:+ b) = occurrences c a + occurrences c b.
Proof.
  induction a as [|x a IH]; [done|]. rewrite StrFacts.app_cons. simpl. rewrite IH. lia.
Qed.

Lemma occurrences_none c cls s :
  cls c = false → Str.all cls s = true → occurrences c s = 0.
Proof.
  intros Hc. induction s as [|a s IH]; [done|]. simpl.
  intros [Ha Hs]%andb_true_iff. rewrite (IH Hs).
  destruct (Ascii.eqb_spec a c) as [->|]; [congruence|done].
Qed.

Lemma plusG_stop {X} cls u rest (k : string → option X) x :
  run_of cls u → stops cls rest → k rest = Some x →
  Regex.plusG cls (u +:+ rest) k = Some x.
Proof.
  intros [Hu Ha] Hstop Hk. induction u as [|c u IH]; [done|].
  rewrite StrFacts.app_cons. simpl in *. apply andb_true_iff in Ha as [Hc Ha]. rewrite Hc.
  destruct u as [|d u].
  - rewrite StrFacts.app_nil_l.
    assert (Regex.plusG cls rest k = None) as ->; [|done].
    destruct rest as [|r rest]; [done|]. simpl in *. by rewrite Hstop.
  - by rewrite IH.
Qed.

Lemma plusG_exact {X} cls u rest (k : string → option X) x :
  run_of cls u → k rest = Some x →
  (∀ v w, rest = v +:+ w → v ≠ "" → k w = None) →
  Regex.plusG cls (u +:+ rest) k = Some x.
Proof.
  intros [Hu Ha] Hk Hfail. induction u as [|c u IH]; [done|].
  rewrite StrFacts.app_cons. simpl in *. apply andb_true_iff in Ha as [Hc Ha]. rewrite Hc.
  destruct u as [|d u].
  - rewrite StrFacts.app_nil_l.
    destruct (Regex.plusG cls rest k) as [y|] eqn:E; [|done].
    apply plusG_sound in E as (v & w & -> & [Hv _] & Hy).
    by rewrite (Hfail v w eq_refl Hv) in Hy.
  - by rewrite IH.
Qed.

Lemma plusL_exact {X} cls u rest (k : string → option X) x :
  run_of cls u → k rest = Some x →
  (∀ v w, u = v +:+ w → v ≠ "" → w ≠ "" → k (w +:+ rest) = None) →
  Regex.plusL cls (u +:+ rest) k = Some x.
Proof.
  intros [Hu Ha] Hk. induction u as [|c u IH]; intros Hfail; [done|].
  rewrite StrFacts.app_cons. simpl in *. apply andb_true_iff in Ha as [Hc Ha]. rewrite Hc.
  destruct u as [|d u].
  - rewrite StrFacts.app_nil_l. by rewrite Hk.
  - rewrite (Hfail (String c "") (String d u)) by done.
    apply IH; [done|done|].
    intros v w E Hv Hw. apply (Hfail (String c v) w); [|done|done].
    by rewrite StrFacts.app_cons, E.
Qed.

Lemma space_is_not_a c : Str.is_space c = true → Ascii.eqb "a" c = false.
Proof. by destruct c as [[] [] [] [] [] [] [] []]. Qed.

Lemma digit_is_not_colon c : Str.is_digit c = true → Ascii.eqb c ":" = false.
Proof. by destruct c as [[] [] [] [] [] [] [] []]. Qed.

Lemma digit_is_not_paren c : Str.is_digit c = true → Ascii.eqb c "(" = false.
Proof. by destruct c as [[] [] [] [] [] [] [] []]. Qed.

Lemma space_is_not_paren c : Str.is_space c = true → Ascii.eqb c "(" = false.
Proof. by destruct c as [[] [] [] [] [] [] [] []]. Qed.

Lemma no_space_is_dot c : negb (Str.is_space c) = true → Str.is_dot c = true.
Proof. by destruct c as [[] [] [] [] [] [] [] []]. Qed.

Lemma search_here r s caps :
  Regex.match_here r s = Some caps → Regex.search r s = Some caps.
Proof. intros H. destruct s; simpl; by rewrite H. Qed.

Lemma search_skip_named indent s :
  Str.all Str.is_space indent = true →
  Regex.search named_frame_re (indent +:+ s) = Regex.search named_frame_re s.
Proof.
  induction indent as [|c indent IH]; [done|]. cbn [Str.all].
  intros [Hc Hi]%andb_true_iff. rewrite StrFacts.app_cons.
  change (Regex.search named_frame_re (String c (indent +:+ s)))
    with (match Regex.match_here named_frame_re (String c (indent +:+ s)) with
          | Some caps => Some caps
          | None => Regex.search named_frame_re (indent +:+ s)
          end).
  assert (Regex.match_here named_frame_re (String c (indent +:+ s)) = None) as ->.
  { unfold Regex.match_here, named_frame_re. cbn [Regex.exec Regex.lit].
    by rewrite (space_is_not_a c Hc). }
  by apply IH.
Qed.

Lemma search_skip_bare indent s :
  Str.all Str.is_space indent = true →
  Regex.search bare_frame_re (indent +:+ s) = Regex.search bare_frame_re s.
Proof.
  induction indent as [|c indent IH]; [done|]. cbn [Str.all].
  intros [Hc Hi]%andb_true_iff. rewrite StrFacts.app_cons.
  change (Regex.search bare_frame_re (String c (indent +:+ s)))
    with (match Regex.match_here bare_frame_re (String c (indent +:+ s)) with
          | Some caps => Some caps
          | None => Regex.search bare_frame_re (indent +:+ s)
          end).
  assert (Regex.match_here bare_frame_re (String c (indent +:+ s)) = None) as ->.
  { unfold Regex.match_here, bare_frame_re. cbn [Regex.exec Regex.lit].
    by rewrite (space_is_not_a c Hc). }
  by apply IH.
Qed.

Lemma two_colons r1 r2 u caps :
  Matches (Regex.Seq (Regex.Lit ":") (Regex.Seq r1 (Regex.Seq (Regex.Lit ":") r2))) u caps →
  2 ≤ occurrences ":" u.
Proof.
  intros H. inversion H as [| | | |? ? ? ? ? ? H1 H2]; subst. clear H.
  inversion H1; subst. clear H1.
  inversion H2 as [| | | |? ? ? ? ? ? H3 H4]; subst. clear H2.
  inversion H4 as [| | | |? ? ? ? ? ? H5 H6]; subst. clear H4.
  inversion H5; subst. clear H5.
  rewrite !occurrences_app. simpl. lia.
Qed.

Lemma proper_suffix_has_one_colon l c close v w :
  Str.all Str.is_digit l = true → Str.all Str.is_digit c = true →
  occurrences ":" close = 0 →
  ":" +:+ l +:+ ":" +:+ c +:+ close = v +:+ w → v ≠ "" →
  occurrences ":" w < 2.
Proof.
  intros Hl Hc Hclose E Hv.
  assert (Hall : occurrences ":" (":" +:+ l +:+ ":" +:+ c +:+ close) = 2).
  { rewrite !occurrences_app, Hclose.
    rewrite (occurrences_none ":" Str.is_digit l), (occurrences_none ":" Str.is_digit c);
      done. }
  rewrite E, occurrences_app in Hall.
  destruct v as [|a v]; [done|].
  rewrite StrFacts.app_cons in E. injection E as <- _. simpl in Hall. lia.
Qed.

Lemma stops_cons cls c s : cls c = false → stops cls (String c s).
Proof. done. Qed.

Lemma stops_no_space f rest : f ≠ "" → no_space f → stops Str.is_space (f +:+ rest).
Proof.
  intros Hf Hn. destruct f as [|a f]; [done|]. rewrite StrFacts.app_cons.
  unfold no_space in Hn. simpl in *. apply andb_true_iff in Hn as [Ha _].
  by apply negb_true_iff.
Qed.

Lemma no_space_suffix v w : no_space (v +:+ w) → no_space w.
Proof.
  unfold no_space. induction v as [|a v IH]; [done|]. rewrite StrFacts.app_cons. simpl.
  intros [_ H]%andb_true_iff. auto.
Qed.

Lemma no_space_run f : f ≠ "" → no_space f → run_of Str.is_dot f.
Proof.
  intros Hf Hn. split; [done|]. unfold no_space in Hn.
  induction f as [|a f IH]; [done|]. simpl in *. apply andb_true_iff in Hn as [Ha Hn].
  rewrite (no_space_is_dot a Ha). destruct f; [done|]. by apply IH.
Qed.

Lemma match_named_exact ws1 f ws2 file l c :
  run_of Str.is_space ws1 → f ≠ "" → no_space f → run_of Str.is_space ws2 →
  run_of Str.is_dot file → run_of Str.is_digit l → run_of Str.is_digit c →
  Regex.match_here named_frame_re
    ("at" +:+ ws1 +:+ f +:+ ws2 +:+ "(" +:+ file +:+ ":" +:+ l +:+ ":" +:+ c +:+ ")") =
    Some [f; file; l; c].
Proof.
  intros Hws1 Hf Hnf Hws2 Hfile Hl Hc.
  unfold Regex.match_here, named_frame_re. cbv zeta. cbn [Regex.exec].
  rewrite lit_complete.
  apply plusG_stop; [done|by apply stops_no_space|].
  apply plusL_exact; [by apply no_space_run| |].
  - apply plusG_stop; [done|by apply stops_cons|].
    rewrite lit_complete.
    apply plusG_exact; [done| |].
    + rewrite lit_complete.
      apply plusG_stop; [done|by apply stops_cons|].
      rewrite lit_complete.
      apply plusG_stop; [done|by apply stops_cons|].
      rewrite (lit_complete ")" "").
      by rewrite !consumed_app.
    + intros v w E Hv.
      match goal with |- ?lhs = None => destruct lhs as [y|] eqn:Ey; [|done] end.
      exfalso.
      assert (Hw : 2 ≤ occurrences ":" w).
      { pose proof (exec_sound
          (Regex.Seq (Regex.Lit ":") (Regex.Seq (Regex.Group (Regex.PlusG Str.is_digit))
             (Regex.Seq (Regex.Lit ":") (Regex.Seq (Regex.Group (Regex.PlusG Str.is_digit))
                (Regex.Lit ")")))))
          w ([] ++ [Regex.consumed (f +:+ ws2 +:+ "(" +:+ file +:+ ":" +:+ l +:+ ":" +:+ c +:+ ")")
                      (ws2 +:+ "(" +:+ file +:+ ":" +:+ l +:+ ":" +:+ c +:+ ")")]
              ++ [Regex.consumed (file +:+ ":" +:+ l +:+ ":" +:+ c +:+ ")") w])
          (λ _ caps, Some caps) y Ey) as (u & s' & cs & -> & Hm & _).
        apply two_colons in Hm. rewrite occurrences_app. lia. }
      pose proof (proper_suffix_has_one_colon l c ")" v w (proj2 Hl) (proj2 Hc) eq_refl E Hv).
      lia.
  - intros v w E Hv Hw.
    assert (Hn : no_space w) by (apply (no_space_suffix v); by rewrite <- E).
    destruct w as [|a w]; [done|]. rewrite StrFacts.app_cons.
    unfold no_space in Hn. simpl in Hn. apply andb_true_iff in Hn as [Ha _].
    apply negb_true_iff in Ha. simpl. by rewrite Ha.
Qed.

Lemma stops_starts_clean file rest :
  file ≠ "" → starts_clean file → stops Str.is_space (file +:+ rest).
Proof. intros Hf Hs. destruct file as [|a file]; [done|]. by rewrite StrFacts.app_cons. Qed.

Lemma plusG_all {X} cls u (k : string → option X) x :
  run_of cls u → k "" = Some x → Regex.plusG cls u k = Some x.
Proof.
  intros Hu Hk. pose proof (plusG_stop cls u "" k x Hu I Hk) as H.
  by rewrite StrFacts.app_nil_r in H.
Qed.

Lemma consumed_all u : Regex.consumed u "" = u.
Proof. pose proof (consumed_app u "") as H. by rewrite StrFacts.app_nil_r in H. Qed.

Lemma match_bare_exact ws1 file l c :
  run_of Str.is_space ws1 → starts_clean file →
  run_of Str.is_dot file → run_of Str.is_digit l → run_of Str.is_digit c →
  Regex.match_here bare_frame_re ("at" +:+ ws1 +:+ file +:+ ":" +:+ l +:+ ":" +:+ c) =
    Some [file; l; c].
Proof.
  intros Hws1 Hclean Hfile Hl Hc.
  unfold Regex.match_here, bare_frame_re. cbv zeta. cbn [Regex.exec].
  rewrite lit_complete.
  apply plusG_stop; [done|by apply stops_starts_clean, Hclean; apply Hfile|].
  apply plusG_exact; [done| |].
  - rewrite lit_complete.
    apply plusG_stop; [done|by apply stops_cons|].
    rewrite lit_complete.
    apply plusG_all; [done|].
    by rewrite consumed_all, !consumed_app.
  - intros v w E Hv.
    match goal with |- ?lhs = None => destruct lhs as [y|] eqn:Ey; [|done] end.
    exfalso.
    assert (Hw : 2 ≤ occurrences ":" w).
    { pose proof (exec_sound
        (Regex.Seq (Regex.Lit ":") (Regex.Seq (Regex.Group (Regex.PlusG Str.is_digit))
           (Regex.Seq (Regex.Lit ":") (Regex.Group (Regex.PlusG Str.is_digit)))))
        w ([] ++ [Regex.consumed (file +:+ ":" +:+ l +:+ ":" +:+ c) w])
        (λ _ caps, Some caps) y Ey) as (u & s' & cs & -> & Hm & _).
      apply two_colons in Hm. rewrite occurrences_app. lia. }
    assert (E' : ":" +:+ l +:+ ":" +:+ c +:+ "" = v +:+ w) by (by rewrite StrFacts.app_nil_r).
    pose proof (proper_suffix_has_one_colon l c "" v w (proj2 Hl) (proj2 Hc) eq_refl E' Hv).
    lia.
Qed.

Lemma trimEnd_no_space f : no_space f → Str.trimEnd f = f.
Proof.
  unfold no_space. induction f as [|a f IH]; [done|]. simpl.
  intros [Ha Hf]%andb_true_iff. apply negb_true_iff in Ha. rewrite Ha. simpl.
  by rewrite IH.
Qed.

Lemma trim_no_space f : no_space f → Str.trim f = f.
Proof.
  intros Hf. unfold Str.trim.
  assert (Str.trimStart f = f) as ->; [|by apply trimEnd_no_space].
  destruct f as [|a f]; [done|]. unfold no_space in Hf. simpl in *.
  apply andb_true_iff in Hf as [Ha _]. apply negb_true_iff in Ha. by rewrite Ha.
Qed.

Lemma named_frame_has_paren u function file l c :
  named_frame u function file l c → Str.mem "(" u = true.
Proof.
  intros (ws1 & ws2 & -> & _). rewrite !mem_app. simpl. by rewrite !orb_true_r.
Qed.

(** X5: a stack line that is an indentation, "at", white space, a
    function without white space, white space and
    "(<file>:<line>:<column>)" parses to exactly these four fields,
    whatever characters the file is made of (colons and parentheses
    included); a line that is an indentation, "at", white space and
    "<file>:<line>:<column>", with no opening parenthesis in the file,
    parses to the frame of the function "anonymous" with these fields. *)
Theorem canonical_frames_parse_exactly (indent ws1 file l c : string) :
  Str.all Str.is_space indent = true →
  run_of Str.is_space ws1 →
  run_of Str.is_dot file → run_of Str.is_digit l → run_of Str.is_digit c →
  (∀ f ws2,
     f ≠ "" → no_space f → run_of Str.is_space ws2 →
     parseLine (indent +:+ "at" +:+ ws1 +:+ f +:+ ws2 +:+ "(" +:+ file +:+ ":" +:+ l +:+
                ":" +:+ c +:+ ")") = Frame f file l c) ∧
  (starts_clean file → Str.mem "(" file = false →
     parseLine (indent +:+ "at" +:+ ws1 +:+ file +:+ ":" +:+ l +:+ ":" +:+ c) =
       Frame "anonymous" file l c).
Proof.
  intros Hindent Hws1 Hfile Hl Hc. split.
  - intros f ws2 Hf Hnf Hws2. unfold parseLine.
    rewrite search_skip_named by done.
    rewrite (search_here _ _ _ (match_named_exact ws1 f ws2 file l c
                                  Hws1 Hf Hnf Hws2 Hfile Hl Hc)).
    by rewrite trim_no_space.
  - intros Hclean Hparen. unfold parseLine.
    pose proof (search_named (indent +:+ "at" +:+ ws1 +:+ file +:+ ":" +:+ l +:+ ":" +:+ c))
      as Hn.
    destruct (Regex.search named_frame_re _) as [caps|].
    + exfalso. destruct Hn as (pre & u & post & f' & file' & l' & c' & _ & E & Hu).
      apply named_frame_has_paren in Hu.
      assert (Hline : Str.mem "(" (indent +:+ "at" +:+ ws1 +:+ file +:+ ":" +:+ l +:+ ":" +:+ c)
                      = false).
      { rewrite !mem_app, Hparen.
        rewrite (all_not_mem Str.is_space "(" indent), (all_not_mem Str.is_space "(" ws1),
          (all_not_mem Str.is_digit "(" l), (all_not_mem Str.is_digit "(" c);
          try done; [apply Hc|apply Hl|apply Hws1]. }
      rewrite E, !mem_app, Hu in Hline. by rewrite orb_true_r in Hline.
    + rewrite search_skip_bare by done.
      by rewrite (search_here _ _ _ (match_bare_exact ws1 file l c Hws1 Hclean Hfile Hl Hc)).
Qed.

Lemma canonical_frames_parse_exactly_witness :
  parseLine "    at Object.<anonymous> (/app/src/db.js:10:5)" =
    Frame "Object.<anonymous>" "/app/src/db.js" "10" "5" ∧
  parseLine "    at file:///app/src/index.js:3:1" =
    Frame "anonymous" "file:///app/src/index.js" "3" "1".
Proof.
  assert (Hrun : ∀ cls s, s ≠ "" → Str.all cls s = true → run_of cls s) by (by split).
  assert (Hsp : run_of Str.is_space " ") by (apply Hrun; [discriminate|reflexivity]).
  assert (H10 : run_of Str.is_digit "10") by (apply Hrun; [discriminate|reflexivity]).
  assert (H5 : run_of Str.is_digit "5") by (apply Hrun; [discriminate|reflexivity]).
  assert (H3 : run_of Str.is_digit "3") by (apply Hrun; [discriminate|reflexivity]).
  assert (H1 : run_of Str.is_digit "1") by (apply Hrun; [discriminate|reflexivity]).
  assert (Hdb : run_of Str.is_dot "/app/src/db.js") by (apply Hrun; [discriminate|reflexivity]).
  assert (Hix : run_of Str.is_dot "file:///app/src/index.js")
    by (apply Hrun; [discriminate|reflexivity]).
  assert (Hf : "Object.<anonymous>" ≠ "") by discriminate.
  split.
  - exact (proj1 (canonical_frames_parse_exactly "    " " " "/app/src/db.js" "10" "5"
                    eq_refl Hsp Hdb H10 H5)
             "Object.<anonymous>" " " Hf eq_refl Hsp).
  - exact (proj2 (canonical_frames_parse_exactly "    " " " "file:///app/src/index.js" "3" "1"
                    eq_refl Hsp Hix H3 H1) eq_refl eq_refl).
Defined.

(** *** Characters of the pieces *)

Lemma mem_trimStart c s : Str.mem c s = false → Str.mem c (Str.trimStart s) = false.
Proof.
  induction s as [|a s IH]; [done|]. simpl. intros H.
  destruct (Str.is_space a); [|done].
  apply orb_false_iff in H as [_ H]. auto.
Qed.

Lemma mem_trimEnd c s : Str.mem c s = false → Str.mem c (Str.trimEnd s) = false.
Proof.
  induction s as [|a s IH]; [done|]. simpl. intros H.
  apply orb_false_iff in H as [Ha H].
  destruct (Str.is_space a && Str.is_empty (Str.trimEnd s)); [done|].
  simpl. by rewrite Ha, IH.
Qed.

Lemma mem_trim c s : Str.mem c s = false → Str.mem c (Str.trim s) = false.
Proof. intros H. by apply mem_trimEnd, mem_trimStart. Qed.

Lemma mem_split c sep s :
  Str.mem c s = false → Forall (λ part, Str.mem c part = false) (Str.split sep s).
Proof.
  induction s as [|a s IH]; intros H.
  - by repeat constructor.
  - simpl in H. apply orb_false_iff in H as [Ha H]. specialize (IH H). simpl.
    destruct (Ascii.eqb a sep).
    + by constructor.
    + destruct (Str.split sep s) as [|h t]; inversion IH; subst.
      * repeat constructor. simpl. by rewrite Ha.
      * constructor; [|done]. simpl. by rewrite Ha.
Qed.

Lemma split_parts_no_sep sep s :
  Forall (λ part, Str.mem sep part = false) (Str.split sep s).
Proof.
  induction s as [|a s IH]; [by repeat constructor|]. simpl.
  destruct (Ascii.eqb a sep) eqn:E.
  - by constructor.
  - destruct (Str.split sep s) as [|h t]; inversion IH; subst.
    + repeat constructor. simpl. by rewrite E.
    + constructor; [|done]. simpl. by rewrite E.
Qed.

Lemma mem_join c sep parts :
  Str.mem c sep = false →
  Forall (λ part, Str.mem c part = false) parts →
  Str.mem c (Str.join sep parts) = false.
Proof.
  intros Hsep. induction 1 as [|p parts Hp Hparts IH]; [done|].
  destruct parts as [|q parts]; [done|].
  change (Str.join sep (p :: q :: parts)) with (p +:+ sep +:+ Str.join sep (q :: parts)).
  by rewrite !mem_app, Hp, Hsep, IH.
Qed.

Lemma upper_char_ESC a : Ascii.eqb (Str.upper_char a) Str.ESC = Ascii.eqb a Str.ESC.
Proof. by destruct a as [[] [] [] [] [] [] [] []]. Qed.

Lemma mem_toUpperCase s : Str.mem Str.ESC (Str.toUpperCase s) = Str.mem Str.ESC s.
Proof. induction s as [|a s IH]; [done|]. simpl. by rewrite upper_char_ESC, IH. Qed.

Lemma is_dot_not_LF a : Str.is_dot a = true → Ascii.eqb a Str.LF = false.
Proof. by destruct a as [[] [] [] [] [] [] [] []]. Qed.

Lemma is_digit_not_LF a : Str.is_digit a = true → Ascii.eqb a Str.LF = false.
Proof. by destruct a as [[] [] [] [] [] [] [] []]. Qed.

Lemma all_no_LF cls s :
  (∀ a, cls a = true → Ascii.eqb a Str.LF = false) →
  Str.all cls s = true → Str.mem Str.LF s = false.
Proof.
  intros Hcls. induction s as [|a s IH]; [done|]. simpl. intros H.
  apply andb_true_iff in H as [Ha H]. by rewrite (Hcls a Ha), IH.
Qed.

(** *** [trim] is idempotent *)

Lemma trimStart_starts_clean s : starts_clean (Str.trimStart s).
Proof.
  induction s as [|a s IH]; [done|]. simpl.
  destruct (Str.is_space a) eqn:E; [done|]. exact E.
Qed.

Lemma trimStart_clean s : starts_clean s → Str.trimStart s = s.
Proof. destruct s as [|a s]; [done|]. unfold starts_clean. cbn [Str.trimStart]. by intros ->. Qed.

Lemma trimEnd_starts_clean s : starts_clean s → starts_clean (Str.trimEnd s).
Proof.
  destruct s as [|a s]; [done|]. unfold starts_clean. cbn [Str.trimEnd]. intros E.
  rewrite E. exact E.
Qed.

Lemma trimEnd_trimEnd s : Str.trimEnd (Str.trimEnd s) = Str.trimEnd s.
Proof.
  induction s as [|a s IH]; [done|]. simpl.
  destruct (Str.is_space a && Str.is_empty (Str.trimEnd s)) eqn:E; [done|].
  simpl. by rewrite IH, E.
Qed.

Lemma trim_trim s : Str.trim (Str.trim s) = Str.trim s.
Proof.
  unfold Str.trim.
  rewrite (trimStart_clean (Str.trimEnd (Str.trimStart s))).
  - apply trimEnd_trimEnd.
  - apply trimEnd_starts_clean, trimStart_starts_clean.
Qed.

(** *** The entries of [parseStack] *)

Lemma parseStack_entries stack item :
  In item (parseStack stack) →
  ∃ line, Str.mem Str.LF line = false ∧ kept (parseLine line) = Some item.
Proof.
  unfold parseStack. destruct stack as [s|]; [|done].
  destruct (Str.is_empty s); [done|]. cbv zeta.
  intros [Hin Hkeep]%filter_In. apply in_map_iff in Hin as (line & <- & Hline).
  exists line. split.
  - pose proof (split_parts_no_sep Str.LF s) as Hall.
    destruct (Str.split Str.LF s) as [|first rest]; [done|]. simpl in Hline.
    inversion Hall as [|? ? _ Hrest]; subst.
    by apply (proj1 (Forall_forall _ _) Hrest), list_elem_of_In.
  - unfold kept. by rewrite Hkeep.
Qed.

Lemma run_of_dot_no_LF s : run_of Str.is_dot s → Str.mem Str.LF s = false.
Proof. intros [_ H]. by apply (all_no_LF Str.is_dot), H; apply is_dot_not_LF. Qed.

Lemma run_of_digit_no_LF s : run_of Str.is_digit s → Str.mem Str.LF s = false.
Proof. intros [_ H]. by apply (all_no_LF Str.is_digit), H; apply is_digit_not_LF. Qed.

Lemma parseStack_entry_no_LF stack item :
  In item (parseStack stack) → item_free Str.LF item ∧ keep_item item = true.
Proof.
  intros (line & Hline & Hkept)%parseStack_entries.
  split; [|unfold kept in Hkept; destruct (keep_item (parseLine line)) eqn:E; by simplify_eq].
  pose proof (parseLine_parses_as line) as Hp. rewrite Hkept in Hp.
  inversion Hp as [pre u post f file l c Hl Hf|pre u post file l c Hn Hl Hf|Hn Hb Ht|];
    subst; simpl.
  - destruct Hf as (ws1 & ws2 & _ & _ & Hfun & _ & Hfile & Hln & Hcol).
    repeat split; [by apply mem_trim, run_of_dot_no_LF|by apply run_of_dot_no_LF|
                   by apply run_of_digit_no_LF|by apply run_of_digit_no_LF].
  - destruct Hf as (ws1 & _ & _ & Hfile & Hln & Hcol).
    repeat split; [by apply run_of_dot_no_LF|by apply run_of_digit_no_LF|
                   by apply run_of_digit_no_LF].
  - by apply mem_trim.
Qed.

(** X6: every entry that [parseStack] returns is well formed: a frame
    has a file that is not empty and holds no line break, a line and a
    column that are non-empty runs of digits, and a function without
    white space around it; a raw entry is not empty and has no white space
    around it. *)
Theorem parseStack_entries_are_well_formed (stack : option string) (item : StackItem) :
  In item (parseStack stack) → well_formed item.
Proof.
  intros (line & Hline & Hkept)%parseStack_entries.
  pose proof (parseLine_parses_as line) as Hp. rewrite Hkept in Hp.
  inversion Hp as [pre u post f file l c Hl Hf|pre u post file l c Hn Hl Hf|Hn Hb Ht|];
    subst; simpl.
  - destruct Hf as (ws1 & ws2 & _ & _ & Hfun & _ & Hfile & Hln & Hcol).
    repeat split; try apply Hfile; try apply Hln; try apply Hcol. apply trim_trim.
  - destruct Hf as (ws1 & _ & _ & Hfile & Hln & Hcol).
    repeat split; try apply Hfile; try apply Hln; try apply Hcol.
  - split; [done|apply trim_trim].
Qed.

Lemma parseStack_entries_are_well_formed_witness :
  well_formed (Frame "connect" "/app/src/db.js" "10" "5").
Proof.
  apply (parseStack_entries_are_well_formed
           (Some ("Error: boom" +:+ String Str.LF "    at connect (/app/src/db.js:10:5)"))).
  vm_compute. by left.
Defined.

(** *** One line per entry *)

Lemma formatItem_no_LF forConsole item :
  item_free Str.LF item → keep_item item = true →
  Str.mem Str.LF (formatItem forConsole item) = false.
Proof.
  destruct item as [f file l c|raw]; simpl.
  - intros (Hf & Hfile & Hl & Hc) _.
    assert (Hname : Str.mem Str.LF (if Str.is_empty f then "anonymous" else f) = false).
    { by destruct (Str.is_empty f). }
    destruct forConsole; unfold dim, bold, RESET;
      rewrite ?mem_app, ?Hname, ?Hfile, ?Hl, ?Hc; reflexivity.
  - intros Hraw Hkeep. destruct (Str.is_empty raw); [done|].
    destruct forConsole; unfold dim, RESET; rewrite ?mem_app, ?Hraw; reflexivity.
Qed.

Lemma parseStack_one_line line :
  Str.mem Str.LF line = false → parseStack (Some line) = [].
Proof.
  intros Hline. unfold parseStack. destruct (Str.is_empty line); [done|].
  cbv zeta. by rewrite split_no_sep.
Qed.

(** X7: [formatStack] gives the empty text for a missing stack and for
    a stack of a single line; when [parseStack] returns entries, the text
    is a line break followed by one line per entry, in their order:
    splitting it at the line breaks gives the empty text and then the
    formatted entries. *)
Theorem formatStack_one_line_per_entry (forConsole : bool) :
  formatStack None forConsole = "" ∧
  (∀ line, Str.mem Str.LF line = false → formatStack (Some line) forConsole = "") ∧
  (∀ stack,
     parseStack stack ≠ [] →
     Str.split Str.LF (formatStack stack forConsole) =
       "" :: List.map (formatItem forConsole) (parseStack stack)).
Proof.
  split; [done|]. split.
  - intros line Hline. unfold formatStack. by rewrite parseStack_one_line.
  - intros stack Hne. unfold formatStack.
    assert (Hlines : Forall (λ line, Str.mem Str.LF line = false)
                       (List.map (formatItem forConsole) (parseStack stack))).
    { apply Forall_forall. intros text [item [<- Hin]]%list_elem_of_In%in_map_iff.
      destruct (parseStack_entry_no_LF stack item Hin) as (Hfree & Hk).
      by apply formatItem_no_LF. }
    destruct (parseStack stack) as [|item items] eqn:E; [done|].
    cbv zeta.
    change (String Str.LF "" +:+ Str.join (String Str.LF "")
              (List.map (formatItem forConsole) (item :: items)))
      with (Str.join (String Str.LF "")
              ("" :: List.map (formatItem forConsole) (item :: items))).
    apply split_join. by constructor.
Qed.

Lemma formatStack_one_line_per_entry_witness :
  Str.split Str.LF
    (formatStack (Some ("Error: boom" +:+ String Str.LF "    at connect (/app/src/db.js:10:5)"
                        +:+ String Str.LF "    at async Promise.all (index 0)")) false) =
    [""; "  → connect (/app/src/db.js:10:5)"; "  at async Promise.all (index 0)"] ∧
  formatStack (Some "Error: boom") true = "".
Proof.
  destruct (formatStack_one_line_per_entry false) as (_ & _ & Hlines).
  destruct (formatStack_one_line_per_entry true) as (_ & Hone & _).
  split.
  - assert (Hne : parseStack (Some ("Error: boom" +:+ String Str.LF "    at connect (/app/src/db.js:10:5)"
                        +:+ String Str.LF "    at async Promise.all (index 0)")) ≠ [])
      by (vm_compute; discriminate).
    exact (Hlines _ Hne).
  - exact (Hone "Error: boom" eq_refl).
Defined.

(** *** Payloads that are not error objects *)

(** X8: a payload that is not an error object is logged as the header,
    the payload as text and, when there is a context, the rendered
    context: no error tag, no code and no stack, at every severity, [error]
    included, and whatever the [trace] option is. *)
Theorem plain_payload_has_no_tag_and_no_stack host (ts type layer : string) (err : Value)
    (options : Options) :
  instanceof_Error err = false →
  let header := ts +:+ " | " +:+ Str.toUpperCase type +:+ " | " +:+ Str.toUpperCase layer in
  let tail :=
    if truthy (context options)
    then (String Str.LF "" +:+ dim "Context:" +:+ " " +:+ formatValue host (context options),
          String Str.LF "" +:+ "Context: " +:+ formatValue host (context options))
    else ("", "") in
  messages host ts type layer err options =
    ((bold header +:+ " | " +:+ to_String err) +:+ tail.1,
     (header +:+ " | " +:+ to_String err) +:+ tail.2).
Proof.
  intros Hplain header tail. unfold messages.
  assert (extractErrorInfo err =
          {| ei_message := to_String err; ei_name := VUndefined;
             ei_stack := None; ei_code := VUndefined |}) as ->.
  { by destruct err. }
  cbn [ei_message ei_name ei_stack ei_code truthy]. rewrite andb_false_r.
  unfold tail. fold header. destruct (truthy (context options)); cbn [fst snd].
  - reflexivity.
  - by rewrite !StrFacts.app_nil_r.
Qed.

Lemma plain_payload_has_no_tag_and_no_stack_witness :
  messages sample_host "2025-01-05 07:08:09.042" "error" "db" (VStr "disk full")
    {| context := VUndefined; trace := VBool true; noThrow := VUndefined |} =
  (bold "2025-01-05 07:08:09.042 | ERROR | DB" +:+ " | disk full",
   "2025-01-05 07:08:09.042 | ERROR | DB | disk full").
Proof.
  exact (plain_payload_has_no_tag_and_no_stack sample_host "2025-01-05 07:08:09.042"
           "error" "db" (VStr "disk full")
           {| context := VUndefined; trace := VBool true; noThrow := VUndefined |} eq_refl).
Defined.

(** *** No escape code reaches the file *)

Ltac split_mem H :=
  rewrite ?mem_app in H;
  repeat match goal with
         | H' : _ || _ = false |- _ => apply orb_false_iff in H' as [? ?]
         end.

Lemma parseLine_free c line item :
  Str.mem c "anonymous" = false →
  Str.mem c line = false →
  kept (parseLine line) = Some item →
  item_free c item.
Proof.
  intros Hanon Hline Hkept.
  pose proof (parseLine_parses_as line) as Hp. rewrite Hkept in Hp.
  inversion Hp as [pre u post f file l c' Hl Hf|pre u post file l c' Hn Hl Hf|Hn Hb Ht|];
    subst; simpl.
  - destruct Hf as (ws1 & ws2 & -> & _). split_mem Hline.
    repeat split; try done. by apply mem_trim.
  - destruct Hf as (ws1 & -> & _). split_mem Hline. by repeat split.
  - by apply mem_trim.
Qed.

Lemma parseStack_entry_free c s item :
  Str.mem c "anonymous" = false →
  Str.mem c s = false →
  In item (parseStack (Some s)) → item_free c item.
Proof.
  intros Hanon Hs. unfold parseStack.
  destruct (Str.is_empty s); [done|]. cbv zeta.
  intros [Hin Hkeep]%filter_In. apply in_map_iff in Hin as (line & <- & Hline).
  apply (parseLine_free c line); [done| |unfold kept; by rewrite Hkeep].
  pose proof (mem_split c Str.LF s Hs) as Hall.
  destruct (Str.split Str.LF s) as [|first rest]; [done|]. simpl in Hline.
  inversion Hall as [|? ? _ Hrest]; subst.
  by apply (proj1 (Forall_forall _ _) Hrest), list_elem_of_In.
Qed.

Lemma formatItem_plain item :
  item_free Str.ESC item → plain (formatItem false item).
Proof.
  unfold plain. destruct item as [f file l c|raw]; simpl.
  - intros (Hf & Hfile & Hl & Hc).
    assert (Hname : Str.mem Str.ESC (if Str.is_empty f then "anonymous" else f) = false).
    { by destruct (Str.is_empty f). }
    rewrite ?mem_app, ?Hname, ?Hfile, ?Hl, ?Hc. reflexivity.
  - intros Hraw. destruct (Str.is_empty raw); [reflexivity|].
    rewrite ?mem_app, ?Hraw. reflexivity.
Qed.

Lemma formatStack_plain s : plain s → plain (formatStack (Some s) false).
Proof.
  intros Hs. unfold formatStack, plain.
  pose proof (λ item, parseStack_entry_free Str.ESC s item eq_refl Hs) as Hfree.
  destruct (parseStack (Some s)) as [|item items]; [done|]. cbv zeta.
  rewrite mem_app. apply orb_false_iff. split; [reflexivity|].
  apply mem_join; [reflexivity|].
  apply Forall_forall. intros text [it [<- Hin]]%list_elem_of_In%in_map_iff.
  by apply formatItem_plain, Hfree.
Qed.

(** X9: when the time stamp, the severity, the layer, the fields of the
    payload and the rendered context hold no escape character, neither
    does the message written to the files: the styling of [colorize],
    [bold] and [dim] goes to the console only, whose message always holds
    an escape character. *)
Theorem file_message_has_no_escape_codes host (ts type layer : string) (err : Value)
    (options : Options) :
  let info := extractErrorInfo err in
  plain ts → plain type → plain layer →
  plain (ei_message info) → plain (to_String (ei_name info)) →
  plain (to_String (ei_code info)) → plain (default "" (ei_stack info)) →
  plain (formatValue host (context options)) →
  plain (messages host ts type layer err options).2 ∧
  Str.mem Str.ESC (messages host ts type layer err options).1 = true.
Proof.
  intros info Hts Htype Hlayer Hmsg Hname Hcode Hstack Hctx. unfold messages. fold info.
  unfold plain in *.
  set (header := ts +:+ " | " +:+ Str.toUpperCase type +:+ " | " +:+ Str.toUpperCase layer).
  assert (Hheader : Str.mem Str.ESC header = false).
  { unfold header. rewrite !mem_app, !mem_toUpperCase, Hts, Htype, Hlayer. reflexivity. }
  assert (Hbold : ∀ rest, Str.mem Str.ESC (bold header +:+ rest) = true).
  { intros rest. unfold bold. by rewrite StrFacts.app_cons. }
  assert (Hstk : ∀ s, ei_stack info = Some s → Str.mem Str.ESC (formatStack (Some s) false) = false).
  { intros s Hs. apply formatStack_plain. unfold plain. by rewrite Hs in Hstack. }
  destruct (truthy (context options));
    destruct (String.eqb type "error" && truthy (ei_name info));
    destruct (truthy (ei_code info));
    destruct (ei_stack info) as [s|] eqn:Es; cbv beta iota zeta;
    try (destruct (negb (Str.is_empty s) && (String.eqb type "error" || truthy (trace options))));
    try (destruct (negb (Str.is_empty (formatStack (Some s) true))));
    cbn [fst snd];
    (split;
     [ rewrite ?mem_app, ?Hheader, ?Hmsg, ?Hname, ?Hcode, ?Hctx, ?(Hstk s eq_refl); reflexivity
     | rewrite ?StrFacts.app_assoc; apply Hbold ]).
Qed.

Lemma file_message_has_no_escape_codes_witness :
  plain (messages sample_host "2025-01-05 07:08:09.042" "error" "db"
           (VError "Error" "conn refused"
              (Some ("Error: conn refused" +:+ String Str.LF "    at connect (/app/src/db.js:10:5)"))
              (VStr "ECONNREFUSED"))
           {| context := VStr "request 42"; trace := VUndefined; noThrow := VBool true |}).2.
Proof.
  by apply (file_message_has_no_escape_codes sample_host).
Defined.

(** *** Which calls throw *)

(** X10: of the entry points that record an entry, only [error] can
    throw, and it does so exactly when the mode is not production and
    [noThrow] is not set; [info], [debug], [log], [warning] and [all]
    return normally in every world, and so does [trace].  [set] is [error]
    with its first two arguments exchanged. *)
Theorem only_error_rethrows host config (c : Call) (w : World) :
  (invoke host config c w).1 =
    (if bool_decide (call_severity c = SError) && negb (production config)
        && negb (truthy (noThrow (call_options c)))
     then Throw (if instanceof_Error (call_payload c) then call_payload c
                 else new_Error host (call_payload c))
     else Normal tt) ∧
  (∀ layer message, (trace_ host config layer message w).1 = Normal tt) ∧
  (∀ err layer options,
     set host config err layer options w = error host config layer err options w).
Proof.
  split; [|split].
  - unfold invoke, info, debug, log, warning, error, all.
    destruct (call_severity c); rewrite record_run; cbn [fst];
      try (rewrite rethrows_not_error by done; reflexivity).
    unfold rethrows, with_trace. cbn [noThrow]. simpl.
    by destruct (production config), (truthy (noThrow (call_options c))).
  - intros layer message. unfold trace_. rewrite record_run.
    by rewrite rethrows_not_error.
  - done.
Qed.

(** *** The files that a call reaches *)

Section Sinks.
Context (host : Host) (config : Config).

Lemma paths_same_clock w1 w :
  now w1 = now w →
  today_dir host config w1 = today_dir host config w ∧
  (∀ t, log_file host config w1 t = log_file host config w t) ∧
  (∀ t, rotated_file host config w1 t = rotated_file host config w t).
Proof. intros H. unfold log_file, rotated_file, today_dir. by rewrite H. Qed.

Lemma writeToFile_env type msg w :
  faults w = [] →
  fs w !! log_file host config w type ≠ Some Dir →
  faults (writeToFile host config type msg w).2 = [] ∧
  now (writeToFile host config type msg w).2 = now w.
Proof. intros Hf Hd. by rewrite writeToFile_ok. Qed.

(** One write, seen from any path that is not the directory of the day. *)
Lemma writeToFile_lookup type msg w p :
  faults w = [] →
  fs w !! log_file host config w type ≠ Some Dir →
  p ≠ rotated_file host config w type →
  p ≠ today_dir host config w →
  fs (writeToFile host config type msg w).2 !! p =
    if decide (p = log_file host config w type)
    then Some (File (keep (content_of (fs w !! p)) +:+ line_of msg))
    else fs w !! p.
Proof.
  intros Hf Hd Hr Hdir. destruct (decide (p = log_file host config w type)) as [->|Hne].
  - by apply writeToFile_canonical.
  - by apply writeToFile_elsewhere.
Qed.

Lemma fs_after_record_lookup type layer err options w p :
  faults w = [] →
  fs w !! log_file host config w type ≠ Some Dir →
  fs w !! log_file host config w "all" ≠ Some Dir →
  p ≠ rotated_file host config w type →
  p ≠ rotated_file host config w "all" →
  p ≠ today_dir host config w →
  let line := line_of (messages host (timestamp_of (now w)) type layer err options).2 in
  let once (q : string) (node : option Node) :=
    if decide (p = q) then Some (File (keep (content_of node) +:+ line)) else node in
  fs (after_record host config type layer err options w) !! p =
    once (log_file host config w "all") (once (log_file host config w type) (fs w !! p)) ∧
  faults (after_record host config type layer err options w) = [] ∧
  now (after_record host config type layer err options w) = now w.
Proof.
  intros Hf Hd1 Hd2 Hr1 Hr2 Hdir line once.
  assert (Henv : faults (after_record host config type layer err options w) =
                   faults (writeToFile host config "all"
                             (messages host (timestamp_of (now w)) type layer err options).2
                             (writeToFile host config type
                                (messages host (timestamp_of (now w)) type layer err options).2
                                (set_logStats (λ stats,
                                   <[type := (default 0 (stats !! type) + 1)%N]> stats) w)).2).2 ∧
                 now (after_record host config type layer err options w) =
                   now (writeToFile host config "all"
                             (messages host (timestamp_of (now w)) type layer err options).2
                             (writeToFile host config type
                                (messages host (timestamp_of (now w)) type layer err options).2
                                (set_logStats (λ stats,
                                   <[type := (default 0 (stats !! type) + 1)%N]> stats) w)).2).2).
  { unfold after_record.
    destruct (messages host (timestamp_of (now w)) type layer err options) as [cm fm].
    by destruct (shouldLog config type). }
  destruct Henv as [-> ->].
  rewrite fs_after_record. cbv zeta.
  set (fm := (messages host (timestamp_of (now w)) type layer err options).2).
  set (w0 := set_logStats _ w).
  destruct (writeToFile_env type fm w0 Hf Hd1) as [Hf1 Hn1].
  pose proof (writeToFile_lookup type fm w0 p Hf Hd1 Hr1 Hdir) as L1.
  pose proof (writeToFile_lookup type fm w0 (log_file host config w "all") Hf Hd1) as L1a.
  set (w1 := (writeToFile host config type fm w0).2) in *.
  destruct (paths_same_clock w1 w Hn1) as (Pd & Pf & Pr).
  assert (Hd2' : fs w1 !! log_file host config w1 "all" ≠ Some Dir).
  { rewrite Pf, L1a.
    - change (log_file host config w0 type) with (log_file host config w type).
      change (fs w0) with (fs w).
      destruct (decide (log_file host config w "all" = log_file host config w type));
        [discriminate|done].
    - change (rotated_file host config w0 type) with (rotated_file host config w type).
      apply (log_file_ne_rotated host config w). done.
    - apply (log_file_ne_dir host config w). }
  destruct (writeToFile_env "all" fm w1 Hf1 Hd2') as [Hf2 Hn2].
  split; [|split; [done|by rewrite Hn2, Hn1]].
  assert (Hr2' : p ≠ rotated_file host config w1 "all").
  { by rewrite Pr. }
  assert (Hdir' : p ≠ today_dir host config w1) by (by rewrite Pd).
  rewrite (writeToFile_lookup "all" fm w1 p Hf1 Hd2' Hr2' Hdir').
  rewrite Pf, L1. unfold once, line. fold fm.
  change (log_file host config w0 type) with (log_file host config w type).
  change (fs w0) with (fs w).
  destruct (decide (p = log_file host config w "all")); [|done].
  done.
Qed.

End Sinks.

Lemma join_cons (p : string) (rest : list string) :
  Str.join "" (p :: rest) = p +:+ Str.join "" rest.
Proof.
  destruct rest as [|q rest]; [by rewrite StrFacts.app_nil_r|].
  change (Str.join "" (p :: q :: rest)) with (p +:+ "" +:+ Str.join "" (q :: rest)).
  by rewrite StrFacts.app_nil_l.
Qed.

Lemma join_app (a b : list string) :
  Str.join "" (a ++ b) = Str.join "" a +:+ Str.join "" b.
Proof.
  induction a as [|p a IH]; [by rewrite StrFacts.app_nil_l|].
  rewrite <- app_comm_cons, !join_cons, IH. by rewrite StrFacts.app_assoc.
Qed.

Section Sequences.
Context (host : Host) (config : Config).

Lemma severity_paths (w : World) (s : Severity) (type : string) :
  log_file host config w (severity_name s) ≠ rotated_file host config w type ∧
  log_file host config w (severity_name s) ≠ today_dir host config w.
Proof.
  split; [apply log_file_ne_rotated, severity_name_no_dot|apply log_file_ne_dir].
Qed.

Lemma invoke_lookup (c : Call) (w : World) (p : string) :
  writable host config w →
  p ≠ rotated_file host config w (severity_name (call_severity c)) →
  p ≠ rotated_file host config w "all" →
  p ≠ today_dir host config w →
  let once (q : string) (node : option Node) :=
    if decide (p = q) then Some (File (keep (content_of node) +:+ entry_line host w c))
    else node in
  fs (invoke host config c w).2 !! p =
    once (log_file host config w "all")
      (once (log_file host config w (severity_name (call_severity c))) (fs w !! p)) ∧
  faults (invoke host config c w).2 = [] ∧
  now (invoke host config c w).2 = now w.
Proof.
  intros [Hf Hd] Hr1 Hr2 Hdir once.
  destruct (invoke_run host config c w) as (completion & ->). cbn [snd].
  apply fs_after_record_lookup; try done. apply (Hd SAll).
Qed.

Lemma invoke_writable (c : Call) (w : World) :
  writable host config w → writable host config (invoke host config c w).2.
Proof.
  intros Hw. pose proof Hw as [Hf Hd].
  destruct (invoke_lookup c w (today_dir host config w +:+ "?")) as (_ & Hf' & Hn');
    [done| | | |].
  { unfold rotated_file, path_join. intros H%StrFacts.app_inv_head. discriminate. }
  { unfold rotated_file, path_join. intros H%StrFacts.app_inv_head. discriminate. }
  { apply StrFacts.app_ne_self. discriminate. }
  split; [done|]. intros s.
  destruct (paths_same_clock host config _ w Hn') as (_ & -> & _).
  destruct (severity_paths w s (severity_name (call_severity c))) as [P1 P2].
  destruct (severity_paths w s "all") as [P3 _].
  destruct (invoke_lookup c w (log_file host config w (severity_name s)) Hw P1 P3 P2)
    as (-> & _ & _).
  repeat destruct (decide _); try discriminate. apply Hd.
Qed.

End Sequences.

Section KeptNodes.
Context (host : Host) (config : Config).

Lemma written_keeps (d f r data : string) (m : gmap string Node) (p : string) (node : Node) :
  p ≠ f → p ≠ r → m !! p = Some node → written d f r data m !! p = Some node.
Proof.
  intros Hf Hr Hp. unfold written, append_text. rewrite lookup_insert_ne by done.
  assert (He : ensure_dir d m !! p = Some node).
  { unfold ensure_dir. destruct (m !! d) eqn:Ed; [done|].
    rewrite lookup_insert_ne; [done|]. intros <-. congruence. }
  unfold rotate_full. destruct (ensure_dir d m !! f) as [n|]; [|done].
  destruct (MAX_LOG_SIZE <? node_size n)%N; [|done].
  by rewrite lookup_insert_ne, lookup_delete_ne.
Qed.

Lemma writeToFile_keeps type msg w p node :
  faults w = [] →
  fs w !! log_file host config w type ≠ Some Dir →
  p ≠ log_file host config w type →
  p ≠ rotated_file host config w type →
  fs w !! p = Some node →
  fs (writeToFile host config type msg w).2 !! p = Some node.
Proof.
  intros Hf Hd H1 H2 Hp. rewrite writeToFile_ok by done. cbn [snd fs set_fs].
  by apply written_keeps.
Qed.

Lemma after_record_keeps type layer err options w p node :
  faults w = [] →
  fs w !! log_file host config w type ≠ Some Dir →
  fs w !! log_file host config w "all" ≠ Some Dir →
  p ≠ log_file host config w type →
  p ≠ log_file host config w "all" →
  p ≠ rotated_file host config w type →
  p ≠ rotated_file host config w "all" →
  fs w !! p = Some node →
  fs (after_record host config type layer err options w) !! p = Some node.
Proof.
  intros Hf Hd1 Hd2 H1 H2 H3 H4 Hp.
  rewrite fs_after_record. cbv zeta.
  set (fm := (messages host (timestamp_of (now w)) type layer err options).2).
  set (w0 := set_logStats _ w).
  destruct (writeToFile_env host config type fm w0 Hf Hd1) as [Hf1 Hn1].
  pose proof (writeToFile_keeps type fm w0 p node Hf Hd1 H1 H3 Hp) as K1.
  pose proof (writeToFile_lookup host config type fm w0 (log_file host config w "all")
                Hf Hd1) as L1a.
  set (w1 := (writeToFile host config type fm w0).2) in *.
  destruct (paths_same_clock host config w1 w Hn1) as (Pd & Pf & Pr).
  assert (Hd2' : fs w1 !! log_file host config w1 "all" ≠ Some Dir).
  { rewrite Pf, L1a.
    - change (log_file host config w0 type) with (log_file host config w type).
      change (fs w0) with (fs w).
      destruct (decide (log_file host config w "all" = log_file host config w type));
        [discriminate|done].
    - change (rotated_file host config w0 type) with (rotated_file host config w type).
      apply (log_file_ne_rotated host config w). done.
    - apply (log_file_ne_dir host config w). }
  apply writeToFile_keeps; try done; [by rewrite Pf|by rewrite Pr].
Qed.

End KeptNodes.

(** X11: when no file-system call fails, an entry reaches only its own
    files: the file of every other severity (but [all.log]) is as it was,
    and every node that exists at a path other than the file of the
    severity, [all.log] and the names a rotation gives to these two stays
    as it is.  The world is left writable for the next call. *)
Theorem entries_reach_only_their_own_files host config (c : Call) (w : World) :
  writable host config w →
  let w' := (invoke host config c w).2 in
  (∀ s, s ≠ call_severity c → s ≠ SAll →
     fs w' !! log_file host config w (severity_name s) =
       fs w !! log_file host config w (severity_name s)) ∧
  (∀ p node,
     p ≠ log_file host config w (severity_name (call_severity c)) →
     p ≠ log_file host config w "all" →
     p ≠ rotated_file host config w (severity_name (call_severity c)) →
     p ≠ rotated_file host config w "all" →
     fs w !! p = Some node → fs w' !! p = Some node) ∧
  writable host config w'.
Proof.
  intros Hw w'. unfold w'. split; [|split].
  - intros s Hs Hall.
    destruct (severity_paths host config w s (severity_name (call_severity c))) as [P1 P2].
    destruct (severity_paths host config w s "all") as [P3 _].
    destruct (invoke_lookup host config c w _ Hw P1 P3 P2) as (-> & _ & _).
    rewrite decide_False.
    + rewrite decide_False; [done|]. by intros ?%log_file_inj%severity_name_inj.
    + intros H%log_file_inj. by destruct s.
  - intros p node H1 H2 H3 H4 Hp. destruct Hw as [Hf Hd].
    destruct (invoke_run host config c w) as (completion & ->). cbn [snd].
    exact (after_record_keeps host config _ _ _ _ w p node Hf (Hd (call_severity c))
             (Hd SAll) H1 H2 H3 H4 Hp).
  - by apply invoke_writable.
Qed.

Lemma entries_reach_only_their_own_files_witness :
  let c := {| call_severity := SWarning; call_layer := "db";
              call_payload := VStr "slow query"; call_options := no_options |} in
  let w := set_fs (insert "/app/logs/2025-01-05/error.log" (File "earlier")) fresh_world in
  let w' := (invoke sample_host development c w).2 in
  fs w' !! "/app/logs/2025-01-05/error.log" = Some (File "earlier") ∧
  fs w' !! "/app/logs/2025-01-05/info.log" = None.
Proof.
  intros c w w'.
  assert (Hw : writable sample_host development w).
  { split; [done|]. intros s. unfold w, fresh_world. cbn [fs set_fs].
    by destruct s; vm_compute. }
  destruct (entries_reach_only_their_own_files sample_host development c w Hw)
    as (Hother & Hkept & _).
  split.
  - apply (Hkept "/app/logs/2025-01-05/error.log" (File "earlier")); by vm_compute.
  - exact (Hother SInfo ltac:(discriminate) ltac:(discriminate)).
Defined.

(** *** The files after a sequence of calls *)

Section Appends.
Context (host : Host) (config : Config).

Lemma invoke_content (c : Call) (s : Severity) (w : World) :
  writable host config w →
  let file := log_file host config w (severity_name s) in
  let new := content_of (fs w !! file) +:+
             Str.join "" (replicate (copies s c) (entry_line host w c)) in
  (Str.size new ≤ MAX_LOG_SIZE)%N →
  content_of (fs (invoke host config c w).2 !! file) = new.
Proof.
  intros Hw file new Hsize. unfold new in *. clear new.
  destruct (severity_paths host config w s (severity_name (call_severity c))) as [P1 P2].
  destruct (severity_paths host config w s "all") as [P3 _].
  destruct (invoke_lookup host config c w file Hw P1 P3 P2) as (-> & _ & _).
  cbv zeta beta.
  set (old := content_of (fs w !! file)) in *.
  set (e := entry_line host w c) in *.
  unfold copies in *.
  destruct (decide (file = log_file host config w (severity_name (call_severity c))))
    as [E1|E1];
  destruct (decide (file = log_file host config w "all")) as [E2|E2].
  - apply log_file_inj, severity_name_inj in E1.
    apply (log_file_inj host config w _ "all") in E2.
    assert (s = SAll) as -> by (by destruct s).
    rewrite !bool_decide_eq_true_2 in * by done.
    cbn [Nat.add replicate] in *. rewrite !join_cons in *.
    change (Str.join "" []) with "" in *. rewrite StrFacts.app_nil_r in *.
    cbn [content_of]. rewrite !StrFacts.size_app in Hsize.
    rewrite (keep_small old) by lia.
    rewrite keep_small by (rewrite StrFacts.size_app; lia).
    by rewrite StrFacts.app_assoc.
  - apply log_file_inj, severity_name_inj in E1.
    rewrite bool_decide_eq_true_2 in * by done.
    rewrite bool_decide_eq_false_2 in *.
    2,3: intros ->; by apply E2.
    cbn [Nat.add replicate] in *. rewrite !join_cons in *.
    change (Str.join "" []) with "" in *. rewrite StrFacts.app_nil_r in *.
    cbn [content_of]. fold old. rewrite !StrFacts.size_app in Hsize.
    by rewrite (keep_small old) by lia.
  - apply (log_file_inj host config w _ "all") in E2.
    assert (s = SAll) as -> by (by destruct s).
    rewrite bool_decide_eq_false_2 in *.
    2,3: intros H; apply E1; by rewrite H.
    rewrite bool_decide_eq_true_2 in * by done.
    cbn [Nat.add replicate] in *. rewrite !join_cons in *.
    change (Str.join "" []) with "" in *. rewrite StrFacts.app_nil_r in *.
    cbn [content_of]. fold old. rewrite !StrFacts.size_app in Hsize.
    by rewrite (keep_small old) by lia.
  - rewrite bool_decide_eq_false_2.
    2: intros H; apply E1; unfold file; by rewrite H.
    rewrite bool_decide_eq_false_2.
    2: intros ->; by apply E2.
    cbn [Nat.add replicate]. change (Str.join "" []) with "".
    by rewrite StrFacts.app_nil_r.
Qed.

Lemma run_calls_cons (c : Call) (calls : list Call) (w : World) :
  (run_calls host config (c :: calls) w).2 =
    (run_calls host config calls (invoke host config c w).2).2.
Proof.
  cbn [run_calls]. rewrite bind_run. unfold try_catch.
  destruct (invoke host config c w) as [[[]|v] w1]; reflexivity.
Qed.

Lemma invoke_now (c : Call) (w : World) : now (invoke host config c w).2 = now w.
Proof.
  destruct (invoke_run host config c w) as (completion & ->). cbn [snd].
  unfold after_record.
  destruct (messages host (timestamp_of (now w)) _ _ _ _) as [cm fm].
  destruct (writeToFile_any host config (severity_name (call_severity c)) fm
              (set_logStats (λ stats,
                 <[severity_name (call_severity c) :=
                     (default 0 (stats !! severity_name (call_severity c)) + 1)%N]> stats) w))
    as (w1 & E1 & _ & N1 & _).
  rewrite E1. cbn [snd].
  destruct (writeToFile_any host config "all" fm w1) as (w2 & E2 & _ & N2 & _).
  rewrite E2. cbn [snd].
  destruct (shouldLog config _); cbn; by rewrite N2, N1.
Qed.

End Appends.

(** X12: when no file-system call fails and the file stays within
    [MAX_LOG_SIZE], the file of a severity holds, after a sequence of
    calls, what it held before followed by the lines of the calls of that
    severity in the order of the calls; [all.log] holds the lines of all
    the calls in their order, those of [all] twice.  The lines are made
    with the time stamp of the clock of the world. *)
Theorem files_hold_the_entries_in_call_order host config (calls : list Call) (s : Severity)
    (w : World) :
  writable host config w →
  let file := log_file host config w (severity_name s) in
  let new := content_of (fs w !! file) +:+ Str.join "" (lines_for host w s calls) in
  (Str.size new ≤ MAX_LOG_SIZE)%N →
  content_of (fs (run_calls host config calls w).2 !! file) = new.
Proof.
  intros Hw file new Hsize. unfold new in *. clear new.
  assert (Hgen : ∀ w',
    now w' = now w → writable host config w' →
    (Str.size (content_of (fs w' !! file) +:+ Str.join "" (lines_for host w s calls))
     ≤ MAX_LOG_SIZE)%N →
    content_of (fs (run_calls host config calls w').2 !! file) =
      content_of (fs w' !! file) +:+ Str.join "" (lines_for host w s calls)).
  { clear Hw Hsize. induction calls as [|c calls IH]; intros w' Hn Hw Hsize.
    - cbn. by rewrite StrFacts.app_nil_r.
    - rewrite run_calls_cons.
      destruct (paths_same_clock host config w' w Hn) as (_ & Pf & _).
      assert (He : entry_line host w' c = entry_line host w c).
      { unfold entry_line. by rewrite Hn. }
      unfold lines_for in *. cbn [flat_map] in *. fold (lines_for host w s calls) in *.
      rewrite join_app in *. rewrite <- StrFacts.app_assoc in Hsize.
      pose proof (invoke_content host config c s w' Hw) as Hc. cbv zeta in Hc.
      rewrite Pf, He in Hc. fold file in Hc.
      rewrite StrFacts.size_app in Hsize.
      rewrite IH.
      + rewrite Hc by lia. by rewrite StrFacts.app_assoc.
      + by rewrite invoke_now.
      + by apply invoke_writable.
      + rewrite Hc by lia. by rewrite StrFacts.size_app. }
  by apply Hgen.
Qed.

Lemma files_hold_the_entries_in_call_order_witness :
  let calls :=
    [ {| call_severity := SInfo; call_layer := "db"; call_payload := VStr "started";
         call_options := no_options |};
      {| call_severity := SAll; call_layer := "db"; call_payload := VStr "note";
         call_options := no_options |} ] in
  content_of (fs (run_calls sample_host development calls fresh_world).2
                !! "/app/logs/2025-01-05/all.log") =
    line_of "2025-01-05 07:08:09.042 | INFO | DB | started" +:+
    line_of "2025-01-05 07:08:09.042 | ALL | DB | note" +:+
    line_of "2025-01-05 07:08:09.042 | ALL | DB | note".
Proof.
  intros calls.
  assert (Hw : writable sample_host development fresh_world).
  { split; [done|]. intros s. unfold fresh_world. cbn [fs]. by rewrite lookup_empty. }
  apply (files_hold_the_entries_in_call_order sample_host development calls SAll
           fresh_world Hw).
  vm_compute. discriminate.
Defined.

(** *** The entry of [trace] *)

Section TraceFacts.
Context (host : Host) (config : Config).

Lemma trace_run layer message w :
  trace_ host config layer message w =
    (Normal tt,
     after_record host config "debug" layer (new_Error host message)
       {| context := VUndefined; trace := VBool true; noThrow := VUndefined |} w).
Proof. unfold trace_. by rewrite record_run, rethrows_not_error. Qed.

Lemma is_empty_app_cons a c b : Str.is_empty (a +:+ String c b) = false.
Proof. destruct a; [done|]. by rewrite StrFacts.app_cons. Qed.

Lemma formatStack_empty stack :
  Str.is_empty (formatStack stack true) = Str.is_empty (formatStack stack false).
Proof. unfold formatStack. by destruct (parseStack stack). Qed.

Lemma messages_trace ts layer message :
  let text := match message with VUndefined => "" | _ => to_String message end in
  let head := if Str.is_empty text then "Error" else "Error: " +:+ text in
  let stack := head +:+ String Str.LF "" +:+ callStack host in
  (messages host ts "debug" layer (new_Error host message)
     {| context := VUndefined; trace := VBool true; noThrow := VUndefined |}).2 =
    ts +:+ " | DEBUG | " +:+ Str.toUpperCase layer +:+ " | " +:+ text +:+
    formatStack (Some stack) false.
Proof.
  intros text head stack. unfold messages, new_Error. fold text head stack.
  cbn [extractErrorInfo ei_message ei_name ei_stack ei_code context trace truthy].
  change (String.eqb "debug" "error") with false. cbn [andb orb].
  assert (Hne : Str.is_empty stack = false) by apply is_empty_app_cons.
  rewrite Hne. cbn [negb andb].
  rewrite formatStack_empty.
  change (Str.toUpperCase "debug") with "DEBUG".
  destruct (Str.is_empty (formatStack (Some stack) false)) eqn:E; cbn [negb snd].
  - destruct (formatStack (Some stack) false); [|done].
    by rewrite !StrFacts.app_assoc, StrFacts.app_nil_r.
  - by rewrite !StrFacts.app_assoc.
Qed.

Lemma parseStack_after_head head rest :
  Str.mem Str.LF head = false →
  parseStack (Some (head +:+ String Str.LF "" +:+ rest)) =
    List.filter keep_item (List.map parseLine (Str.split Str.LF rest)).
Proof.
  intros Hhead.
  change (head +:+ String Str.LF "" +:+ rest) with (head +:+ String Str.LF rest).
  unfold parseStack. rewrite is_empty_app_cons. cbv zeta.
  by rewrite split_app_sep.
Qed.

End TraceFacts.

(** X13: [trace(layer, message)] records at debug level an entry that
    carries the call stack of the host: when the message holds no line
    break, the entries parsed from the new error's stack are those of the
    host's frames, the line "Error: <message>" being dropped.  The
    counter of debug goes up by one, the entry is printed, and when no
    file-system call fails the header, the message and the formatted
    stack are appended to [debug.log] and to [all.log]. *)
Theorem trace_writes_the_call_stack host config (layer : string) (message : Value)
    (w : World) :
  let text := match message with VUndefined => "" | _ => to_String message end in
  let head := if Str.is_empty text then "Error" else "Error: " +:+ text in
  let stack := head +:+ String Str.LF "" +:+ callStack host in
  let entry := timestamp_of (now w) +:+ " | DEBUG | " +:+ Str.toUpperCase layer +:+ " | " +:+
               text +:+ formatStack (Some stack) false in
  let w' := (trace_ host config layer message w).2 in
  (Str.mem Str.LF text = false →
   parseStack (Some stack) =
     List.filter keep_item (List.map parseLine (Str.split Str.LF (callStack host)))) ∧
  (∀ n, logStats w !! "debug" = Some n → logStats w' !! "debug" = Some (n + 1)%N) ∧
  stdout_of (console w') =
    stdout_of (console w) ++
    [colorize "debug"
       (messages host (timestamp_of (now w)) "debug" layer (new_Error host message)
          {| context := VUndefined; trace := VBool true; noThrow := VUndefined |}).1] ∧
  (faults w = [] →
   fs w !! log_file host config w "debug" ≠ Some Dir →
   fs w !! log_file host config w "all" ≠ Some Dir →
   fs w' !! log_file host config w "debug" =
     Some (File (keep (content_of (fs w !! log_file host config w "debug"))
                 +:+ line_of entry)) ∧
   fs w' !! log_file host config w "all" =
     Some (File (keep (content_of (fs w !! log_file host config w "all"))
                 +:+ line_of entry))).
Proof.
  intros text head stack entry w'. unfold w'. rewrite trace_run. cbn [snd].
  split; [|split; [|split]].
  - intros Htext. apply parseStack_after_head.
    unfold head. destruct (Str.is_empty text); [done|].
    rewrite mem_app. by rewrite Htext.
  - intros n Hn. by rewrite logStats_after_record, lookup_insert_eq, Hn.
  - rewrite stdout_after_record.
    assert (shouldLog config "debug" = true) as ->; [|done].
    unfold shouldLog. simpl. by rewrite orb_true_r.
  - intros Hf Hd1 Hd2.
    pose proof (record_files host config "debug" layer (new_Error host message)
                  {| context := VUndefined; trace := VBool true; noThrow := VUndefined |}
                  w Hf eq_refl ltac:(discriminate) Hd1 Hd2) as H.
    cbv zeta in H. by rewrite messages_trace in H.
Qed.

Lemma trace_writes_the_call_stack_witness :
  parseStack (Some ("Error: checkpoint" +:+ String Str.LF "" +:+ callStack sample_host)) =
    [Frame "main" "/app/src/index.js" "3" "1"] ∧
  fs (trace_ sample_host development "db" (VStr "checkpoint") fresh_world).2
    !! "/app/logs/2025-01-05/debug.log" =
    Some (File (line_of ("2025-01-05 07:08:09.042 | DEBUG | DB | checkpoint" +:+
                         String Str.LF "  → main (/app/src/index.js:3:1)"))).
Proof.
  destruct (trace_writes_the_call_stack sample_host development "db" (VStr "checkpoint")
              fresh_world) as (Hparse & _ & _ & Hfiles).
  split.
  - exact (Hparse eq_refl).
  - assert (Hd : ∀ type, fs fresh_world !! log_file sample_host development fresh_world type
                         ≠ Some Dir) by (intros type; unfold fresh_world; cbn [fs]; by rewrite lookup_empty).
    exact (proj1 (Hfiles eq_refl (Hd "debug") (Hd "all"))).
Defined.

(** *** The failure of [table] *)

(** X14: [table] never counts an entry and never prints with
    [console.log].  It throws exactly when the data is a non-empty array
    on which [JSON.stringify] throws, and it throws that value: the table
    has been printed by then and no file has been touched.  When no
    file-system call fails, the file of every severity other than [log]
    is left as it was: a table does not reach [all.log]. *)
Theorem table_throws_on_unserialisable_data host config (layer : string) (data : Value)
    (w : World) :
  let done := table host config layer data w in
  logStats done.2 = logStats w ∧
  stdout_of (console done.2) = stdout_of (console w) ∧
  (done.1 ≠ Normal tt ↔
     (∃ x xs, data = VArr (x :: xs)) ∧ ∃ v, JSON_stringify host data = Throw v) ∧
  (∀ x xs v, data = VArr (x :: xs) → JSON_stringify host data = Throw v →
     done.1 = Throw v) ∧
  (done.1 ≠ Normal tt → fs done.2 = fs w ∧ console done.2 = console w ++ [Table data]) ∧
  (faults w = [] →
   fs w !! log_file host config w "log" ≠ Some Dir →
   ∀ s, s ≠ SLog →
     fs done.2 !! log_file host config w (severity_name s) =
       fs w !! log_file host config w (severity_name s)).
Proof.
  intros done. unfold done.
  destruct data as [| | | | |[|x xs]| | |];
    try solve [repeat split; try done; try (intros []; done);
               try (by intros [(? & ? & ?) _])].
  assert (Hrun : table host config layer (VArr (x :: xs)) w =
    match JSON_stringify host (VArr (x :: xs)) with
    | Normal json =>
        writeToFile host config "log"
          (timestamp_of (now w) +:+ " | TABLE | " +:+ Str.toUpperCase layer +:+
           String Str.LF "" +:+ json)
          (set_console (λ c, c ++ [Table (VArr (x :: xs))]) w)
    | Throw v => (Throw v, set_console (λ c, c ++ [Table (VArr (x :: xs))]) w)
    end).
  { unfold table. rewrite bind_run. unfold console_table, modify. cbv beta iota.
    rewrite bind_run. unfold timestamp. rewrite bind_run. unfold get at 1. cbv beta iota.
    unfold mret at 1, Js_ret at 1. cbv beta iota.
    by destruct (JSON_stringify host (VArr (x :: xs))). }
  rewrite Hrun. set (w1 := set_console _ w).
  assert (Hout : stdout_of (console w1) = stdout_of (console w)).
  { unfold w1, stdout_of. simpl. rewrite omap_app. simpl. by rewrite app_nil_r. }
  destruct (JSON_stringify host (VArr (x :: xs))) as [json|thrown] eqn:Ejson.
  - set (entry := timestamp_of (now w) +:+ _).
    destruct (writeToFile_any host config "log" entry w1) as (w2 & E & Hs & _ & Hc).
    rewrite E. cbn [fst snd]. split; [by rewrite Hs|]. split; [by rewrite Hc|].
    split; [split; [done|by intros [_ [? ?]]]|]. split; [done|]. split; [done|].
    intros Hf Hd s Hs'.
    pose proof (writeToFile_elsewhere host config "log" entry w1
                  (log_file host config w (severity_name s)) Hf Hd) as Hw.
    rewrite E in Hw. apply Hw.
    + intros H%(log_file_inj host config w1). by destruct s.
    + apply (log_file_ne_rotated host config w1). apply severity_name_no_dot.
    + apply (log_file_ne_dir host config w1).
  - cbn [fst snd]. split; [done|]. split; [done|].
    split; [split; [eauto|done]|]. split; [by intros ? ? ? _ [= ->]|].
    split; [done|]. done.
Qed.

(** Rows that hold a BigInt, in production mode. *)
Lemma table_throws_on_unserialisable_data_witness :
  let data := VArr [VArr [VStr "total"; VBigInt 12]] in
  let done := table sample_host production_mode "db" data fresh_world in
  done.1 = Throw BigInt_TypeError ∧ fs done.2 = ∅ ∧ console done.2 = [Table data].
Proof.
  intros data done.
  destruct (table_throws_on_unserialisable_data sample_host production_mode "db"
              data fresh_world) as (_ & _ & Hiff & Hvalue & Hthrow & _).
  assert (Hjson : JSON_stringify sample_host data = Throw BigInt_TypeError) by reflexivity.
  assert (H : done.1 ≠ Normal tt).
  { apply Hiff. split; [by eexists _, _|by eexists]. }
  split; [exact (Hvalue _ _ _ eq_refl Hjson)|]. exact (Hthrow H).
Defined.

(** *** Counters after [clearStats] *)

(** X15: after any sequence of calls, [clearStats] sets every counter
    to zero and keeps the set of keys; it touches neither the files nor
    the console.  When the six counters were there at the start, each of
    them reads zero afterwards. *)
Theorem clearStats_resets_every_counter host config (calls : list Call) (w : World) :
  let before := (run_calls host config calls w).2 in
  let after := (clearStats before).2 in
  (∀ key, logStats after !! key = (λ _, 0%N) <$> logStats before !! key) ∧
  dom (logStats after) = dom (logStats before) ∧
  fs after = fs before ∧ console after = console before ∧
  ((∀ s, is_Some (logStats w !! severity_name s)) →
   ∀ s, logStats after !! severity_name s = Some 0%N).
Proof.
  intros before after. unfold after, clearStats, modify. cbn [snd set_logStats logStats fs console].
  split; [intros key; apply lookup_fmap|].
  split; [apply dom_fmap_L|]. split; [done|]. split; [done|].
  intros Hkeys s. rewrite lookup_fmap.
  destruct (Hkeys s) as [x Hx].
  unfold before. by rewrite (logStats_run_calls host config calls w s x Hx).
Qed.

Lemma clearStats_resets_every_counter_witness :
  let calls := [mkCall SInfo "db" (VStr "up") no_options;
                mkCall SError "db" (VStr "down") no_options] in
  let w' := (clearStats (run_calls sample_host development calls fresh_world).2).2 in
  logStats w' !! "info" = Some 0%N ∧ logStats w' !! "error" = Some 0%N.
Proof.
  intros calls w'.
  destruct (clearStats_resets_every_counter sample_host development calls fresh_world)
    as (_ & _ & _ & _ & Hzero).
  split; [apply (Hzero fresh_world_keys SInfo)|apply (Hzero fresh_world_keys SError)].
Defined.
